(** * autot: a shallow embedding of [autot.py] and its properties

    The program reads reference documentation, builds three context
    stores, and drives a batch translation of Lisp files through a
    text-generation backend.  This development embeds the string
    processing, the stores with their persistence, the translation
    engine and the run orchestrator, and settles the properties of the
    specification against that embedding.

    Python strings are sequences of Unicode code points: a character is
    a number of type [N], a string a [list N].  The regular expressions
    of the source are embedded as the matchers they denote under
    Python's backtracking semantics (leftmost match, greedy and lazy
    quantifiers); every matcher names the expression it stands for. *)

From Stdlib Require Import NArith Ascii String DecimalString.
From stdpp Require Import base option list gmap.

Local Open Scope N_scope.
Local Open Scope list_scope.

(** ** Strings *)

Module Str.

(** The code points of a literal. *)
Definition py (s : string) : list N :=
  List.map N_of_ascii (list_ascii_of_string s).

Definition NL : N := 10.
Definition SP : N := 32.

(** [str.isspace] on one character, which is also the class [\s] of
    [re] on [str] patterns. *)
Definition isspace (c : N) : bool :=
  ((9 <=? c) && (c <=? 13)) || ((28 <=? c) && (c <=? 32))
  || (c =? 133) || (c =? 160) || (c =? 5760)
  || ((8192 <=? c) && (c <=? 8202))
  || (c =? 8232) || (c =? 8233) || (c =? 8239) || (c =? 8287)
  || (c =? 12288).

Fixpoint eqb (a b : list N) : bool :=
  match a, b with
  | [], [] => true
  | x :: a', y :: b' => (x =? y) && eqb a' b'
  | _, _ => false
  end.

(** [s.lstrip()], [s.rstrip()], [s.strip()]. *)
Fixpoint lstrip (s : list N) : list N :=
  match s with
  | c :: s' => if isspace c then lstrip s' else s
  | [] => []
  end.

Fixpoint rstrip (s : list N) : list N :=
  match s with
  | [] => []
  | c :: s' =>
      match rstrip s' with
      | [] => if isspace c then [] else [c]
      | r => c :: r
      end
  end.

Definition strip (s : list N) : list N := rstrip (lstrip s).

(** [s.split()]: the maximal runs of non-whitespace characters. *)
Fixpoint split (s : list N) : list (list N) :=
  match s with
  | [] => []
  | c :: s' =>
      if isspace c then split s'
      else match s' with
           | [] => [[c]]
           | d :: _ =>
               if isspace d then [c] :: split s'
               else match split s' with
                    | w :: ws => (c :: w) :: ws
                    | [] => [[c]]
                    end
           end
  end.

(** [sep.join(parts)]. *)
Fixpoint join (sep : list N) (parts : list (list N)) : list N :=
  match parts with
  | [] => []
  | [p] => p
  | p :: ps => p ++ sep ++ join sep ps
  end.

(** [s.startswith(p)], returning what follows the prefix. *)
Fixpoint strip_prefix (p s : list N) : option (list N) :=
  match p, s with
  | [], _ => Some s
  | x :: p', y :: s' => if x =? y then strip_prefix p' s' else None
  | _ :: _, [] => None
  end.

Fixpoint drop_while (f : N → bool) (s : list N) : list N :=
  match s with
  | c :: s' => if f c then drop_while f s' else s
  | [] => []
  end.

(** Python truthiness of a string: non-empty. *)
Definition truthy (s : list N) : bool :=
  match s with [] => false | _ => true end.

(** ASCII lower-casing.  It is used on file extensions that are then
    compared with [.txt], [.html] and [.pdf] only; no character
    outside ASCII lower-cases to a letter of these. *)
Definition lower_char (c : N) : N :=
  if (65 <=? c) && (c <=? 90) then c + 32 else c.

Definition lower (s : list N) : list N := List.map lower_char s.

End Str.

(** ** Regular expressions of the source *)

Module Re.
Import Str.

(** A token of a scanned string: a character outside every match, or
    one match with its result. *)
Inductive token (A : Type) : Type :=
| Lit (c : N)
| Hit (a : A).
Arguments Lit {A} c.
Arguments Hit {A} a.

(** A matcher tries the expression at one position: it is given
    whether the position is the start of the subject, and the rest of
    the subject from there; it answers with a result and the number of
    characters the match spans.  No expression of the source matches
    the empty string. *)
Definition matcher (A : Type) : Type :=
  bool → list N → option (A * nat).

(** The successive leftmost non-overlapping matches, as [re.finditer]
    walks them.  [skip] counts the characters still inside the last
    match. *)
Fixpoint scan {A} (m : matcher A) (skip : nat) (at_start : bool)
    (s : list N) : list (token A) :=
  match s with
  | [] => []
  | c :: s' =>
      match skip with
      | S k => scan m k false s'
      | O =>
          match m at_start s with
          | Some (a, n) => Hit a :: scan m (Nat.pred n) false s'
          | None => Lit c :: scan m O false s'
          end
      end
  end.

(** [re.sub(pattern, repl, s)] for a constant replacement. *)
Definition sub {A} (m : matcher A) (repl : list N) (s : list N)
    : list N :=
  List.concat
    (List.map (fun t => match t with Lit c => [c] | Hit _ => repl end)
       (scan m O true s)).

(** [re.findall(pattern, s)] for an expression with one group. *)
Definition findall {A} (m : matcher A) (s : list N) : list A :=
  omap (fun t => match t with Lit _ => None | Hit a => Some a end)
    (scan m O true s).

(** [re.split(pattern, s)] for an expression without groups. *)
Fixpoint pieces {A} (ts : list (token A)) : list (list N) :=
  match ts with
  | [] => [[]]
  | Lit c :: ts' =>
      match pieces ts' with
      | p :: ps => (c :: p) :: ps
      | [] => [[c]]
      end
  | Hit _ :: ts' => [] :: pieces ts'
  end.

Definition split {A} (m : matcher A) (s : list N) : list (list N) :=
  pieces (scan m O true s).

(** [re.search(pattern, s)]: the match at the leftmost position that
    has one. *)
Fixpoint search {A} (m : list N → option A) (s : list N) : option A :=
  match m s with
  | Some a => Some a
  | None =>
      match s with
      | [] => None
      | _ :: s' => search m s'
      end
  end.

(** *** [;.*]: a semicolon and the rest of its line *)

Fixpoint line_length (s : list N) : nat :=
  match s with
  | c :: s' => if c =? NL then O else S (line_length s')
  | [] => O
  end.

Definition m_comment : matcher unit :=
  fun _ s =>
    match s with
    | c :: s' => if c =? 59 then Some (tt, S (line_length s')) else None
    | [] => None
    end.

(** *** [\s+]: a maximal run of whitespace *)

Fixpoint space_length (s : list N) : nat :=
  match s with
  | c :: s' => if isspace c then S (space_length s') else O
  | [] => O
  end.

Definition m_spaces : matcher unit :=
  fun _ s =>
    match space_length s with
    | O => None
    | n => Some (tt, n)
    end.

(** *** [\n\s*\n]: a blank-line boundary

    After the first newline the greedy [\s*] takes the whole run of
    whitespace and gives characters back until a newline follows: the
    match ends at the last newline of that run. *)

(** Inside the whitespace run that starts [s]: the number of
    characters up to and including its last newline. *)
Fixpoint to_last_newline (s : list N) : option nat :=
  match s with
  | c :: s' =>
      if isspace c then
        match to_last_newline s' with
        | Some n => Some (S n)
        | None => if c =? NL then Some 1%nat else None
        end
      else None
  | [] => None
  end.

Definition m_blank : matcher unit :=
  fun _ s =>
    match s with
    | c :: s' =>
        if c =? NL then
          match to_last_newline s' with
          | Some n => Some (tt, S n)
          | None => None
          end
        else None
    | [] => None
    end.

(** *** [\(.*?\)] without DOTALL: a parenthesis to the first closing
    one on the same line *)

Fixpoint to_close_on_line (s : list N) : option nat :=
  match s with
  | c :: s' =>
      if c =? 41 then Some 1%nat
      else if c =? NL then None
      else option_map S (to_close_on_line s')
  | [] => None
  end.

Definition m_paren : matcher unit :=
  fun _ s =>
    match s with
    | c :: s' =>
        if c =? 40 then
          match to_close_on_line s' with
          | Some n => Some (tt, S n)
          | None => None
          end
        else None
    | [] => None
    end.

(** *** The code-block expression of the segmenter, with DOTALL

    It reads: the start of the subject or a newline; optionally a
    label made of semicolons, whitespace, the word Example, an
    optional colon and whitespace; then, captured, an opening
    parenthesis and the shortest stretch up to a closing parenthesis
    that stands at the end of the subject or before a newline. *)

(** [(?=\n|$)]: at the end of the subject or before a newline. *)
Definition at_line_end (s : list N) : bool :=
  match s with
  | [] => true
  | c :: _ => c =? NL
  end.

(** The captured span after its opening parenthesis: the shortest
    stretch that ends in a closing parenthesis at a line end. *)
Fixpoint to_close_at_line_end (s : list N) : option (list N) :=
  match s with
  | [] => None
  | c :: s' =>
      if (c =? 41) && at_line_end s' then Some [c]
      else option_map (cons c) (to_close_at_line_end s')
  end.

Definition code_span (s : list N) : option (list N) :=
  match s with
  | c :: s' =>
      if c =? 40 then option_map (cons c) (to_close_at_line_end s')
      else None
  | [] => None
  end.

(** The label (semicolons, whitespace, Example, an optional colon,
    whitespace): what follows it.  Each quantifier can
    only take its longest stretch: the character after a shorter one
    is still a semicolon, a whitespace or a colon, which the next
    piece of the expression refuses. *)
Definition after_label (s : list N) : option (list N) :=
  match s with
  | c :: _ =>
      if c =? 59 then
        let s1 := drop_while (N.eqb 59) s in
        let s2 := drop_while isspace s1 in
        match strip_prefix (py "Example") s2 with
        | Some s3 =>
            let s4 := match s3 with
                      | d :: r => if d =? 58 then r else s3
                      | [] => s3
                      end in
            Some (drop_while isspace s4)
        | None => None
        end
      else None
  | [] => None
  end.

(** The optional label, then the span; without the label when the
    attempt with it fails. *)
Definition labelled_span (s : list N) : option (list N * nat) :=
  let plain :=
    match code_span s with
    | Some g => Some (g, length g)
    | None => None
    end in
  match after_label s with
  | Some r =>
      match code_span r with
      | Some g => Some (g, (length s - length r + length g)%nat)
      | None => plain
      end
  | None => plain
  end.

Definition m_code_block : matcher (list N) :=
  fun at_start s =>
    let after_newline :=
      match s with
      | c :: s' =>
          if c =? NL then
            match labelled_span s' with
            | Some (g, n) => Some (g, S n)
            | None => None
            end
          else None
      | [] => None
      end in
    if at_start then
      match labelled_span s with
      | Some r => Some r
      | None => after_newline
      end
    else after_newline.

(** *** Fenced and tagged blocks, with DOTALL and IGNORECASE *)

(** The characters a literal matches under IGNORECASE.  Besides the
    two ASCII cases, [i] matches U+0130 and U+0131, [s] matches U+017F
    and [k] matches U+212A. *)
Definition ci (p c : N) : bool :=
  (c =? p)
  || ((97 <=? p) && (p <=? 122) && (c =? p - 32))
  || ((p =? 105) && ((c =? 304) || (c =? 305)))
  || ((p =? 115) && (c =? 383))
  || ((p =? 107) && (c =? 8490)).

(** A literal at the start of [s], case-insensitively. *)
Fixpoint lit_ci (p s : list N) : option (list N) :=
  match p, s with
  | [], _ => Some s
  | x :: p', y :: s' => if ci x y then lit_ci p' s' else None
  | _ :: _, [] => None
  end.

(** [(.*?)] followed by the literal [close]: the shortest group. *)
Fixpoint lazy_until (close s : list N) : option (list N) :=
  match lit_ci close s with
  | Some _ => Some []
  | None =>
      match s with
      | [] => None
      | c :: s' => option_map (cons c) (lazy_until close s')
      end
  end.

(** [open(.*?)close] at the start of [s]: the group. *)
Definition block (open close s : list N) : option (list N) :=
  match lit_ci open s with
  | Some body => lazy_until close body
  | None => None
  end.

Definition fence_close : list N := NL :: py "```".
Definition lisp_open : list N := py "```lisp" ++ [NL].
Definition comments_open : list N := py "```comments" ++ [NL].
Definition think_fence_open : list N := py "```think" ++ [NL].
Definition think_open : list N := py "<think>".
Definition think_close : list N := py "</think>".

End Re.

(** ** Utilities of the translator: normalisation and output parsing *)

Import Str.

(** [_preprocess_code] *)
Definition _preprocess_code (code : list N) : list N :=
  let code := Re.sub Re.m_comment [] code in
  strip (Re.sub Re.m_spaces [SP] code).

Definition no_explanations : list N := py "No explanations provided".

(** [_extract_code_block] *)
Definition _extract_code_block (text : list N) : list N :=
  match Re.search (Re.block Re.lisp_open Re.fence_close) text with
  | Some g => strip g
  | None => strip text
  end.

(** [_extract_comments_block] *)
Definition _extract_comments_block (text : list N) : list N :=
  match Re.search (Re.block Re.comments_open Re.fence_close) text with
  | Some g => strip g
  | None => no_explanations
  end.

(** [_extract_think_block] *)
Definition _extract_think_block (text : list N) : option (list N) :=
  match Re.search (Re.block Re.think_open Re.think_close) text with
  | Some g => Some (strip g)
  | None =>
      match Re.search (Re.block Re.think_fence_open Re.fence_close) text with
      | Some g => Some (strip g)
      | None => None
      end
  end.

(** ** Document segmenter *)

(** [_extract_code_context_pairs] *)
Definition section_pairs (section : list N) : list (list N * list N) :=
  let code_blocks := Re.findall Re.m_code_block section in
  match code_blocks with
  | [] => []
  | _ =>
      let context := Re.sub Re.m_paren [] section in
      let context := strip (join [SP] (split context)) in
      omap (fun code =>
              if truthy (strip code) then Some (strip code, context)
              else None)
        code_blocks
  end.

Definition _extract_code_context_pairs (text : list N)
    : list (list N * list N) :=
  List.concat (List.map section_pairs (Re.split Re.m_blank text)).

(** [_process_doc_content] *)
Definition _process_doc_content (content : list N)
    : list (list N * list N) * list (list N) :=
  let code_context_pairs := _extract_code_context_pairs content in
  let text_chunks :=
    omap (fun chunk =>
            if truthy (strip chunk) && (5 <? length (split chunk))%nat
            then Some (strip chunk) else None)
      (Re.split Re.m_blank (Re.sub Re.m_paren [] content)) in
  (code_context_pairs, text_chunks).

(** ** Paths *)

Module Path.

Definition SEP : N := 47.
Definition DOT : N := 46.

(** Index of the last occurrence of [c] in [s], counted from 1; 0 when
    there is none ([s.rfind(c) + 1]). *)
Definition rfind1 (c : N) (s : list N) : nat :=
  (fix go (i : nat) (best : nat) (s : list N) : nat :=
     match s with
     | [] => best
     | x :: s' => go (S i) (if x =? c then S i else best) s'
     end) O O s.

(** [os.path.splitext] (posixpath): the extension starts at the last
    dot of the last component, unless only dots precede it there. *)
Definition splitext (p : list N) : list N * list N :=
  let sep := rfind1 SEP p in
  let dot := rfind1 DOT p in
  if (sep <? dot)%nat
     && existsb (fun x => negb (x =? DOT))
          (firstn (dot - 1 - sep) (skipn sep p))
  then (firstn (dot - 1) p, skipn (dot - 1) p)
  else (p, []).

(** [os.path.basename] *)
Definition basename (p : list N) : list N := skipn (rfind1 SEP p) p.

(** [os.path.join(a, b)] for a relative [b]. *)
Definition join (a b : list N) : list N :=
  match a with
  | [] => b
  | _ => if (rfind1 SEP a =? length a)%nat then a ++ b
         else a ++ [SEP] ++ b
  end.

(** Text-mode reading translates every line ending to a newline. *)
Fixpoint universal_newlines (s : list N) : list N :=
  match s with
  | [] => []
  | c :: s' =>
      if c =? 13 then
        match s' with
        | d :: s'' =>
            if d =? 10 then 10 :: universal_newlines s''
            else 10 :: universal_newlines s'
        | [] => [10]
        end
      else c :: universal_newlines s'
  end.

(** The lines of a text, without their newline. *)
Fixpoint lines (s : list N) : list (list N) :=
  match s with
  | [] => []
  | c :: s' =>
      if c =? 10 then [] :: lines s'
      else match lines s' with
           | l :: ls => (c :: l) :: ls
           | [] => [[c]]
           end
  end.

End Path.

(** ** Data model *)

(** An element of a [samples] list: a string, a tuple of strings as the
    builder appends it, or a list of strings as [json.load] returns an
    array. *)
Inductive item : Type :=
| IStr (s : list N)
| ITuple (l : list (list N))
| IList (l : list (list N)).

(** The same element inside a JSON document: JSON has strings and
    arrays, and no tuples. *)
Inductive jitem : Type :=
| JStr (s : list N)
| JArr (l : list (list N)).

Definition to_json (i : item) : jitem :=
  match i with
  | IStr s => JStr s
  | ITuple l => JArr l
  | IList l => JArr l
  end.

Definition of_json (j : jitem) : item :=
  match j with
  | JStr s => IStr s
  | JArr l => IList l
  end.

(** Exceptions, by the place that raises them. *)
Inductive exn : Type :=
| OSError (path : list N)
| JSONDecodeError
| ValueError
| ServiceError (msg : list N).

Section Model.

(** The numbers of the vector tables.  A table (a 2-dimensional
    [ndarray]) is the list of its rows; the table without rows is
    [np.zeros((0, 768))]. *)
Context {float : Type}.

(** A context store, [src_db] or [trg_db]. *)
Record ctx_db : Type := {
  embeddings : list (list float);
  samples : list item;
  text_embeddings : list (list float);
  text_chunks : list (list N);
}.

(** The translation history store, [done_db]. *)
Record hist_db : Type := {
  h_embeddings : list (list float);
  h_samples : list item;
  h_text_embeddings : list (list float);
  h_text_chunks : list (list N);
  h_filepaths : list (list N);
}.

(** A JSON document of a store file: an object whose keys, when
    present, hold arrays of arrays of numbers ([embeddings],
    [text_embeddings]), an array of strings or arrays of strings
    ([samples]) and arrays of strings ([text_chunks], [filepaths]).
    Documents of another shape are not represented: the program loads
    them unchecked, and what it then does depends on the operation that
    first meets the ill-shaped entry. *)
Record json_doc : Type := {
  j_embeddings : option (list (list float));
  j_samples : option (list jitem);
  j_text_embeddings : option (list (list float));
  j_text_chunks : option (list (list N));
  j_filepaths : option (list (list N));
}.

(** A file holds text.  A file written by [json.dump] is kept as the
    document it encodes. *)
Inductive content : Type :=
| Text (s : list N)
| Json (d : json_doc).

Inductive node : Type :=
| Dir
| File (c : content).

(** The state of a run: the file system, the three stores, the
    translation cache, the prompts sent to the generation backend
    (with the streaming flag, oldest first) and the lines printed. *)
Record world : Type := {
  fs : gmap (list N) node;
  src_db : ctx_db;
  trg_db : ctx_db;
  done_db : hist_db;
  translation_cache : gmap (list N) (list N * list N * option (list N));
  calls : list (list N * bool);
  stdout : list (list N);
}.

Definition empty_ctx_db : ctx_db :=
  {| embeddings := []; samples := [];
     text_embeddings := []; text_chunks := [] |}.

Definition empty_hist_db : hist_db :=
  {| h_embeddings := []; h_samples := [];
     h_text_embeddings := []; h_text_chunks := [];
     h_filepaths := [] |}.

(** [LispTranslationRAG.__init__] over a given file system. *)
Definition init (files : gmap (list N) node) : world :=
  {| fs := files;
     src_db := empty_ctx_db; trg_db := empty_ctx_db;
     done_db := empty_hist_db;
     translation_cache := ∅; calls := []; stdout := [] |}.

Definition set_fs (f : gmap (list N) node) (w : world) : world :=
  {| fs := f; src_db := src_db w; trg_db := trg_db w;
     done_db := done_db w; translation_cache := translation_cache w;
     calls := calls w; stdout := stdout w |}.

Definition set_src_db (d : ctx_db) (w : world) : world :=
  {| fs := fs w; src_db := d; trg_db := trg_db w;
     done_db := done_db w; translation_cache := translation_cache w;
     calls := calls w; stdout := stdout w |}.

Definition set_trg_db (d : ctx_db) (w : world) : world :=
  {| fs := fs w; src_db := src_db w; trg_db := d;
     done_db := done_db w; translation_cache := translation_cache w;
     calls := calls w; stdout := stdout w |}.

Definition set_done_db (d : hist_db) (w : world) : world :=
  {| fs := fs w; src_db := src_db w; trg_db := trg_db w;
     done_db := d; translation_cache := translation_cache w;
     calls := calls w; stdout := stdout w |}.

Definition set_cache
    (c : gmap (list N) (list N * list N * option (list N)))
    (w : world) : world :=
  {| fs := fs w; src_db := src_db w; trg_db := trg_db w;
     done_db := done_db w; translation_cache := c;
     calls := calls w; stdout := stdout w |}.

Definition set_calls (c : list (list N * bool)) (w : world) : world :=
  {| fs := fs w; src_db := src_db w; trg_db := trg_db w;
     done_db := done_db w; translation_cache := translation_cache w;
     calls := c; stdout := stdout w |}.

Definition set_stdout (o : list (list N)) (w : world) : world :=
  {| fs := fs w; src_db := src_db w; trg_db := trg_db w;
     done_db := done_db w; translation_cache := translation_cache w;
     calls := calls w; stdout := o |}.

(** *** The monad of the program: state and exceptions *)

Inductive res (A : Type) : Type :=
| Ok (a : A)
| Raise (e : exn).
Arguments Ok {A} a.
Arguments Raise {A} e.

Definition M (A : Type) : Type := world → res A * world.

Definition ret {A} (a : A) : M A := fun w => (Ok a, w).

Definition raise {A} (e : exn) : M A := fun w => (Raise e, w).

Definition bind {A B} (m : M A) (k : A → M B) : M B :=
  fun w =>
    match m w with
    | (Ok a, w') => k a w'
    | (Raise e, w') => (Raise e, w')
    end.

(** [try: m except Exception as e: h e]; what [m] did to the state
    before it raised stays done. *)
Definition try_except {A} (m : M A) (h : exn → M A) : M A :=
  fun w =>
    match m w with
    | (Ok a, w') => (Ok a, w')
    | (Raise e, w') => h e w'
    end.

Definition get {A} (f : world → A) : M A := fun w => (Ok (f w), w).

Definition modify (f : world → world) : M unit :=
  fun w => (Ok tt, f w).

(** A pure computation that may raise. *)
Definition lift {A} (r : res A) : M A := fun w => (r, w).

End Model.

Arguments ctx_db float : clear implicits.
Arguments hist_db float : clear implicits.
Arguments json_doc float : clear implicits.
Arguments content float : clear implicits.
Arguments node float : clear implicits.
Arguments world float : clear implicits.
Arguments M float A : clear implicits.
Arguments Ok {A} a.
Arguments Raise {A} e.

Declare Scope prog_scope.
Delimit Scope prog_scope with prog.
Notation "x <- c ;; k" := (bind c (fun x => k))
  (at level 100, c at next level, right associativity) : prog_scope.
Notation "c ;;; k" := (bind c (fun _ => k))
  (at level 100, right associativity) : prog_scope.

(** ** What a run is given: the external services and the settings *)

Record env (float : Type) : Type := {
  (** [SentenceTransformer.encode]: the vector of a text, or an
      exception. *)
  encode : list N → res (list float);
  (** [ollama.generate] without streaming, at its [n]-th call of the
      run: the [response] entry of the answer when it has one. *)
  generate : nat → list N → res (option (list N));
  (** [ollama.generate] with [stream=True]: the [response] entries of
      the chunks in emission order, and the exception that ends the
      stream when there is one. *)
  generate_stream : nat → list N → list (option (list N)) * option exn;
  (** [hashlib.md5(s.encode()).hexdigest()] *)
  md5 : list N → list N;
  (** [BeautifulSoup(...).get_text()] after scripts and styles are
      removed; the texts of the pages of a PDF. *)
  html_text : list N → res (list N);
  pdf_pages : list N → res (list (list N));
  HTML_SUPPORT : bool;
  PDF_SUPPORT : bool;
  (** [glob.glob(pattern, recursive=True)] on a file system. *)
  glob : gmap (list N) (node float) → list N → list (list N);
  (** Whether a file can be created or overwritten at a path: it gathers
      what makes [os.makedirs] or [open] for writing fail there. *)
  can_write : list N → bool;
  (** [json.dumps] and [json.loads] on the documents of the model. *)
  json_dumps : json_doc float → list N;
  json_loads : list N → option (json_doc float);
  (** [str(e)] of an exception; [str(x)] of a sample that is not a
      string. *)
  exn_str : exn → list N;
  py_repr : item → list N;
  (** The paths of the source and target documentation. *)
  src_docs_path : list N;
  trg_docs_path : list N;
}.

Arguments encode {float} e.
Arguments generate {float} e.
Arguments generate_stream {float} e.
Arguments md5 {float} e.
Arguments html_text {float} e.
Arguments pdf_pages {float} e.
Arguments HTML_SUPPORT {float} e.
Arguments PDF_SUPPORT {float} e.
Arguments glob {float} e.
Arguments can_write {float} e.
Arguments json_dumps {float} e.
Arguments json_loads {float} e.
Arguments exn_str {float} e.
Arguments py_repr {float} e.
Arguments src_docs_path {float} e.
Arguments trg_docs_path {float} e.

(** ** The program *)

Section Program.

Context {float : Type} (E : env float).

Local Open Scope prog_scope.

(** [print(line)] and [print(part, end='')] *)
Definition print (line : list N) : M float unit :=
  modify (fun w => set_stdout (stdout w ++ [line ++ [NL]]) w).

Definition print_part (part : list N) : M float unit :=
  modify (fun w => set_stdout (stdout w ++ [part]) w).

Fixpoint for_each {A} (l : list A) (body : A → M float unit)
    : M float unit :=
  match l with
  | [] => ret tt
  | x :: l' => body x ;;; for_each l' body
  end.

(** *** Files *)

Definition exists_ (path : list N) (w : world float) : bool :=
  match fs w !! path with Some _ => true | None => false end.

Definition isdir (path : list N) (w : world float) : bool :=
  match fs w !! path with Some Dir => true | _ => false end.

Definition isfile (path : list N) (w : world float) : bool :=
  match fs w !! path with Some (File _) => true | _ => false end.

(** The characters of a file. *)
Definition read_raw (path : list N) : M float (list N) :=
  fun w =>
    match fs w !! path with
    | Some (File (Text s)) => (Ok s, w)
    | Some (File (Json d)) => (Ok (json_dumps E d), w)
    | _ => (Raise (OSError path), w)
    end.

(** [open(path, 'r').read()] *)
Definition read_text (path : list N) : M float (list N) :=
  s <- read_raw path ;; ret (Path.universal_newlines s).

(** [json.load(open(path, 'r'))] *)
Definition read_json (path : list N) : M float (json_doc float) :=
  fun w =>
    match fs w !! path with
    | Some (File (Json d)) => (Ok d, w)
    | Some (File (Text s)) =>
        match json_loads E s with
        | Some d => (Ok d, w)
        | None => (Raise JSONDecodeError, w)
        end
    | _ => (Raise (OSError path), w)
    end.

(** [open(path, 'w')] followed by the writing of the whole content. *)
Definition write_file (path : list N) (c : content float) : M float unit :=
  fun w =>
    if can_write E path && negb (isdir path w)
    then (Ok tt, set_fs (<[path := File c]> (fs w)) w)
    else (Raise (OSError path), w).

(** [_write_output] *)
Definition _write_output (path content : list N) : M float unit :=
  write_file path (Text content).

(** *** Content extraction *)

(** [_extract_text_from_file] *)
Definition _extract_text_from_file (filepath : list N) : M float (list N) :=
  let ext := lower (snd (Path.splitext filepath)) in
  try_except
    (if Str.eqb ext (py ".txt") then read_text filepath
     else if Str.eqb ext (py ".html") && HTML_SUPPORT E then
       s <- read_text filepath ;; lift (html_text E s)
     else if Str.eqb ext (py ".pdf") && PDF_SUPPORT E then
       b <- read_raw filepath ;;
       pages <- lift (pdf_pages E b) ;;
       ret (List.concat (List.map (fun p => p ++ [NL]) pages))
     else
       print (py "Warning: Unsupported file type or missing dependency: "
                ++ filepath) ;;;
       ret [])
    (fun e =>
       print (py "Error reading file " ++ filepath ++ py ": "
                ++ exn_str E e) ;;;
       ret []).

(** The body of the inner loop of [_process_directory]. *)
Definition collect_file (all_content : list (list N))
    (filepath : list N) : M float (list (list N)) :=
  print (py "Processing: " ++ filepath) ;;;
  content <- _extract_text_from_file filepath ;;
  if truthy (strip content) then
    ret (all_content
           ++ [[NL] ++ py "--- Content from " ++ Path.basename filepath
                 ++ py " ---" ++ [NL]]
           ++ [content])
  else ret all_content.

Fixpoint fold_files {A B} (body : A → B → M float A)
    (acc : A) (l : list B) : M float A :=
  match l with
  | [] => ret acc
  | x :: l' => acc' <- body acc x ;; fold_files body acc' l'
  end.

(** [_process_directory] *)
Definition _process_directory (dir_path : list N) : M float (list N) :=
  ex <- get (exists_ dir_path) ;;
  if negb ex then
    print (py "Error: Directory " ++ dir_path ++ py " does not exist") ;;;
    ret []
  else
    all_content <-
      fold_files
        (fun acc pattern =>
           files <- get (fun w =>
                           glob E (fs w)
                             (Path.join (Path.join dir_path (py "**"))
                                pattern)) ;;
           fold_files collect_file acc files)
        [] [py "*.txt"; py "*.html"; py "*.pdf"] ;;
    isf <- get (isfile dir_path) ;;
    all_content <-
      (if isf then
         content <- _extract_text_from_file dir_path ;;
         if truthy (strip content) then ret (all_content ++ [content])
         else ret all_content
       else ret all_content) ;;
    ret (Str.join [NL] all_content).

(** *** Vector tables *)

(** [np.array(rows)] on an array of arrays of numbers: rows of
    different lengths are refused (NumPy 1.24 and later). *)
Definition np_array (rows : list (list float))
    : res (list (list float)) :=
  match rows with
  | [] => Ok []
  | r :: rs =>
      if forallb (fun x => (length x =? length r)%nat) rs
      then Ok rows else Raise ValueError
  end.

(** [a.size]: the number of entries. *)
Definition size (a : list (list float)) : nat :=
  list_sum (List.map (@length float) a).

(** [np.vstack([a, row])], where [row] has been reshaped to one row:
    the widths have to agree; the table without rows has width 768. *)
Definition vstack (a : list (list float)) (row : list float)
    : res (list (list float)) :=
  let width := match a with r :: _ => length r | [] => 768%nat end in
  if (width =? length row)%nat then Ok (a ++ [row]) else Raise ValueError.

(** The update of a table by one embedding, as the builders write it:
    the embedding itself when [shape[0] == 0], else [np.vstack]. *)
Definition add_row (a : list (list float)) (row : list float)
    : res (list (list float)) :=
  match a with
  | [] => Ok [row]
  | _ => vstack a row
  end.

(** *** The context stores *)

(** The dictionary a function is handed: [self.src_db] or
    [self.trg_db]. *)
Inductive db_ref : Type := Src | Trg.

Definition db_of (r : db_ref) (w : world float) : ctx_db float :=
  match r with Src => src_db w | Trg => trg_db w end.

Definition update_db (r : db_ref) (f : ctx_db float → ctx_db float)
    : M float unit :=
  modify (fun w =>
            match r with
            | Src => set_src_db (f (src_db w)) w
            | Trg => set_trg_db (f (trg_db w)) w
            end).

Definition set_embeddings (e : list (list float)) (d : ctx_db float)
    : ctx_db float :=
  {| embeddings := e; samples := samples d;
     text_embeddings := text_embeddings d;
     text_chunks := text_chunks d |}.

Definition set_samples (s : list item) (d : ctx_db float)
    : ctx_db float :=
  {| embeddings := embeddings d; samples := s;
     text_embeddings := text_embeddings d;
     text_chunks := text_chunks d |}.

Definition set_text_embeddings (e : list (list float))
    (d : ctx_db float) : ctx_db float :=
  {| embeddings := embeddings d; samples := samples d;
     text_embeddings := e; text_chunks := text_chunks d |}.

Definition set_text_chunks (c : list (list N)) (d : ctx_db float)
    : ctx_db float :=
  {| embeddings := embeddings d; samples := samples d;
     text_embeddings := text_embeddings d; text_chunks := c |}.

(** [_save_db] *)
Definition _save_db (db : ctx_db float) (path : list N) : M float unit :=
  try_except
    (let data :=
       {| j_embeddings := Some (embeddings db);
          j_samples := Some (List.map to_json (samples db));
          j_text_embeddings := Some (text_embeddings db);
          j_text_chunks := Some (text_chunks db);
          j_filepaths := None |} in
     write_file path (Json data))
    (fun e =>
       print (py "Warning: Could not save DB to " ++ path ++ py " - "
                ++ exn_str E e)).

(** [_load_db]; [None] is the no-store result. *)
Definition _load_db (path : list N) : M float (option (ctx_db float)) :=
  try_except
    (data <- read_json path ;;
     e <- lift (np_array (default [] (j_embeddings data))) ;;
     te <- lift (np_array (default [] (j_text_embeddings data))) ;;
     let db :=
       {| embeddings := e;
          samples := List.map of_json (default [] (j_samples data));
          text_embeddings := te;
          text_chunks := default [] (j_text_chunks data) |} in
     let db :=
       if (size (embeddings db) =? 0)%nat then set_embeddings [] db
       else db in
     let db :=
       if (size (text_embeddings db) =? 0)%nat
       then set_text_embeddings [] db else db in
     ret (Some db))
    (fun e =>
       print (py "Warning: Could not load DB from " ++ path ++ py " - "
                ++ exn_str E e) ;;;
       ret None).

(** The body of the loop over the pairs in
    [_build_enhanced_database]. *)
Definition add_pair (r : db_ref) (pair : list N * list N)
    : M float unit :=
  let '(code, context) := pair in
  try_except
    (code_embedding <- lift (encode E code) ;;
     context_embedding <- lift (encode E context) ;;
     db <- get (db_of r) ;;
     e <- lift (add_row (embeddings db) code_embedding) ;;
     update_db r (set_embeddings e) ;;;
     update_db r (fun d =>
                    set_samples (samples d ++ [ITuple [code; context]]) d) ;;;
     db <- get (db_of r) ;;
     te <- lift (add_row (text_embeddings db) context_embedding) ;;
     update_db r (set_text_embeddings te) ;;;
     update_db r (fun d => set_text_chunks (text_chunks d ++ [context]) d))
    (fun e => print (py "Error processing sample: " ++ exn_str E e)).

(** The body of the loop over the text chunks. *)
Definition add_chunk (r : db_ref) (chunk : list N) : M float unit :=
  try_except
    (chunk_embedding <- lift (encode E chunk) ;;
     db <- get (db_of r) ;;
     te <- lift (add_row (text_embeddings db) chunk_embedding) ;;
     update_db r (set_text_embeddings te) ;;;
     update_db r (fun d => set_text_chunks (text_chunks d ++ [chunk]) d))
    (fun e => print (py "Error processing text chunk: " ++ exn_str E e)).

(** [_build_enhanced_database] *)
Definition _build_enhanced_database (doc_path : list N) (r : db_ref)
    : M float unit :=
  update_db r (set_embeddings []) ;;;
  update_db r (set_samples []) ;;;
  update_db r (set_text_embeddings []) ;;;
  update_db r (set_text_chunks []) ;;;
  is_dir <- get (isdir doc_path) ;;
  content <- (if is_dir then _process_directory doc_path
              else _extract_text_from_file doc_path) ;;
  if negb (truthy (strip content)) then
    print (py "Warning: No content extracted from " ++ doc_path)
  else
    let '(code_context_pairs, text_chunks) :=
      _process_doc_content content in
    for_each code_context_pairs (add_pair r) ;;;
    for_each text_chunks (add_chunk r).

(** One half of [prepare_context_dbs]: the source store, or the
    target store.  The two halves differ by the store, the paths and
    the word in the messages. *)
Definition prepare_one (r : db_ref) (db_path : list N) : M float unit :=
  let docs := match r with
              | Src => src_docs_path E
              | Trg => trg_docs_path E
              end in
  let name := match r with Src => py "source" | Trg => py "target" end in
  let rebuild (said : list N) :=
    _build_enhanced_database docs r ;;;
    db <- get (db_of r) ;;
    _save_db db db_path ;;;
    print (said ++ name ++ py " context DB to: " ++ db_path) in
  ex <- get (exists_ db_path) ;;
  if ex then
    loaded <- _load_db db_path ;;
    match loaded with
    | Some db =>
        update_db r (fun _ => db) ;;;
        print (py "Loaded " ++ name ++ py " context DB from: " ++ db_path)
    | None =>
        print (py "Rebuilding " ++ name
                 ++ py " DB from docs due to load failure.") ;;;
        rebuild (py "Saved new ")
    end
  else
    print (py "Building " ++ name
             ++ py " context DB from docs (no existing DB at "
             ++ db_path ++ py ")...") ;;;
    rebuild (py "Saved ").

(** [str(n)] of a length. *)
Definition count_text (n : nat) : list N :=
  py (NilZero.string_of_uint (Nat.to_uint n)).

(** [prepare_context_dbs] *)
Definition prepare_context_dbs (src_db_path trg_db_path : list N)
    : M float unit :=
  prepare_one Src src_db_path ;;;
  prepare_one Trg trg_db_path ;;;
  print ([NL] ++ py "Context DB Status:") ;;;
  s <- get src_db ;;
  print (py "Source: " ++ count_text (length (samples s))
           ++ py " code-context pairs, "
           ++ count_text (length (text_chunks s)) ++ py " text chunks") ;;;
  t <- get trg_db ;;
  print (py "Target: " ++ count_text (length (samples t))
           ++ py " code-context pairs, "
           ++ count_text (length (text_chunks t)) ++ py " text chunks").

(** *** The translation history store *)

Definition done_db_json : list N := py "done_db.json".

Definition update_done (f : hist_db float → hist_db float)
    : M float unit :=
  modify (fun w => set_done_db (f (done_db w)) w).

Definition set_h_embeddings (e : list (list float)) (d : hist_db float)
    : hist_db float :=
  {| h_embeddings := e; h_samples := h_samples d;
     h_text_embeddings := h_text_embeddings d;
     h_text_chunks := h_text_chunks d; h_filepaths := h_filepaths d |}.

Definition set_h_samples (s : list item) (d : hist_db float)
    : hist_db float :=
  {| h_embeddings := h_embeddings d; h_samples := s;
     h_text_embeddings := h_text_embeddings d;
     h_text_chunks := h_text_chunks d; h_filepaths := h_filepaths d |}.

Definition set_h_filepaths (f : list (list N)) (d : hist_db float)
    : hist_db float :=
  {| h_embeddings := h_embeddings d; h_samples := h_samples d;
     h_text_embeddings := h_text_embeddings d;
     h_text_chunks := h_text_chunks d; h_filepaths := f |}.

(** [_load_done_db] *)
Definition _load_done_db : M float unit :=
  ex <- get (exists_ done_db_json) ;;
  if ex then
    try_except
      (data <- read_json done_db_json ;;
       e <- lift (np_array (default [] (j_embeddings data))) ;;
       update_done (set_h_embeddings e) ;;;
       update_done
         (set_h_samples (List.map of_json (default [] (j_samples data)))) ;;;
       update_done (set_h_filepaths (default [] (j_filepaths data))) ;;;
       d <- get done_db ;;
       if (size (h_embeddings d) =? 0)%nat
       then update_done (set_h_embeddings [])
       else ret tt)
      (fun e =>
         print (py "Warning: Could not load done_db - " ++ exn_str E e))
  else ret tt.

(** [_save_done_db] *)
Definition _save_done_db : M float unit :=
  try_except
    (d <- get done_db ;;
     write_file done_db_json
       (Json {| j_embeddings := Some (h_embeddings d);
                j_samples := Some (List.map to_json (h_samples d));
                j_text_embeddings := None;
                j_text_chunks := None;
                j_filepaths := Some (h_filepaths d) |}))
    (fun e =>
       print (py "Warning: Could not save done_db - " ++ exn_str E e)).

(** [_update_done_db] *)
Definition _update_done_db (filepath source_code : list N)
    : M float unit :=
  try_except
    (let processed_code := _preprocess_code source_code in
     embedding <- lift (encode E processed_code) ;;
     d <- get done_db ;;
     e <- lift (add_row (h_embeddings d) embedding) ;;
     update_done (set_h_embeddings e) ;;;
     update_done
       (fun d => set_h_samples (h_samples d ++ [IStr processed_code]) d) ;;;
     update_done
       (fun d => set_h_filepaths (h_filepaths d ++ [filepath]) d) ;;;
     _save_done_db)
    (fun e =>
       print (py "Warning: Could not update done_db - " ++ exn_str E e)).

(** *** Prompt assembly *)

(** [for code, ctx in ...]: a sample unpacks when it has two
    elements; a string of two characters does too. *)
Definition unpack2 (i : item) : res (list N * list N) :=
  match i with
  | ITuple [a; b] => Ok (a, b)
  | IList [a; b] => Ok (a, b)
  | IStr [a; b] => Ok ([a], [b])
  | _ => Raise ValueError
  end.

(** [example_tmpl.format(context=ctx, code=code)] *)
Definition example_tmpl (ctx code : list N) : list N :=
  py "Context: " ++ ctx ++ [NL] ++ py "Code: " ++ code.

(** [prev_tmpl.format(snippet=snippet)] *)
Definition prev_tmpl (snippet : item) : list N :=
  match snippet with
  | IStr s => s
  | _ => py_repr E snippet
  end.

Fixpoint render_examples (l : list item) : res (list (list N)) :=
  match l with
  | [] => Ok []
  | i :: l' =>
      match unpack2 i with
      | Ok (code, ctx) =>
          match render_examples l' with
          | Ok rest => Ok (example_tmpl ctx code :: rest)
          | Raise e => Raise e
          end
      | Raise e => Raise e
      end
  end.

(** [block = sep.join(examples) if examples else None-word] *)
Definition example_block (examples : list (list N)) : list N :=
  match examples with
  | [] => py "None"
  | _ => Str.join [NL; NL] examples
  end.

(** [l[-3:]] *)
Definition last3 {A} (l : list A) : list A :=
  skipn (length l - 3) l.

Definition overall_tmpl
    (source_examples target_examples previous_translations
       code_to_translate : list N) : list N :=
  py "Translate this Lisp code to modern Common Lisp while preserving all functionality."
  ++ [NL]
  ++ py "The first knowledge source provided shall help you understand what this lisp code actually does, "
  ++ py "the second language source describes the target implementation, so adhere to it in your answers. "
  ++ py "The third knowledge source represents what you have done so far: You must always remain consistent to it!"
  ++ [NL; NL]
  ++ py "While translating this Common Lisp code, always proceed step by step: "
  ++ py "What is the expected input? What does the source code you shall translate do? "
  ++ py "How do you preserve all its functionality using the target implementation?"
  ++ [NL; NL]
  ++ py "Source Examples:" ++ [NL] ++ source_examples ++ [NL; NL]
  ++ py "Target Examples:" ++ [NL] ++ target_examples ++ [NL; NL]
  ++ py "Previous Translations:" ++ [NL] ++ previous_translations
  ++ [NL; NL]
  ++ py "Code to translate:" ++ [NL] ++ code_to_translate ++ [NL; NL]
  ++ py "Provide the translated code in a ```lisp block and explanations in a ```comments block. "
  ++ py "If you include chain-of-thought or hidden reasoning, wrap it in <think>...</think> (or a ```think block).".

(** [_generate_contextual_prompt_with_langchain] *)
Definition _generate_contextual_prompt_with_langchain
    (source_code : list N) : M float (list N) :=
  src <- get src_db ;;
  src_examples <- lift (render_examples (firstn 3 (samples src))) ;;
  trg <- get trg_db ;;
  trg_examples <- lift (render_examples (firstn 3 (samples trg))) ;;
  done <- get done_db ;;
  let prev_examples := List.map prev_tmpl (last3 (h_samples done)) in
  ret (overall_tmpl (example_block src_examples)
         (example_block trg_examples) (example_block prev_examples)
         source_code).

(** *** Translation engine *)

(** [ollama.generate(...)] without streaming, and the reading of the
    answer: [resp.get('response', '')]. *)
Definition generate_blocking (prompt : list N) : M float (list N) :=
  n <- get (fun w => length (calls w)) ;;
  modify (fun w => set_calls (calls w ++ [(prompt, false)]) w) ;;;
  resp <- lift (generate E n prompt) ;;
  ret (default [] resp).

(** The loop over a stream: every non-empty part is appended to the
    output and echoed. *)
Fixpoint consume (full_output : list N) (chunks : list (option (list N)))
    : M float (list N) :=
  match chunks with
  | [] => ret full_output
  | chunk :: rest =>
      let part := default [] chunk in
      if truthy part then
        print_part part ;;; consume (full_output ++ part) rest
      else consume full_output rest
  end.

(** [ollama.generate(..., stream=True)], the loop and the final
    [print()]. *)
Definition generate_streaming (prompt : list N) : M float (list N) :=
  n <- get (fun w => length (calls w)) ;;
  modify (fun w => set_calls (calls w ++ [(prompt, true)]) w) ;;;
  let '(chunks, failure) := generate_stream E n prompt in
  full_output <- consume [] chunks ;;
  match failure with
  | Some e => raise e
  | None => print [] ;;; ret full_output
  end.

(** The three writes next to the input, which [translate_file] does
    both when it replays the cache and after a generation. *)
Definition write_artifacts (input_path translated_code comments : list N)
    (think : option (list N)) : M float unit :=
  let base_path := fst (Path.splitext input_path) in
  _write_output (base_path ++ py ".autot") translated_code ;;;
  _write_output (base_path ++ py ".comment") comments ;;;
  match think with
  | Some t =>
      if truthy t then _write_output (base_path ++ py ".think") t
      else ret tt
  | None => ret tt
  end.

(** [translate_file]; the result is [(code, comments)], or
    [(None, error_text)]. *)
Definition translate_file (input_path : list N) (verbose : bool)
    : M float (option (list N) * list N) :=
  try_except
    (source_code <- read_text input_path ;;
     let file_hash := md5 E source_code in
     cache <- get translation_cache ;;
     match cache !! file_hash with
     | Some (translated_code, comments, think) =>
         write_artifacts input_path translated_code comments think ;;;
         ret (Some translated_code, comments)
     | None =>
         prompt <- _generate_contextual_prompt_with_langchain
                     source_code ;;
         full_output <- (if verbose then generate_streaming prompt
                         else generate_blocking prompt) ;;
         let translated_code := _extract_code_block full_output in
         let comments := _extract_comments_block full_output in
         let think := _extract_think_block full_output in
         write_artifacts input_path translated_code comments think ;;;
         _update_done_db input_path source_code ;;;
         modify (fun w =>
                   set_cache
                     (<[file_hash := (translated_code, comments, think)]>
                        (translation_cache w)) w) ;;;
         ret (Some translated_code, comments)
     end)
    (fun e =>
       print (py "Failed to translate " ++ input_path ++ py ": "
                ++ exn_str E e) ;;;
       ret (None, exn_str E e)).

(** *** Run orchestrator *)

Definition pathlist_txt : list N := py "pathlist.txt".
Definition processed_files_txt : list N := py "processed_files.txt".

(** [open(path, 'a')]: the file is created when it is missing. *)
Definition open_append (path : list N) : M float unit :=
  fun w =>
    if can_write E path && negb (isdir path w) then
      match fs w !! path with
      | Some _ => (Ok tt, w)
      | None => (Ok tt, set_fs (<[path := File (Text [])]> (fs w)) w)
      end
    else (Raise (OSError path), w).

(** [f.write(text); f.flush()] on a file opened for appending. *)
Definition append_text (path text : list N) : M float unit :=
  old <- try_except (read_raw path) (fun _ => ret []) ;;
  modify (fun w => set_fs (<[path := File (Text (old ++ text))]> (fs w)) w).

(** The set of the stripped, non-empty lines of the ledger. *)
Definition ledger_set (text : list N) : gset (list N) :=
  list_to_set
    (List.filter (fun l => truthy l)
       (List.map strip (Path.lines text))).

(** The body of the loop over the discovered files; the set of
    processed files is threaded through. *)
Definition process_path (verbose : bool) (processed_files : gset (list N))
    (path : list N) : M float (gset (list N)) :=
  if bool_decide (path ∈ processed_files) then ret processed_files
  else
    print ([NL] ++ py "Translating: " ++ path) ;;;
    r <- translate_file path verbose ;;
    let '(translated, comments) := r in
    if match translated with Some c => truthy c | None => false end then
      let base := fst (Path.splitext path) in
      print (py "Successfully translated to: " ++ base ++ py ".autot") ;;;
      print (py "Comments saved to: " ++ base ++ py ".comment") ;;;
      print (py "Think saved to: " ++ base ++ py ".think (if provided)") ;;;
      append_text processed_files_txt (path ++ [NL]) ;;;
      ret (processed_files ∪ {[path]})
    else ret processed_files.

(** [translate_directory] *)
Definition translate_directory (input_dir : list N) (verbose : bool)
    : M float unit :=
  ex <- get (exists_ input_dir) ;;
  if negb ex then
    print (py "Error: Input directory " ++ input_dir
             ++ py " does not exist")
  else
    all_files <- get (fun w =>
                        glob E (fs w)
                          (Path.join input_dir (py "**/*.lisp*"))) ;;
    write_file pathlist_txt
      (Text (List.concat (List.map (fun p => p ++ [NL]) all_files))) ;;;
    ex <- get (exists_ processed_files_txt) ;;
    processed_files <-
      (if ex then
         text <- read_text processed_files_txt ;; ret (ledger_set text)
       else ret ∅) ;;
    open_append processed_files_txt ;;;
    fold_files (process_path verbose) processed_files all_files ;;;
    ret tt.

(** The script: the stores are prepared, the history is loaded, the
    input directory is translated. *)
Definition main (src trg input_dir : list N) (verbose : bool)
    : M float unit :=
  prepare_context_dbs src trg ;;;
  _load_done_db ;;;
  translate_directory input_dir verbose.

End Program.

(** ** Vocabulary of the properties *)

Module Norm.
Import Str.

(** [;.*] removed, read as one pass over the text: [in_comment] tells
    whether the pass is inside a comment. *)
Fixpoint uncomment (in_comment : bool) (s : list N) : list N :=
  match s with
  | [] => []
  | c :: s' =>
      if in_comment then
        if c =? NL then c :: uncomment false s' else uncomment true s'
      else if c =? 59 then uncomment true s'
      else c :: uncomment false s'
  end.

(** Every run of whitespace replaced by one space, as one pass:
    [in_space] tells whether the pass is inside a run. *)
Fixpoint squeeze (in_space : bool) (s : list N) : list N :=
  match s with
  | [] => []
  | c :: s' =>
      if isspace c then
        if in_space then squeeze true s' else SP :: squeeze true s'
      else c :: squeeze false s'
  end.

(** Every whitespace of [s] is a single space that follows a
    character which is not whitespace; [after_space] tells whether a
    whitespace precedes [s]. *)
Fixpoint spaced (after_space : bool) (s : list N) : bool :=
  match s with
  | [] => true
  | c :: s' =>
      if isspace c then (c =? SP) && negb after_space && spaced true s'
      else spaced false s'
  end.

(** The flattened tokens of a substitution. *)
Definition flat {A} (repl : list N) (ts : list (Re.token A)) : list N :=
  List.concat
    (List.map (fun t => match t with Re.Lit c => [c] | Re.Hit _ => repl end)
       ts).

End Norm.

Module Block.
Import Str.

(** [o] is a way to write the literal [pat] under IGNORECASE. *)
Definition matches (pat o : list N) : Prop :=
  Forall2 (fun p c => Re.ci p c = true) pat o.

(** The text holds an opening, later followed by a closing. *)
Definition has_block (open close s : list N) : Prop :=
  ∃ pre o body c post,
    s = pre ++ o ++ body ++ c ++ post ∧ matches open o ∧ matches close c.

(** The literal [pat] occurs somewhere in [s], case-insensitively. *)
Fixpoint occurs (pat s : list N) : bool :=
  match Re.lit_ci pat s with
  | Some _ => true
  | None =>
      match s with
      | [] => false
      | _ :: s' => occurs pat s'
      end
  end.

(** No character that can start [pat] can stand at a later place of
    it: two occurrences of [pat] cannot overlap. *)
Definition unbordered (pat : list N) : Prop :=
  match pat with
  | [] => True
  | x :: p => ∀ c y, Re.ci x c = true → y ∈ p → Re.ci y c = false
  end.

(** The literal [pat] fails at the start of [z] on a character of
    [z], whatever follows [z]. *)
Fixpoint refutes (pat z : list N) : bool :=
  match pat, z with
  | x :: p, c :: z' => if Re.ci x c then refutes p z' else true
  | _, _ => false
  end.

(** It fails so at every place of [z]. *)
Fixpoint all_refuted (pat z : list N) : bool :=
  match z with
  | [] => true
  | _ :: z' => refutes pat z && all_refuted pat z'
  end.

(** The response of the parsing example of the specification. *)
Definition fenced_response (X Y : list N) : list N :=
  Re.lisp_open ++ X ++ Re.fence_close ++ [NL]
    ++ Re.comments_open ++ Y ++ Re.fence_close.

End Block.

(** ** Inputs of the examples *)

Module Examples.
Import Str.

(** The response of the parsing example as the specification writes
    it, with the label [code]. *)
Definition response_code_label : list N :=
  py "```code" ++ [NL] ++ py "X" ++ [NL] ++ py "```" ++ [NL]
    ++ py "```comments" ++ [NL] ++ py "Y" ++ [NL] ++ py "```".

(** The input of the segmenter example, and the same text with the
    code on a line of its own and one more word. *)
Definition segmenter_input : list N :=
  py "Does foo. (foo 1 2)" ++ [NL; NL] ++ py "bar baz qux quux corge".

Definition segmenter_input_by_line : list N :=
  py "Does foo." ++ [NL] ++ py "(foo 1 2)" ++ [NL; NL]
    ++ py "bar baz qux quux corge grault".

End Examples.

(** ** Assertions on runs *)

Section Logic.

Context {float : Type}.

(** From a state that satisfies [P], the program ends with a result
    and a state that satisfy [Q], or raises an exception in a state
    that satisfies [R]. *)
Definition hoare {A} (P : world float → Prop) (m : M float A)
    (Q : A → world float → Prop) (R : exn → world float → Prop) : Prop :=
  ∀ w, P w →
    match m w with
    | (Ok a, w') => Q a w'
    | (Raise e, w') => R e w'
    end.

(** The program keeps [I], whether it returns or raises. *)
Definition keeps {A} (I : world float → Prop) (m : M float A) : Prop :=
  hoare I m (fun _ => I) (fun _ => I).

(** The program returns from every state. *)
Definition total {A} (m : M float A) : Prop :=
  hoare (fun _ => True) m (fun _ _ => True) (fun _ _ => False).

(** Two states that agree on everything but the log of the prompts
    and the printed lines. *)
Definition same_data (w1 w2 : world float) : Prop :=
  fs w1 = fs w2 ∧ src_db w1 = src_db w2 ∧ trg_db w1 = trg_db w2
  ∧ done_db w1 = done_db w2
  ∧ translation_cache w1 = translation_cache w2.

(** Two runs that go side by side: from states related by [Rpre] the
    two programs end alike, with the same result or the same exception,
    in states related by [Rpost]. *)
Definition sim {A} (Rpre : world float → world float → Prop)
    (m1 m2 : M float A) (Rpost : world float → world float → Prop) : Prop :=
  ∀ w1 w2, Rpre w1 w2 →
    fst (m1 w1) = fst (m2 w2) ∧ Rpost (snd (m1 w1)) (snd (m2 w2)).

(** The program does not look at the log of the prompts nor at the
    printed lines. *)
Definition blind {A} (m : M float A) : Prop := sim same_data m m same_data.


(** *** Alignment of the stores *)

(** A table as the builders make it: rows of one width, not empty. *)
Definition table_ok (t : list (list float)) : Prop :=
  ∀ r, r ∈ t → r ≠ [] ∧ ∀ r', r' ∈ t → length r' = length r.

Definition ctx_aligned (d : ctx_db float) : Prop :=
  length (samples d) = length (embeddings d)
  ∧ length (text_chunks d) = length (text_embeddings d).

Definition ctx_ok (d : ctx_db float) : Prop :=
  ctx_aligned d ∧ table_ok (embeddings d) ∧ table_ok (text_embeddings d).

Definition hist_aligned (d : hist_db float) : Prop :=
  length (h_samples d) = length (h_embeddings d)
  ∧ length (h_filepaths d) = length (h_samples d)
  ∧ length (h_text_chunks d) = length (h_text_embeddings d).

Definition hist_ok (d : hist_db float) : Prop :=
  hist_aligned d ∧ table_ok (h_embeddings d).

(** The document that [_save_db] writes for a store. *)
Definition ctx_doc (d : ctx_db float) : json_doc float :=
  {| j_embeddings := Some (embeddings d);
     j_samples := Some (List.map to_json (samples d));
     j_text_embeddings := Some (text_embeddings d);
     j_text_chunks := Some (text_chunks d);
     j_filepaths := None |}.

(** The document that [_save_done_db] writes for the history. *)
Definition hist_doc (d : hist_db float) : json_doc float :=
  {| j_embeddings := Some (h_embeddings d);
     j_samples := Some (List.map to_json (h_samples d));
     j_text_embeddings := None;
     j_text_chunks := None;
     j_filepaths := Some (h_filepaths d) |}.

(** The three stores of a run. *)
Definition stores_ok (w : world float) : Prop :=
  ctx_ok (src_db w) ∧ ctx_ok (trg_db w) ∧ hist_ok (done_db w).

(** A sample as it comes back from its JSON form. *)
Definition as_loaded (i : item) : item := of_json (to_json i).

(** The file at [path] is a persisted store. *)
Definition persisted_ctx (path : list N) (w : world float) : Prop :=
  ∃ d, ctx_ok d ∧ fs w !! path = Some (File (Json (ctx_doc d))).

Definition persisted_hist (path : list N) (w : world float) : Prop :=
  ∃ d, hist_ok d ∧ fs w !! path = Some (File (Json (hist_doc d))).

(** The three files written next to an input. *)
Definition put_artifacts (input_path code comments : list N)
    (think : option (list N)) (f : gmap (list N) (node float))
    : gmap (list N) (node float) :=
  let base := fst (Path.splitext input_path) in
  let f := <[base ++ py ".autot" := File (Text code)]> f in
  let f := <[base ++ py ".comment" := File (Text comments)]> f in
  match think with
  | Some t =>
      if truthy t then <[base ++ py ".think" := File (Text t)]> f else f
  | None => f
  end.

(** The artifacts of a translation: extension and content. *)
Definition artifact_list (code comments : list N)
    (think : option (list N)) : list (list N * list N) :=
  [(py ".autot", code); (py ".comment", comments)]
    ++ match think with
       | Some t => if truthy t then [(py ".think", t)] else []
       | None => []
       end.

(** They stand next to the input. *)
Definition has_artifacts (input_path code comments : list N)
    (think : option (list N)) (f : gmap (list N) (node float)) : Prop :=
  ∀ ext content,
    (ext, content) ∈ artifact_list code comments think →
    f !! (fst (Path.splitext input_path) ++ ext)
    = Some (File (Text content)).

(** The three artifact paths can be written. *)
Definition artifacts_writable (can : list N → bool) (input_path : list N)
    (f : gmap (list N) (node float)) : Prop :=
  let base := fst (Path.splitext input_path) in
  ∀ ext, ext ∈ [py ".autot"; py ".comment"; py ".think"] →
    can (base ++ ext) = true ∧ f !! (base ++ ext) ≠ Some Dir.

End Logic.

(** ** A concrete run *)

Module Demo.
Import Str.

(** A response with a code block and a comments block. *)
Definition answer : list N :=
  py "```lisp" ++ [NL] ++ py "(first x)" ++ [NL] ++ py "```" ++ [NL]
    ++ py "```comments" ++ [NL] ++ py "car is first" ++ [NL] ++ py "```".

(** Services for the examples: vectors of three numbers, the content
    itself as its hash, two Lisp files under every input directory,
    and a backend and writable paths chosen by the example. *)
Definition services (reply : nat → res (option (list N)))
    (can : list N → bool) : env Z :=
  {| encode := fun _ => Ok [1%Z; 2%Z; 3%Z];
     generate := fun n _ => reply n;
     generate_stream := fun _ _ => ([Some (py "```lisp"); None; Some [NL];
                                    Some (py "(first x)"); Some [NL];
                                    Some (py "```")], None);
     md5 := fun s => s;
     html_text := fun s => Ok s;
     pdf_pages := fun s => Ok [s];
     HTML_SUPPORT := true;
     PDF_SUPPORT := true;
     glob := fun _ pattern =>
               if Str.eqb (Path.basename pattern) (py "*.lisp*")
               then [py "in/a.lisp"; py "in/b.lisp"] else [];
     can_write := can;
     json_dumps := fun _ => [];
     json_loads := fun _ => None;
     exn_str := fun e =>
                  match e with
                  | OSError p => py "cannot open " ++ p
                  | JSONDecodeError => py "not JSON"
                  | ValueError => py "bad value"
                  | ServiceError m => m
                  end;
     py_repr := fun _ => [];
     src_docs_path := py "src_docs.txt";
     trg_docs_path := py "trg_docs.txt" |}.

(** Two input files with the same content; no documentation. *)
Definition files : gmap (list N) (node Z) :=
  <[py "in" := Dir]>
    (<[py "in/a.lisp" := File (Text (py "(car x)"))]>
       (<[py "in/b.lisp" := File (Text (py "(car x)"))]> ∅)).

Definition start : world Z := init files.

(** Every path can be written; every path but the code artifact of
    [in/a.lisp]; every path but the listing. *)
Definition anywhere (p : list N) : bool := true.

Definition not_next_to_a (p : list N) : bool :=
  negb (Str.eqb p (py "in/a.autot")).

Definition but_the_listing (p : list N) : bool :=
  negb (Str.eqb p (py "pathlist.txt")).

(** The backend answers every call with [answer]; with the empty
    text. *)
Definition answers (n : nat) : res (option (list N)) := Ok (Some answer).

Definition silent (n : nat) : res (option (list N)) := Ok (Some []).

(** The services when everything works, and the whole script run with
    them on the two input files. *)
Definition working : env Z := services answers anywhere.

Definition run : res unit * world Z :=
  main working (py "src_db.json") (py "trg_db.json") (py "in") false start.

(** The services when the code artifact of [in/a.lisp] cannot be
    written, and the two requests made one after the other: first
    [in/a.lisp], then [in/b.lisp], which has the same content. *)
Definition failing : env Z := services answers not_next_to_a.

Definition first_request : res (option (list N) * list N) * world Z :=
  translate_file failing (py "in/a.lisp") false start.

Definition second_request : res (option (list N) * list N) * world Z :=
  translate_file failing (py "in/b.lisp") false (snd first_request).

(** The same two requests when everything works. *)
Definition good_first : res (option (list N) * list N) * world Z :=
  translate_file working (py "in/a.lisp") false start.

Definition good_second : res (option (list N) * list N) * world Z :=
  translate_file working (py "in/b.lisp") true (snd good_first).

(** A store with one pair, as the builder leaves it, and what loading
    gives after it has been saved. *)
Definition store : ctx_db Z :=
  {| embeddings := [[1%Z; 2%Z; 3%Z]];
     samples := [ITuple [py "(f)"; py "ctx"]];
     text_embeddings := [[1%Z; 2%Z; 3%Z]];
     text_chunks := [py "ctx"] |}.


Definition store_of_lists : ctx_db Z :=
  {| embeddings := [[1%Z; 2%Z; 3%Z]];
     samples := [IList [py "(f)"; py "ctx"]];
     text_embeddings := [[1%Z; 2%Z; 3%Z]];
     text_chunks := [py "ctx"] |}.

(** A state whose history holds one translation. *)
Definition with_history : world Z :=
  set_done_db
    {| h_embeddings := [[1%Z; 2%Z; 3%Z]];
       h_samples := [IStr (py "(car x)")];
       h_text_embeddings := [];
       h_text_chunks := [];
       h_filepaths := [py "in/a.lisp"] |} start.



(** The services when the backend answers with the empty text. *)
Definition mute : env Z := services silent anywhere.

(** The prompt for [(car x)] while the three stores are empty. *)
Definition prompt : list N :=
  overall_tmpl (py "None") (py "None") (py "None") (py "(car x)").

End Demo.

(** ** The ledger *)

Section Ledger.

Context {float : Type} (E : env float).

(** The characters of the ledger file; none when it cannot be
    read. *)
Definition ledger_raw (w : world float) : list N :=
  match fs w !! processed_files_txt with
  | Some (File (Text s)) => s
  | Some (File (Json d)) => json_dumps E d
  | _ => []
  end.

(** The state when a file is about to be translated, and after its
    path has been appended to the ledger. *)
Definition announced (path : list N) (w : world float) : world float :=
  set_stdout
    (stdout w ++ [[Str.NL] ++ Str.py "Translating: " ++ path ++ [Str.NL]])
    w.

Definition ledgered (path : list N) (w : world float) : world float :=
  let base := fst (Path.splitext path) in
  set_fs
    (<[processed_files_txt
       := File (Text (ledger_raw w ++ path ++ [Str.NL]))]> (fs w))
    (set_stdout
       (stdout w
          ++ [Str.py "Successfully translated to: " ++ base
                ++ Str.py ".autot" ++ [Str.NL];
              Str.py "Comments saved to: " ++ base ++ Str.py ".comment"
                ++ [Str.NL];
              Str.py "Think saved to: " ++ base
                ++ Str.py ".think (if provided)" ++ [Str.NL]])
       w).

End Ledger.

(** The exceptions that the orchestrator lets through: the listing or
    the ledger cannot be opened. *)
Definition ledger_error (e : exn) : Prop :=
  e = OSError (Str.py "pathlist.txt")
  ∨ e = OSError (Str.py "processed_files.txt").

(** ** Invariants that a step cannot see *)

Section Frames.

Context {float : Type}.

(** [I] does not depend on the files, on the printed lines, on the
    log of the prompts, on the history store. *)
Definition ignores_fs (I : world float → Prop) : Prop :=
  ∀ w f, I w → I (set_fs f w).

Definition ignores_stdout (I : world float → Prop) : Prop :=
  ∀ w o, I w → I (set_stdout o w).

Definition ignores_calls (I : world float → Prop) : Prop :=
  ∀ w c, I w → I (set_calls c w).

Definition ignores_done_db (I : world float → Prop) : Prop :=
  ∀ w d, I w → I (set_done_db d w).

(** [I] does not depend on the file of the history store. *)
Definition ignores_done_file (I : world float → Prop) : Prop :=
  ∀ w c, I w → I (set_fs (<[py "done_db.json" := File c]> (fs w)) w).

End Frames.

(** [I] does not depend on the translation cache. *)
Definition ignores_cache {float : Type} (I : world float → Prop) : Prop :=
  ∀ w c, I w → I (set_cache c w).

(** A normalised text: no semicolon, no whitespace at its ends, and
    every whitespace a single space between two other characters. *)
Definition normalised (s : list N) : Prop :=
  Forall (fun c => c ≠ 59) s ∧ Norm.spaced true s = true ∧ rstrip s = s.

(** A text made of whitespace only. *)
Definition blank (s : list N) : Prop := Forall (fun c => isspace c = true) s.

(** [g] is a contiguous part of [s]. *)
Definition part_of (g s : list N) : Prop := ∃ pre post, s = pre ++ g ++ post.

(** ** Programs that only print *)

(** The state [w] after [lines] have been printed. *)
Definition printed {float : Type} (lines : list (list N)) (w : world float)
    : world float :=
  set_stdout (stdout w ++ lines) w.

(** Whatever it returns or raises, the program leaves the state as it
    was but for the lines it has printed. *)
Definition only_prints {float : Type} {A : Type} (m : M float A) : Prop :=
  ∀ w, ∃ lines, snd (m w) = printed lines w.

(** ** The content of a store after a build *)

(** The state in which the store [r] is [d]. *)
Definition with_store {float : Type} (r : db_ref) (d : ctx_db float)
    (w : world float) : world float :=
  match r with Src => set_src_db d w | Trg => set_trg_db d w end.

(** The reading of the documentation path by the builder: a directory
    is walked, any other path is read as one file. *)
Definition read_docs {float : Type} (E : env float) (doc_path : list N)
    : M float (list N) :=
  bind (get (isdir doc_path))
    (fun is_dir =>
       if is_dir then _process_directory E doc_path
       else _extract_text_from_file E doc_path).

(** The store that holds a segmentation: the pairs as samples with the
    vectors of their codes, and, as text chunks with their vectors, the
    contexts of the pairs followed by the standalone chunks. *)
Definition store_of {float : Type} (vec : list N → list float)
    (seg : list (list N * list N) * list (list N)) : ctx_db float :=
  {| embeddings := List.map (fun p => vec (fst p)) (fst seg);
     samples := List.map (fun p => ITuple [fst p; snd p]) (fst seg);
     text_embeddings := List.map vec (List.map snd (fst seg) ++ snd seg);
     text_chunks := List.map snd (fst seg) ++ snd seg |}.

(** The rows of a table have the width of the encoder. *)
Definition fits {float : Type} (vec : list N → list float)
    (t : list (list float)) : Prop :=
  Forall (fun row => length row = length (vec [])) t.

(** A store that grows by pairs, then by chunks. *)
Definition grow {float : Type} (vec : list N → list float)
    (d : ctx_db float) (seg : list (list N * list N) * list (list N))
    : ctx_db float :=
  {| embeddings := embeddings d ++ embeddings (store_of vec seg);
     samples := samples d ++ samples (store_of vec seg);
     text_embeddings := text_embeddings d ++ text_embeddings (store_of vec seg);
     text_chunks := text_chunks d ++ text_chunks (store_of vec seg) |}.

(** A state with a documentation file for the source store. *)
Definition documented : world Z :=
  set_fs
    (<[py "src_docs.txt" := File (Text Examples.segmenter_input_by_line)]>
       Demo.files)
    Demo.start.

(** ** The history after one more translation *)

(** The history [d] with one more entry: the table [t], which holds
    one more row, the normalised source and the path of the file. *)
Definition recorded {float : Type} (d : hist_db float)
    (t : list (list float)) (filepath source_code : list N)
    : hist_db float :=
  {| h_embeddings := t;
     h_samples := h_samples d ++ [IStr (_preprocess_code source_code)];
     h_text_embeddings := h_text_embeddings d;
     h_text_chunks := h_text_chunks d;
     h_filepaths := h_filepaths d ++ [filepath] |}.

(** Two states that differ at most by the history, its file and the
    printed lines. *)
Definition same_but_history {float : Type} (w w' : world float) : Prop :=
  src_db w' = src_db w ∧ trg_db w' = trg_db w
  ∧ translation_cache w' = translation_cache w ∧ calls w' = calls w.

(** ** Store files *)

(** The file of a context store, or of the history, is absent or holds
    an aligned store as the program persists it. *)
Definition ctx_file_ok {float : Type} (path : list N) (w : world float)
    : Prop :=
  fs w !! path = None ∨ persisted_ctx path w.

Definition hist_file_ok {float : Type} (w : world float) : Prop :=
  fs w !! done_db_json = None ∨ persisted_hist done_db_json w.

(** The path of a store holds no text of unknown content: it holds
    nothing, a directory, or a document of a store ([json_doc]).  A
    text can be a JSON document of another shape, for instance an
    object whose [samples] entry is a number: [_load_db] returns it
    unchecked, [prepare_context_dbs] takes it for the store, and the
    [len] of its status lines raises [TypeError] outside every [try].
    Such a document has no counterpart in [json_doc], so what is said
    of the preparation of the stores is said under this condition. *)
Definition no_foreign_document {float : Type} (path : list N)
    (w : world float) : Prop :=
  match fs w !! path with
  | Some (File (Text _)) => False
  | _ => True
  end.

(** [I] does not depend on the store [r]. *)
Definition ignores_store {float : Type} (r : db_ref)
    (I : world float → Prop) : Prop :=
  ∀ w d, I w → I (with_store r d w).

(** A sample that is not a tuple: a string, or a list as a loaded
    pair is. *)
Definition no_tuple (i : item) : Prop := ∀ l, i ≠ ITuple l.

(** ** What a translation request may touch *)

(** The paths that a request for [input_path] may write: the three
    artifacts next to the input and the file of the history. *)
Definition may_write (input_path q : list N) : Prop :=
  q = done_db_json
  ∨ ∃ ext, ext ∈ [py ".autot"; py ".comment"; py ".think"]
           ∧ q = fst (Path.splitext input_path) ++ ext.

(** The line that reports a failed request. *)
Definition failure_line {float : Type} (E : env float)
    (input_path : list N) (e : exn) : list N :=
  py "Failed to translate " ++ input_path ++ py ": " ++ exn_str E e ++ [NL].

(** A sample that the prompt builder cannot read as a pair. *)
Definition unreadable (i : item) : Prop := unpack2 i = Raise ValueError.

(** The fragments of a stream that are echoed: those that are not
    empty. *)
Definition echoed (chunks : list (option (list N))) : list (list N) :=
  List.filter truthy (List.map (default []) chunks).

(** ** Paths in the ledger *)

(** A path that a line of the ledger can hold: it is not empty, has no
    whitespace at its ends and holds no line break. *)
Definition ledger_safe (path : list N) : Prop :=
  path ≠ [] ∧ strip path = path ∧ Forall (fun c => c ≠ 10 ∧ c ≠ 13) path.

(** A ledger text that is empty or ends with a newline. *)
Definition ends_lines (text : list N) : Prop :=
  text = [] ∨ ∃ t, text = t ++ [NL].

(** ** A batch *)

(** The files that a batch over [input_dir] discovers, in discovery
    order, and the listing it writes: one path per line. *)
Definition discovered {float : Type} (E : env float) (input_dir : list N)
    (w : world float) : list (list N) :=
  glob E (fs w) (Path.join input_dir (py "**/*.lisp*")).

Definition listing (paths : list (list N)) : list N :=
  List.concat (List.map (fun p => p ++ [NL]) paths).

(** The log of the backend holds at most [n] calls more than [c]. *)
Definition at_most_more {float : Type} (n : nat) (c : list (list N * bool))
    (w : world float) : Prop :=
  ∃ extra, calls w = c ++ extra ∧ (length extra ≤ n)%nat.

(** A state whose ledger holds the two input files. *)
Definition all_recorded : world Z :=
  set_fs
    (<[processed_files_txt
       := File (Text (listing [py "in/a.lisp"; py "in/b.lisp"]))]>
       Demo.files)
    Demo.start.

(** ** A request that goes through *)

(** What the parser makes of a response: code, comments, reasoning. *)
Definition parsed (out : list N) : list N * list N * option (list N) :=
  (_extract_code_block out, _extract_comments_block out,
   _extract_think_block out).

(** The store as it comes back from its file: every sample as it is
    loaded. *)
Definition loaded_store {float : Type} (d : ctx_db float) : ctx_db float :=
  {| embeddings := embeddings d;
     samples := List.map as_loaded (samples d);
     text_embeddings := text_embeddings d;
     text_chunks := text_chunks d |}.

(** * Properties *)

(** ** Normalisation of source code *)

Section Normalisation.
Import Str Norm.

Lemma scan_comment (s : list N) : ∀ b,
  flat [] (Re.scan Re.m_comment 0 b s) = uncomment false s
  ∧ flat [] (Re.scan Re.m_comment (Re.line_length s) b s)
    = uncomment true s.
Proof.
  induction s as [|a s IH]; intros b; [now split|].
  destruct (IH false) as [IH0 IH1]. split.
  - cbn [Re.scan Re.m_comment uncomment].
    destruct (a =? 59); cbn; [exact IH1 | now rewrite <- IH0].
  - cbn [Re.line_length uncomment]. unfold NL.
    destruct (a =? 10) eqn:Ha.
    + apply N.eqb_eq in Ha. subst a. cbn. now rewrite <- IH0.
    + cbn [Re.scan]. exact IH1.
Qed.

Lemma scan_spaces (s : list N) : ∀ b,
  flat [SP] (Re.scan Re.m_spaces 0 b s) = squeeze false s
  ∧ flat [SP] (Re.scan Re.m_spaces (Re.space_length s) b s)
    = squeeze true s.
Proof.
  induction s as [|a s IH]; intros b; [now split|].
  destruct (IH false) as [IH0 IH1]. split.
  - cbn [Re.scan squeeze]. unfold Re.m_spaces.
    cbn [Re.space_length]. destruct (isspace a); cbn.
    + now rewrite <- IH1.
    + now rewrite <- IH0.
  - cbn [Re.space_length squeeze]. destruct (isspace a) eqn:Ha.
    + cbn [Re.scan]. exact IH1.
    + cbn [Re.scan]. unfold Re.m_spaces. cbn [Re.space_length].
      rewrite Ha. cbn. now rewrite <- IH0.
Qed.

(** The normalisation, as two passes and a trim. *)
Lemma preprocess_passes (s : list N) :
  _preprocess_code s = strip (squeeze false (uncomment false s)).
Proof.
  unfold _preprocess_code, Re.sub.
  change (List.concat (List.map ?f ?ts)) with (flat [SP] ts) at 1.
  rewrite (proj1 (scan_spaces _ true)).
  change (List.concat (List.map ?f ?ts)) with (flat (A := unit) [] ts).
  now rewrite (proj1 (scan_comment _ true)).
Qed.

Lemma uncomment_clean (s : list N) : ∀ b,
  Forall (fun c => c ≠ 59) (uncomment b s).
Proof.
  induction s as [|a s IH]; intros b; cbn; [constructor|].
  destruct b.
  - unfold NL. destruct (a =? 10) eqn:Ha; [|apply IH].
    apply N.eqb_eq in Ha. subst a. constructor; [easy | apply IH].
  - destruct (a =? 59) eqn:Ha; [apply IH|].
    apply N.eqb_neq in Ha. constructor; [easy | apply IH].
Qed.

Lemma uncomment_id (s : list N) :
  Forall (fun c => c ≠ 59) s → uncomment false s = s.
Proof.
  induction 1 as [|a s Ha _ IH]; cbn; [easy|].
  apply N.eqb_neq in Ha. rewrite Ha. now rewrite IH.
Qed.

Lemma squeeze_clean (s : list N) : ∀ b,
  Forall (fun c => c ≠ 59) s → Forall (fun c => c ≠ 59) (squeeze b s).
Proof.
  induction s as [|a s IH]; intros b H; cbn; [constructor|].
  inversion H; subst.
  destruct (isspace a); [destruct b|]; try constructor; auto; easy.
Qed.

Lemma lstrip_clean (P : N → Prop) (s : list N) :
  Forall P s → Forall P (lstrip s).
Proof.
  induction 1 as [|a s Ha Hs IH]; cbn; [constructor|].
  destruct (isspace a); [exact IH | now constructor].
Qed.

Lemma rstrip_clean (P : N → Prop) (s : list N) :
  Forall P s → Forall P (rstrip s).
Proof.
  induction 1 as [|a s Ha Hs IH]; cbn; [constructor|].
  destruct (rstrip s) eqn:Hr.
  - destruct (isspace a); [constructor | now repeat constructor].
  - now constructor.
Qed.

Lemma squeeze_spaced (s : list N) : ∀ b, spaced b (squeeze b s) = true.
Proof.
  induction s as [|a s IH]; intros b; cbn; [easy|].
  destruct (isspace a) eqn:Ha.
  - destruct b; [apply IH|]. cbn. now rewrite IH.
  - cbn. rewrite Ha. apply IH.
Qed.

Lemma spaced_weaken (s : list N) :
  spaced true s = true → spaced false s = true.
Proof.
  destruct s as [|a s]; cbn; [easy|].
  destruct (isspace a); [|easy]. now rewrite andb_false_r.
Qed.

Lemma lstrip_id (s : list N) : spaced true s = true → lstrip s = s.
Proof.
  destruct s as [|a s]; cbn; [easy|].
  destruct (isspace a); [|easy]. now rewrite andb_false_r.
Qed.

Lemma lstrip_spaced (s : list N) :
  spaced false s = true → spaced true (lstrip s) = true.
Proof.
  destruct s as [|a s]; cbn; [easy|].
  destruct (isspace a) eqn:Ha.
  - intros H. apply andb_true_iff in H as [_ H].
    now rewrite (lstrip_id _ H).
  - cbn. now rewrite Ha.
Qed.

Lemma rstrip_spaced (s : list N) : ∀ b,
  spaced b s = true → spaced b (rstrip s) = true.
Proof.
  induction s as [|a s IH]; intros b; cbn; [easy|].
  destruct (isspace a) eqn:Ha.
  - intros H. apply andb_true_iff in H as [H1 H2].
    specialize (IH true H2). destruct (rstrip s) eqn:Hr.
    + easy.
    + cbn [spaced]. rewrite Ha, H1. exact IH.
  - intros H. specialize (IH false H). destruct (rstrip s) eqn:Hr.
    + cbn. now rewrite Ha.
    + cbn [spaced]. now rewrite Ha.
Qed.

Lemma rstrip_idem (s : list N) : rstrip (rstrip s) = rstrip s.
Proof.
  induction s as [|a s IH]; cbn; [easy|].
  destruct (rstrip s) as [|c r] eqn:Hr.
  - destruct (isspace a) eqn:Ha; cbn; [easy | now rewrite Ha].
  - cbn [rstrip] in *. rewrite IH. now destruct (rstrip r); destruct (isspace c).
Qed.

Lemma squeeze_id (s : list N) : ∀ b, spaced b s = true → squeeze b s = s.
Proof.
  induction s as [|a s IH]; intros b; cbn; [easy|].
  destruct (isspace a).
  - intros H. apply andb_true_iff in H as [H1 H2].
    apply andb_true_iff in H1 as [H0 H1].
    apply N.eqb_eq in H0. subst a. destruct b; [easy|].
    now rewrite IH.
  - intros H. now rewrite IH.
Qed.

End Normalisation.

(** C10.  Source normalisation is idempotent: for every string,
    stripping the line comments that start with a semicolon, collapsing
    every run of whitespace to one space and trimming, done twice, gives
    what doing it once gives. *)
Theorem preprocess_code_idempotent (s : list N) :
  _preprocess_code (_preprocess_code s) = _preprocess_code s.
Proof.
  rewrite (preprocess_passes (_preprocess_code s)).
  rewrite (preprocess_passes s).
  set (t := Norm.squeeze false (Norm.uncomment false s)).
  assert (Hclean : Forall (fun c => c ≠ 59) (Str.strip t)).
  { apply rstrip_clean, lstrip_clean, squeeze_clean, uncomment_clean. }
  assert (Hsp : Norm.spaced true (Str.strip t) = true).
  { apply rstrip_spaced, lstrip_spaced, squeeze_spaced. }
  rewrite (uncomment_id _ Hclean).
  rewrite (squeeze_id _ _ (spaced_weaken _ Hsp)).
  unfold Str.strip at 1. rewrite (lstrip_id _ Hsp).
  apply rstrip_idem.
Qed.

(** ** Fenced and tagged blocks *)

Section Blocks.
Import Str Block.

Lemma lit_ci_matches (pat o rest : list N) :
  matches pat o → Re.lit_ci pat (o ++ rest) = Some rest.
Proof.
  induction 1 as [|p c pat o Hc _ IH]; cbn; [easy|]. now rewrite Hc.
Qed.

Lemma lit_ci_split (pat : list N) : ∀ s rest,
  Re.lit_ci pat s = Some rest → ∃ o, s = o ++ rest ∧ matches pat o.
Proof.
  induction pat as [|p pat IH]; intros s rest; cbn.
  - intros [= ->]. exists []. split; [easy | constructor].
  - destruct s as [|c s]; [easy|].
    destruct (Re.ci p c) eqn:Hc; [|easy].
    intros H. apply IH in H as (o & -> & Hm).
    exists (c :: o). split; [easy | now constructor].
Qed.

Lemma lazy_until_split (close : list N) : ∀ s g,
  Re.lazy_until close s = Some g →
  ∃ c post, s = g ++ c ++ post ∧ matches close c.
Proof.
  induction s as [|a s IH]; intros g; cbn.
  - destruct (Re.lit_ci close []) eqn:Hl; [|easy].
    intros [= <-]. apply lit_ci_split in Hl as (o & Ho & Hm).
    exists o, l. now split.
  - destruct (Re.lit_ci close (a :: s)) eqn:Hl.
    + intros [= <-]. apply lit_ci_split in Hl as (o & Ho & Hm).
      exists o, l. now split.
    + destruct (Re.lazy_until close s) as [g'|] eqn:Hg; [|easy].
      cbn. intros [= <-].
      destruct (IH g' eq_refl) as (c & post & -> & Hm).
      exists c, post. now split.
Qed.

Lemma lazy_until_found (close c post : list N) : ∀ body,
  matches close c → is_Some (Re.lazy_until close (body ++ c ++ post)).
Proof.
  intros body Hm. induction body as [|a body IH].
  - cbn [app]. destruct (c ++ post) eqn:Hs; cbn;
      rewrite <- Hs, (lit_ci_matches _ _ _ Hm); eauto.
  - cbn. destruct (Re.lit_ci close (a :: body ++ c ++ post)); [eauto|].
    destruct IH as [g ->]. cbn. eauto.
Qed.

(** What [re.search] finds lies between an opening and a closing. *)
Lemma search_sound (open close : list N) : ∀ s g,
  Re.search (Re.block open close) s = Some g → has_block open close s.
Proof.
  induction s as [|a s IH]; intros g; cbn.
  - unfold Re.block. destruct (Re.lit_ci open []) as [body|] eqn:Ho;
      [|easy].
    destruct (Re.lazy_until close body) eqn:Hb; [|easy]. intros _.
    apply lit_ci_split in Ho as (o & Hs & Hm).
    apply lazy_until_split in Hb as (c & post & -> & Hc).
    exists [], o, l, c, post. now split.
  - destruct (Re.block open close (a :: s)) as [g'|] eqn:Hblk.
    + intros _. unfold Re.block in Hblk.
      destruct (Re.lit_ci open (a :: s)) as [body|] eqn:Ho; [|easy].
      apply lit_ci_split in Ho as (o & Hs & Hm).
      apply lazy_until_split in Hblk as (c & post & -> & Hc).
      exists [], o, g', c, post. now split.
    + intros H. apply IH in H as (pre & o & body & c & post & -> & Hm).
      exists (a :: pre), o, body, c, post. now split.
Qed.

(** Where an opening is later followed by a closing, [re.search]
    finds a block. *)
Lemma search_complete (open close s : list N) :
  has_block open close s → is_Some (Re.search (Re.block open close) s).
Proof.
  intros (pre & o & body & c & post & -> & Ho & Hc).
  induction pre as [|a pre IH].
  - cbn [app].
    assert (Hb : is_Some (Re.block open close (o ++ body ++ c ++ post))).
    { unfold Re.block. rewrite (lit_ci_matches _ _ _ Ho).
      now apply lazy_until_found. }
    destruct Hb as [g Hg].
    destruct (o ++ body ++ c ++ post); cbn; rewrite Hg; eauto.
  - cbn. destruct (Re.block open close (a :: pre ++ o ++ body ++ c ++ post));
      [eauto | exact IH].
Qed.

Lemma search_absent (open close s : list N) :
  ¬ has_block open close s → Re.search (Re.block open close) s = None.
Proof.
  intros H. destruct (Re.search _ s) eqn:Hs; [|easy].
  destruct H. eapply search_sound, Hs.
Qed.

Lemma absent_search (open close s : list N) :
  Re.search (Re.block open close) s = None → ¬ has_block open close s.
Proof.
  intros Hs H. apply (search_complete open close) in H as [g Hg].
  congruence.
Qed.

Lemma search_no_opening (open close : list N) : ∀ s,
  occurs open s = false → Re.search (Re.block open close) s = None.
Proof.
  induction s as [|a s IH]; cbn; unfold Re.block.
  - now destruct (Re.lit_ci open []).
  - destruct (Re.lit_ci open (a :: s)); [easy | exact IH].
Qed.

(** A literal that fails on [z] fails on [z] followed by [t], when
    [t] cannot go on where [z] stopped. *)
Lemma lit_ci_extend (pat : list N) : ∀ z t,
  Re.lit_ci pat z = None →
  (∀ y c, y ∈ pat → head t = Some c → Re.ci y c = false) →
  Re.lit_ci pat (z ++ t) = None.
Proof.
  induction pat as [|y pat IH]; intros z t; cbn; [easy|].
  intros Hz Ht. destruct z as [|a z]; cbn.
  - destruct t as [|c t]; [easy|].
    rewrite (Ht y c); [easy | constructor | easy].
  - destruct (Re.ci y a); [|easy]. apply IH; [easy|].
    intros y' c Hy. apply Ht. now constructor.
Qed.

(** The same when [z] ends with a character that only the last place
    of the literal accepts. *)
Lemma lit_ci_extend_last (pat : list N) : ∀ z l t,
  Re.lit_ci pat (z ++ [l]) = None →
  (∀ y, y ∈ removelast pat → Re.ci y l = false) →
  Re.lit_ci pat (z ++ [l] ++ t) = None.
Proof.
  induction pat as [|y pat IH]; intros z l t; [easy|].
  intros Hz Hl. destruct z as [|a z].
  - cbn in *. destruct (Re.ci y l) eqn:Hy; [|easy].
    destruct pat as [|y' pat]; [easy|].
    rewrite Hl in Hy; [easy | constructor].
  - cbn in *. destruct (Re.ci y a); [|easy].
    destruct pat as [|y' pat]; [easy|].
    apply IH; [easy|]. intros y0 Hy0. apply Hl. now constructor.
Qed.

(** An unbordered literal that fails inside [z] does not match
    across the end of [z] into a following occurrence of itself. *)
Lemma lit_ci_no_overlap (pat o rest : list N) (a : N) (z : list N) :
  unbordered pat → matches pat o → Re.lit_ci pat (a :: z) = None →
  Re.lit_ci pat (a :: z ++ o ++ rest) = None.
Proof.
  intros Hu Ho Ha. destruct pat as [|x pat]; [easy|].
  inversion Ho as [|? c1 ? c' Hx Hc']; subst.
  cbn in Ha |- *. destruct (Re.ci x a); [|easy].
  apply lit_ci_extend; [easy|]. intros y c0 Hy [= <-].
  now apply (Hu c1 y).
Qed.

(** The shortest group ends at the first closing. *)
Lemma lazy_until_first (close c post : list N) : ∀ z,
  unbordered close → matches close c → occurs close z = false →
  Re.lazy_until close (z ++ c ++ post) = Some z.
Proof.
  intros z Hu Hc. induction z as [|a z IH]; intros Hz.
  - cbn [app]. destruct (c ++ post) eqn:Hs; cbn;
      now rewrite <- Hs, (lit_ci_matches _ _ _ Hc).
  - cbn in Hz. destruct (Re.lit_ci close (a :: z)) eqn:Ha; [easy|].
    cbn [app Re.lazy_until].
    rewrite (lit_ci_no_overlap _ _ _ _ _ Hu Hc Ha).
    now rewrite (IH Hz).
Qed.

(** The search passes over a stretch without opening. *)
Lemma search_skip (open close o rest : list N) : ∀ pre,
  unbordered open → matches open o → occurs open pre = false →
  Re.search (Re.block open close) (pre ++ o ++ rest)
  = Re.search (Re.block open close) (o ++ rest).
Proof.
  intros pre Hu Ho. induction pre as [|a pre IH]; intros Hp; [easy|].
  cbn in Hp. destruct (Re.lit_ci open (a :: pre)) eqn:Ha; [easy|].
  cbn [app Re.search]. unfold Re.block at 1.
  rewrite (lit_ci_no_overlap _ _ _ _ _ Hu Ho Ha). now apply IH.
Qed.

(** The same for a stretch whose last character only the last place
    of the opening accepts. *)
Lemma search_skip_last (open close : list N) (l : N) (t : list N) :
  (∀ y, y ∈ removelast open → Re.ci y l = false) →
  ∀ z, occurs open (z ++ [l]) = false →
  Re.search (Re.block open close) (z ++ [l] ++ t)
  = Re.search (Re.block open close) t.
Proof.
  intros Hl z. induction z as [|a z IH]; intros Hz.
  - cbn in Hz. destruct (Re.lit_ci open [l]) eqn:Ha; [easy|].
    pose proof (lit_ci_extend_last open [] l t Ha Hl) as Hn.
    cbn [app] in Hn |- *. cbn [Re.search]. unfold Re.block at 1.
    now rewrite Hn.
  - cbn [app] in Hz. cbn [occurs] in Hz.
    destruct (Re.lit_ci open (a :: z ++ [l])) eqn:Ha; [easy|].
    pose proof (lit_ci_extend_last open (a :: z) l t Ha Hl) as Hn.
    cbn [app] in Hn |- *. cbn [Re.search]. unfold Re.block at 1.
    rewrite Hn. now apply IH.
Qed.

Lemma search_here (open close s g : list N) :
  Re.block open close s = Some g →
  Re.search (Re.block open close) s = Some g.
Proof. intros H. destruct s; cbn; now rewrite H. Qed.

Lemma ci_refl (p : N) : Re.ci p p = true.
Proof. unfold Re.ci. now rewrite N.eqb_refl. Qed.

Lemma matches_refl (pat : list N) : matches pat pat.
Proof. induction pat; constructor; [apply ci_refl | easy]. Qed.

(** A character that is not a letter only matches itself. *)
Lemma ci_exact (p c : N) :
  (p <? 97) = true → Re.ci p c = true → c = p.
Proof.
  unfold Re.ci. intros Hp H.
  apply N.ltb_lt in Hp.
  destruct (c =? p) eqn:Hc; [now apply N.eqb_eq in Hc|].
  assert (H1 : (97 <=? p) = false) by (apply N.leb_gt; lia).
  assert (H2 : (p =? 105) = false) by (apply N.eqb_neq; lia).
  assert (H3 : (p =? 115) = false) by (apply N.eqb_neq; lia).
  assert (H4 : (p =? 107) = false) by (apply N.eqb_neq; lia).
  rewrite H1, H2, H3, H4 in H. easy.
Qed.

Lemma unbordered_exact (x : N) (pat : list N) :
  (x <? 97) = true →
  forallb (fun y => negb (Re.ci y x)) pat = true →
  unbordered (x :: pat).
Proof.
  intros Hx Hp c y Hc Hy. apply (ci_exact _ _ Hx) in Hc. subst c.
  rewrite forallb_forall in Hp. apply list_elem_of_In in Hy.
  apply Hp in Hy. now destruct (Re.ci y x).
Qed.

Lemma fence_close_unbordered : unbordered Re.fence_close.
Proof. now apply unbordered_exact. Qed.

Lemma think_open_unbordered : unbordered Re.think_open.
Proof. now apply unbordered_exact. Qed.

Lemma think_close_unbordered : unbordered Re.think_close.
Proof. now apply unbordered_exact. Qed.

Lemma refutes_lit_ci (pat : list N) : ∀ z t,
  refutes pat z = true → Re.lit_ci pat (z ++ t) = None.
Proof.
  induction pat as [|x pat IH]; intros z t; [easy|].
  destruct z as [|c z]; [easy|]. cbn.
  destruct (Re.ci x c); [apply IH | easy].
Qed.

(** The search passes over a stretch where the opening fails at
    every place. *)
Lemma search_skip_refuted (open close t : list N) : ∀ pre,
  all_refuted open pre = true →
  Re.search (Re.block open close) (pre ++ t)
  = Re.search (Re.block open close) t.
Proof.
  induction pre as [|a pre IH]; [easy|]. cbn [all_refuted].
  intros H. apply andb_true_iff in H as [H1 H2].
  pose proof (refutes_lit_ci open (a :: pre) t H1) as Hn.
  cbn [app] in Hn |- *. cbn [Re.search]. unfold Re.block at 1.
  rewrite Hn. now apply IH.
Qed.

(** The comments block is searched past a code block that holds no
    comments opening. *)
Lemma comments_after_code (X t : list N) :
  occurs Re.comments_open (X ++ [NL]) = false →
  Re.search (Re.block Re.comments_open Re.fence_close)
    (Re.lisp_open ++ X ++ Re.fence_close ++ [NL] ++ t)
  = Re.search (Re.block Re.comments_open Re.fence_close) t.
Proof.
  intros HX.
  rewrite (search_skip_refuted _ _ _ Re.lisp_open); [|easy].
  change (X ++ Re.fence_close ++ [NL] ++ t)
    with (X ++ [NL] ++ (py "```" ++ [NL]) ++ t).
  rewrite search_skip_last; [| |easy].
  - now apply search_skip_refuted.
  - assert (H : forallb (fun y => negb (Re.ci y NL))
                  (removelast Re.comments_open) = true) by easy.
    rewrite forallb_forall in H.
    intros y Hy. apply list_elem_of_In, H in Hy.
    now destruct (Re.ci y NL).
Qed.

End Blocks.

(** ** Output parsing *)

(** C4, as stated, fails: with the label [code] no code block is found
    and the whole response is the code; a group or a response with
    whitespace around it comes back trimmed. *)
Lemma output_parsing_counterexample :
  _extract_code_block Examples.response_code_label ≠ Str.py "X"
  ∧ _extract_code_block
      (Block.fenced_response (Str.py " X ") (Str.py "Y")) ≠ Str.py " X "
  ∧ _extract_think_block (Str.py "<think> Z </think>")
      ≠ Some (Str.py " Z ")
  ∧ _extract_code_block (Str.py " x ") ≠ Str.py " x ".
Proof. repeat split; vm_compute; discriminate. Qed.

(** C4, amended.  For the response made of a fenced block labelled
    [lisp] holding X and a fenced block labelled [comments] holding Y,
    where X and Y have no whitespace at their ends, hold no line that
    starts with a fence, X holds no comments opening and the response
    holds no think opening, the parser yields code X, comments Y and no
    reasoning.  A response without a fenced comments block yields the
    placeholder.  In a response where Z stands between the first
    [<think>] and the first [</think>] after it, the reasoning is Z
    without the whitespace at its ends.  A response without a fenced
    code block yields, as the code, the whole response without the
    whitespace at its ends. *)
Theorem output_parsing :
  (∀ X Y : list N,
     Str.strip X = X → Str.strip Y = Y →
     Block.occurs Re.fence_close X = false →
     Block.occurs Re.fence_close Y = false →
     Block.occurs Re.comments_open (X ++ [Str.NL]) = false →
     Block.occurs Re.think_open (Block.fenced_response X Y) = false →
     Block.occurs Re.think_fence_open (Block.fenced_response X Y) = false →
     _extract_code_block (Block.fenced_response X Y) = X
     ∧ _extract_comments_block (Block.fenced_response X Y) = Y
     ∧ _extract_think_block (Block.fenced_response X Y) = None)
  ∧ (∀ r : list N,
       ¬ Block.has_block Re.comments_open Re.fence_close r →
       _extract_comments_block r = no_explanations)
  ∧ (∀ pre Z post : list N,
       Block.occurs Re.think_open pre = false →
       Block.occurs Re.think_close Z = false →
       _extract_think_block
         (pre ++ Re.think_open ++ Z ++ Re.think_close ++ post)
       = Some (Str.strip Z))
  ∧ (∀ r : list N,
       ¬ Block.has_block Re.lisp_open Re.fence_close r →
       _extract_code_block r = Str.strip r).
Proof.
  split; [|split; [|split]].
  - intros X Y HX HY HXf HYf HXc Ht Htf. split; [|split].
    + unfold _extract_code_block, Block.fenced_response.
      rewrite (search_here _ _ _ X); [now rewrite HX|].
      unfold Re.block.
      rewrite (lit_ci_matches _ _ _ (matches_refl Re.lisp_open)).
      apply lazy_until_first;
        [apply fence_close_unbordered | apply matches_refl | easy].
    + unfold _extract_comments_block, Block.fenced_response.
      rewrite (comments_after_code _ _ HXc).
      rewrite (search_here _ _ _ Y); [now rewrite HY|].
      unfold Re.block.
      rewrite (lit_ci_matches _ _ _ (matches_refl Re.comments_open)).
      rewrite <- (app_nil_r Re.fence_close) at 2.
      apply lazy_until_first;
        [apply fence_close_unbordered | apply matches_refl | easy].
    + unfold _extract_think_block.
      rewrite (search_no_opening _ _ _ Ht).
      now rewrite (search_no_opening _ _ _ Htf).
  - intros r Hr. unfold _extract_comments_block.
    now rewrite (search_absent _ _ _ Hr).
  - intros pre Z post Hpre HZ. unfold _extract_think_block.
    rewrite (search_skip _ _ _ _ pre think_open_unbordered
               (matches_refl _) Hpre).
    rewrite (search_here _ _ _ Z); [easy|].
    unfold Re.block.
    rewrite (lit_ci_matches _ _ _ (matches_refl Re.think_open)).
    apply lazy_until_first;
      [apply think_close_unbordered | apply matches_refl | easy].
  - intros r Hr. unfold _extract_code_block.
    now rewrite (search_absent _ _ _ Hr).
Qed.

(** The four parts of C4 at concrete responses. *)
Lemma output_parsing_witness :
  (_extract_code_block
     (Block.fenced_response (Str.py "(car x)") (Str.py "uses car"))
   = Str.py "(car x)"
   ∧ _extract_comments_block
       (Block.fenced_response (Str.py "(car x)") (Str.py "uses car"))
     = Str.py "uses car"
   ∧ _extract_think_block
       (Block.fenced_response (Str.py "(car x)") (Str.py "uses car"))
     = None)
  ∧ _extract_comments_block (Str.py "(car x)") = no_explanations
  ∧ _extract_think_block
      (Str.py "a" ++ Re.think_open ++ Str.py " Z " ++ Re.think_close
         ++ Str.py "b")
    = Some (Str.strip (Str.py " Z "))
  ∧ _extract_code_block (Str.py " (car x) ") = Str.strip (Str.py " (car x) ").
Proof.
  destruct output_parsing as (H1 & H2 & H3 & H4).
  split; [|split; [|split]].
  - apply H1; reflexivity.
  - apply H2. apply absent_search. reflexivity.
  - apply H3; reflexivity.
  - apply H4. apply absent_search. reflexivity.
Defined.

(** ** Segmenter *)

(** C5, as stated, fails: the example input yields neither the pair nor
    the chunk. *)
Lemma segmenter_example_counterexample :
  _process_doc_content Examples.segmenter_input
  ≠ ([(Str.py "(foo 1 2)", Str.py "Does foo.")],
     [Str.py "bar baz qux quux corge"]).
Proof. vm_compute. discriminate. Qed.

(** C5, amended.  On the example input the segmentation yields no pair
    and no chunk: the parenthesised span does not start a line, and the
    chunk has 5 words, which does not exceed 5.  With the span on a
    line of its own and a sixth word, it yields exactly the pair
    ((foo 1 2), Does foo.) and exactly the one chunk. *)
Theorem segmenter_example :
  _process_doc_content Examples.segmenter_input = ([], [])
  ∧ Re.findall Re.m_code_block (Str.py "Does foo. (foo 1 2)") = []
  ∧ length (Str.split (Str.py "bar baz qux quux corge")) = 5%nat
  ∧ _process_doc_content Examples.segmenter_input_by_line
    = ([(Str.py "(foo 1 2)", Str.py "Does foo.")],
       [Str.py "bar baz qux quux corge grault"]).
Proof. repeat split; vm_compute; reflexivity. Qed.

(** ** Rules of the assertions *)

Section Rules.

Context {float : Type}.
Implicit Types (P I : world float → Prop) (R : exn → world float → Prop).

Lemma hoare_conseq {A} P P' (m : M float A) Q Q' R R' :
  hoare P' m Q' R' →
  (∀ w, P w → P' w) → (∀ a w, Q' a w → Q a w) → (∀ e w, R' e w → R e w) →
  hoare P m Q R.
Proof.
  intros H HP HQ HR w Hw. specialize (H w (HP w Hw)).
  destruct (m w) as [[a|e] w']; auto.
Qed.

Lemma hoare_any {A} P (m : M float A) :
  hoare P m (fun _ _ => True) (fun _ _ => True).
Proof. intros w _. now destruct (m w) as [[a|e] w']. Qed.

Lemma hoare_ret {A} (a : A) (Q : A → world float → Prop) R :
  hoare (Q a) (ret a) Q R.
Proof. now intros w Hw. Qed.

Lemma hoare_raise {A} (e : exn) (Q : A → world float → Prop) R :
  hoare (R e) (raise e) Q R.
Proof. now intros w Hw. Qed.

Lemma hoare_bind {A B} P (m : M float A) (k : A → M float B)
    (Q1 : A → world float → Prop) Q R :
  hoare P m Q1 R → (∀ a, hoare (Q1 a) (k a) Q R) →
  hoare P (bind m k) Q R.
Proof.
  intros Hm Hk w Hw. unfold bind. specialize (Hm w Hw).
  destruct (m w) as [[a|e] w']; [now apply Hk | easy].
Qed.

Lemma hoare_try {A} P (m : M float A) (h : exn → M float A) Q
    (R1 : exn → world float → Prop) R :
  hoare P m Q R1 → (∀ e, hoare (R1 e) (h e) Q R) →
  hoare P (try_except m h) Q R.
Proof.
  intros Hm Hh w Hw. unfold try_except. specialize (Hm w Hw).
  destruct (m w) as [[a|e] w']; [easy | now apply Hh].
Qed.

Lemma hoare_get {A} (f : world float → A) (Q : A → world float → Prop) R :
  hoare (fun w => Q (f w) w) (get f) Q R.
Proof. now intros w Hw. Qed.

Lemma hoare_modify (f : world float → world float)
    (Q : unit → world float → Prop) R :
  hoare (fun w => Q tt (f w)) (modify f) Q R.
Proof. now intros w Hw. Qed.

Lemma hoare_lift {A} (r : res A) (Q : A → world float → Prop) R :
  hoare (fun w => match r with Ok a => Q a w | Raise e => R e w end)
    (lift r) Q R.
Proof. intros w Hw. unfold lift. now destruct r. Qed.

(** *** Programs that keep an invariant *)

Lemma keeps_ret {A} I (a : A) : keeps I (ret a).
Proof. now intros w Hw. Qed.

Lemma keeps_raise {A} I (e : exn) : keeps I (raise (A := A) e).
Proof. now intros w Hw. Qed.

Lemma keeps_bind {A B} I (m : M float A) (k : A → M float B) :
  keeps I m → (∀ a, keeps I (k a)) → keeps I (bind m k).
Proof. intros Hm Hk. eapply hoare_bind; [exact Hm | exact Hk]. Qed.

Lemma keeps_try {A} I (m : M float A) (h : exn → M float A) :
  keeps I m → (∀ e, keeps I (h e)) → keeps I (try_except m h).
Proof. intros Hm Hh. eapply hoare_try; [exact Hm | exact Hh]. Qed.

Lemma keeps_get {A} I (f : world float → A) : keeps I (get f).
Proof. now intros w Hw. Qed.

Lemma keeps_lift {A} I (r : res A) : keeps I (lift r).
Proof. intros w Hw. unfold lift. now destruct r. Qed.

Lemma keeps_modify I (f : world float → world float) :
  (∀ w, I w → I (f w)) → keeps I (modify f).
Proof. intros H w Hw. now apply H. Qed.

Lemma keeps_for_each {A} I (body : A → M float unit) (l : list A) :
  (∀ x, keeps I (body x)) → keeps I (for_each l body).
Proof.
  intros H. induction l as [|x l IH]; cbn; [apply keeps_ret|].
  apply keeps_bind; [apply H | intros _; exact IH].
Qed.

Lemma keeps_fold_files {A B} I (body : A → B → M float A) (l : list B) :
  (∀ acc x, keeps I (body acc x)) → ∀ acc, keeps I (fold_files body acc l).
Proof.
  intros H. induction l as [|x l IH]; intros acc; cbn; [apply keeps_ret|].
  apply keeps_bind; [apply H | exact IH].
Qed.

Lemma keeps_if {A} I (b : bool) (m1 m2 : M float A) :
  keeps I m1 → keeps I m2 → keeps I (if b then m1 else m2).
Proof. now destruct b. Qed.

(** The state after a program, whether it returned or raised. *)
Lemma hoare_snd {A} P (m : M float A) (Q : world float → Prop)
    (w : world float) :
  hoare P m (fun _ => Q) (fun _ => Q) → P w → Q (snd (m w)).
Proof.
  intros H Hw. specialize (H w Hw). now destruct (m w) as [[a|e] w'].
Qed.

Lemma hoare_of_snd {A} P (m : M float A) (Q : world float → Prop) :
  (∀ w, P w → Q (snd (m w))) → hoare P m (fun _ => Q) (fun _ => Q).
Proof.
  intros H w Hw. specialize (H w Hw). now destruct (m w) as [[a|e] w'].
Qed.

Lemma keeps_and {A} I J (m : M float A) :
  keeps I m → keeps J m → keeps (fun w => I w ∧ J w) m.
Proof.
  intros HI HJ w [Hi Hj]. specialize (HI w Hi). specialize (HJ w Hj).
  now destruct (m w) as [[a|e] w'].
Qed.

Lemma hoare_and {A} P1 P2 (m : M float A) (Q1 Q2 : world float → Prop) :
  hoare P1 m (fun _ => Q1) (fun _ => Q1) →
  hoare P2 m (fun _ => Q2) (fun _ => Q2) →
  hoare (fun w => P1 w ∧ P2 w) m (fun _ w => Q1 w ∧ Q2 w)
    (fun _ w => Q1 w ∧ Q2 w).
Proof.
  intros H1 H2 w [Hw1 Hw2]. specialize (H1 w Hw1). specialize (H2 w Hw2).
  now destruct (m w) as [[a|e] w'].
Qed.

(** The state after a program that keeps [I]. *)
Lemma keeps_snd {A} I (m : M float A) (w : world float) :
  keeps I m → I w → I (snd (m w)).
Proof.
  intros H Hw. specialize (H w Hw). now destruct (m w) as [[a|e] w'].
Qed.

(** *** Programs that always return *)

Lemma total_intro {A} (m : M float A) :
  (∀ w, ∃ a w', m w = (Ok a, w')) → total m.
Proof. intros H w _. now destruct (H w) as (a & w' & ->). Qed.

Lemma total_elim {A} (m : M float A) (w : world float) :
  total m → ∃ a w', m w = (Ok a, w').
Proof.
  intros H. specialize (H w I). destruct (m w) as [[a|e] w']; [eauto|easy].
Qed.

Lemma total_ret {A} (a : A) : total (float := float) (ret a).
Proof. now intros w _. Qed.

Lemma total_get {A} (f : world float → A) : total (get f).
Proof. now intros w _. Qed.

Lemma total_modify (f : world float → world float) : total (modify f).
Proof. now intros w _. Qed.

Lemma total_bind {A B} (m : M float A) (k : A → M float B) :
  total m → (∀ a, total (k a)) → total (bind m k).
Proof.
  intros Hm Hk. eapply hoare_bind; [exact Hm|]. intros a.
  eapply hoare_conseq; [apply (Hk a) | | |]; auto.
Qed.

(** Whatever the body does, the handler decides. *)
Lemma total_try {A} (m : M float A) (h : exn → M float A) :
  (∀ e, total (h e)) → total (try_except m h).
Proof.
  intros Hh w _. unfold try_except.
  destruct (m w) as [[a|e] w']; [easy | now apply Hh].
Qed.

Lemma total_for_each {A} (body : A → M float unit) (l : list A) :
  (∀ x, total (body x)) → total (for_each l body).
Proof.
  intros H. induction l as [|x l IH]; cbn; [apply total_ret|].
  apply total_bind; [apply H | intros _; exact IH].
Qed.

Lemma total_fold_files {A B} (body : A → B → M float A) (l : list B) :
  (∀ acc x, total (body acc x)) → ∀ acc, total (fold_files body acc l).
Proof.
  intros H. induction l as [|x l IH]; intros acc; cbn; [apply total_ret|].
  apply total_bind; [apply H | exact IH].
Qed.

Lemma total_if {A} (b : bool) (m1 m2 : M float A) :
  total m1 → total m2 → total (if b then m1 else m2).
Proof. now destruct b. Qed.

End Rules.

(** The primitives of the file system. *)

Section Primitives.

Context {float : Type} (E : env float).
Implicit Types (I : world float → Prop).

Lemma keeps_read_raw I (path : list N) : keeps I (read_raw E path).
Proof.
  intros w Hw. unfold read_raw.
  now destruct (fs w !! path) as [[|[s|d]]|].
Qed.

Lemma keeps_read_json I (path : list N) : keeps I (read_json E path).
Proof.
  intros w Hw. unfold read_json.
  destruct (fs w !! path) as [[|[s|d]]|]; try easy.
  now destruct (json_loads E s).
Qed.

Lemma keeps_write_file I (path : list N) (c : content float) :
  (∀ w, I w → I (set_fs (<[path := File c]> (fs w)) w)) →
  keeps I (write_file E path c).
Proof.
  intros H w Hw. unfold write_file.
  destruct (can_write E path && negb (isdir path w)); [now apply H|easy].
Qed.

Lemma keeps_open_append I (path : list N) :
  (∀ w f, I w → I (set_fs f w)) → keeps I (open_append E path).
Proof.
  intros H w Hw. unfold open_append.
  destruct (can_write E path && negb (isdir path w)); [|easy].
  destruct (fs w !! path); [easy | now apply H].
Qed.

Lemma total_read_text_or (path : list N) (h : exn → M float (list N)) :
  (∀ e, total (h e)) → total (try_except (read_raw E path) h).
Proof. apply total_try. Qed.

End Primitives.

(** The rules, applied along the structure of a program.  [side] closes
    the conditions on the steps that change the state. *)
Ltac keeps_with side :=
  repeat lazymatch goal with
    | |- keeps _ (ret _) => apply keeps_ret
    | |- keeps _ (get _) => apply keeps_get
    | |- keeps _ (lift _) => apply keeps_lift
    | |- keeps _ (raise _) => apply keeps_raise
    | |- keeps _ (read_raw _ _) => apply keeps_read_raw
    | |- keeps _ (read_json _ _) => apply keeps_read_json
    | |- keeps _ (bind _ _) => apply keeps_bind; [|intros ?]
    | |- keeps _ (try_except _ _) => apply keeps_try; [|intros ?]
    | |- keeps _ (for_each _ _) => apply keeps_for_each; intros ?
    | |- keeps _ (fold_files _ _ _) => apply keeps_fold_files; intros ? ?
    | |- keeps _ (write_file _ _ _) => apply keeps_write_file; side
    | |- keeps _ (open_append _ _) => apply keeps_open_append; side
    | |- keeps _ (modify _) => apply keeps_modify; side
    | |- keeps _ (if ?b then _ else _) => destruct b
    | |- keeps _ (match ?x with _ => _ end) => destruct x
    | |- keeps _ _ => solve [auto with prog]
    end.

Create HintDb prog.

Ltac total_auto :=
  unfold print, print_part, update_db, update_done;
  repeat lazymatch goal with
    | |- total (ret _) => apply total_ret
    | |- total (get _) => apply total_get
    | |- total (modify _) => apply total_modify
    | |- total (try_except _ _) => apply total_try; intros ?
    | |- total (bind _ _) => apply total_bind; [|intros ?]
    | |- total (for_each _ _) => apply total_for_each; intros ?
    | |- total (fold_files _ _ _) => apply total_fold_files; intros ? ?
    | |- total (if ?b then _ else _) => destruct b
    | |- total (match ?x with _ => _ end) => destruct x
    | |- total _ => solve [auto with prog]
    end.

(** ** What can end a run *)

Section Fatal.

Context {float : Type} (E : env float).

Lemma total_extract_text (p : list N) : total (_extract_text_from_file E p).
Proof. unfold _extract_text_from_file. total_auto. Qed.
Hint Resolve total_extract_text : prog.

Lemma total_process_directory (p : list N) : total (_process_directory E p).
Proof. unfold _process_directory, collect_file. total_auto. Qed.
Hint Resolve total_process_directory : prog.

Lemma total_save_db (d : ctx_db float) (p : list N) : total (_save_db E d p).
Proof. unfold _save_db. total_auto. Qed.

Lemma total_load_db (p : list N) : total (_load_db E p).
Proof. unfold _load_db. total_auto. Qed.
Hint Resolve total_save_db total_load_db : prog.

Lemma total_build (p : list N) (r : db_ref) :
  total (_build_enhanced_database E p r).
Proof.
  unfold _build_enhanced_database, add_pair, add_chunk. total_auto.
Qed.
Hint Resolve total_build : prog.

Lemma total_prepare_one (r : db_ref) (p : list N) : total (prepare_one E r p).
Proof. unfold prepare_one. total_auto. Qed.
Hint Resolve total_prepare_one : prog.

Lemma total_prepare (src trg : list N) :
  total (prepare_context_dbs E src trg).
Proof. unfold prepare_context_dbs. total_auto. Qed.

Lemma total_load_done : total (_load_done_db E).
Proof. unfold _load_done_db. total_auto. Qed.

Lemma total_translate_file (p : list N) (v : bool) :
  total (translate_file E p v).
Proof. unfold translate_file. total_auto. Qed.
Hint Resolve total_prepare total_load_done total_translate_file : prog.

Lemma total_process_path (v : bool) (done : gset (list N)) (p : list N) :
  total (process_path E v done p).
Proof. unfold process_path, append_text. total_auto. Qed.
Hint Resolve total_process_path : prog.

(** A program that always returns raises nothing. *)
Lemma total_raises {A} (m : M float A) (R : exn → world float → Prop) :
  total m → hoare (fun _ => True) m (fun _ _ => True) R.
Proof. intros H. eapply hoare_conseq; [exact H| | |]; easy. Qed.

Lemma read_raw_raises (p : list N) :
  hoare (fun _ => True) (read_raw E p) (fun _ _ => True)
    (fun e _ => e = OSError p).
Proof.
  intros w _. unfold read_raw. now destruct (fs w !! p) as [[|[?|?]]|].
Qed.

Lemma write_file_raises (p : list N) (c : content float) :
  hoare (fun _ => True) (write_file E p c) (fun _ _ => True)
    (fun e _ => e = OSError p).
Proof.
  intros w _. unfold write_file.
  now destruct (can_write E p && negb (isdir p w)).
Qed.

Lemma open_append_raises (p : list N) :
  hoare (fun _ => True) (open_append E p) (fun _ _ => True)
    (fun e _ => e = OSError p).
Proof.
  intros w _. unfold open_append.
  destruct (can_write E p && negb (isdir p w)); [|easy].
  now destruct (fs w !! p).
Qed.

(** Only the listing and the ledger can make the orchestrator
    raise. *)
Lemma translate_directory_raises (d : list N) (v : bool) :
  hoare (fun _ => True) (translate_directory E d v) (fun _ _ => True)
    (fun e _ => ledger_error e).
Proof.
  unfold translate_directory.
  eapply hoare_bind; [apply total_raises, total_get | intros ex].
  destruct (negb ex); [apply total_raises; total_auto|].
  eapply hoare_bind; [apply total_raises, total_get | intros all_files].
  eapply hoare_bind with (Q1 := fun _ _ => True).
  { eapply hoare_conseq; [apply write_file_raises| | |]; try easy.
    intros e w ->. now left. }
  intros _.
  eapply hoare_bind; [apply total_raises, total_get | intros ex2].
  eapply hoare_bind with (Q1 := fun _ _ => True).
  { destruct ex2; [|apply total_raises, total_ret].
    eapply hoare_bind with (Q1 := fun _ _ => True);
      [|intros s; apply total_raises, total_ret].
    unfold read_text.
    eapply hoare_bind with (Q1 := fun _ _ => True);
      [|intros s; apply total_raises, total_ret].
    eapply hoare_conseq; [apply read_raw_raises| | |]; try easy.
    intros e w ->. now right. }
  intros done.
  eapply hoare_bind with (Q1 := fun _ _ => True).
  { eapply hoare_conseq; [apply open_append_raises| | |]; try easy.
    intros e w ->. now right. }
  intros _. apply total_raises. total_auto.
Qed.

Lemma main_raises (src trg d : list N) (v : bool) :
  hoare (fun _ => True) (main E src trg d v) (fun _ _ => True)
    (fun e _ => ledger_error e).
Proof.
  unfold main.
  eapply hoare_bind with (Q1 := fun _ _ => True);
    [apply total_raises, total_prepare | intros _].
  eapply hoare_bind with (Q1 := fun _ _ => True);
    [apply total_raises, total_load_done | intros _].
  apply translate_directory_raises.
Qed.

(** Extraction from a path that does not exist: a diagnostic and the
    empty text. *)
Lemma extract_missing (p : list N) (w : world float) :
  fs w !! p = None →
  ∃ line, _extract_text_from_file E p w
          = (Ok [], set_stdout (stdout w ++ [line]) w).
Proof.
  intros Hp. unfold _extract_text_from_file, try_except, read_text, bind,
    read_raw, print, modify, ret.
  destruct (Str.eqb _ (py ".txt")); [rewrite Hp; eauto|].
  destruct (Str.eqb _ (py ".html") && HTML_SUPPORT E);
    [rewrite Hp; eauto|].
  destruct (Str.eqb _ (py ".pdf") && PDF_SUPPORT E);
    [rewrite Hp; eauto|].
  eauto.
Qed.

(** The rebuild from a path that does not exist: the store is left
    empty, a warning is printed, nothing else happens. *)
Lemma build_missing (r : db_ref) (p : list N) (w : world float) :
  fs w !! p = None →
  ∃ w', _build_enhanced_database E p r w = (Ok tt, w')
        ∧ db_of r w' = empty_ctx_db
        ∧ fs w' = fs w ∧ calls w' = calls w
        ∧ last (stdout w')
          = Some (py "Warning: No content extracted from " ++ p ++ [NL]).
Proof.
  intros Hp. unfold _build_enhanced_database.
  unfold bind at 1 2 3 4 5. unfold update_db, modify, get.
  set (w1 := match r with Src => _ | Trg => _ end).
  assert (H1 : fs w1 = fs w) by (subst w1; now destruct r).
  assert (Hd : isdir p w1 = false) by (unfold isdir; now rewrite H1, Hp).
  rewrite Hd. unfold bind.
  destruct (extract_missing p w1) as [line ->]; [now rewrite H1|].
  cbn [strip lstrip rstrip truthy negb]. unfold print, modify.
  eexists. split; [reflexivity|]. cbn [fs calls stdout].
  split; [subst w1; now destruct r|].
  split; [easy|]. split; [subst w1; now destruct r|].
  apply last_snoc.
Qed.

End Fatal.

(** C7, as stated, fails: with both documentation paths absent the run
    does not abort; it returns normally after it has sent a prompt to
    the backend and written the translation of an input file. *)
Lemma missing_docs_counterexample :
  fs Demo.start !! src_docs_path Demo.working = None
  ∧ fs Demo.start !! trg_docs_path Demo.working = None
  ∧ fst Demo.run = Ok tt
  ∧ length (calls (snd Demo.run)) = 1%nat
  ∧ fs (snd Demo.run) !! Str.py "in/a.autot"
    = Some (File (Text (Str.py "(first x)"))).
Proof. vm_compute. repeat split; reflexivity. Qed.

(** C7, amended.  A documentation path that does not exist is not
    fatal: the rebuild returns with the store empty and a warning
    printed, and touches neither the files nor the backend.  Loading
    the history and translating a file return from every state.  When
    the input directory does not exist the orchestrator prints a
    diagnostic and returns without doing anything else.  When each of
    the two store paths holds nothing, a directory or a document of a
    store, preparing the stores returns, and the only exceptions that
    end the run are those of opening the listing and the ledger.
    Nothing is said of a store path that holds a text of unknown
    content: a JSON document of another shape can end the run at the
    status lines of [prepare_context_dbs]. *)
Theorem missing_input_is_not_fatal {float : Type} (E : env float) :
  (∀ r p w,
     fs w !! p = None →
     ∃ w', _build_enhanced_database E p r w = (Ok tt, w')
           ∧ db_of r w' = empty_ctx_db
           ∧ fs w' = fs w ∧ calls w' = calls w
           ∧ last (stdout w')
             = Some (Str.py "Warning: No content extracted from " ++ p
                       ++ [Str.NL]))
  ∧ (∀ src trg w,
       no_foreign_document src w → no_foreign_document trg w →
       ∃ w', prepare_context_dbs E src trg w = (Ok tt, w'))
  ∧ (∀ w, ∃ w', _load_done_db E w = (Ok tt, w'))
  ∧ (∀ p v w, ∃ r w', translate_file E p v w = (Ok r, w'))
  ∧ (∀ d v w,
       fs w !! d = None →
       translate_directory E d v w
       = (Ok tt,
          set_stdout
            (stdout w ++ [Str.py "Error: Input directory " ++ d
                            ++ Str.py " does not exist" ++ [Str.NL]]) w))
  ∧ (∀ src trg d v w e w',
       no_foreign_document src w → no_foreign_document trg w →
       main E src trg d v w = (Raise e, w') → ledger_error e).
Proof.
  repeat apply conj.
  - intros r p w. apply build_missing.
  - intros src trg w _ _.
    destruct (total_elim _ w (total_prepare E src trg)) as ([] & w' & H).
    eauto.
  - intros w. destruct (total_elim _ w (total_load_done E)) as ([] & w' & H).
    eauto.
  - intros p v w. apply total_elim, total_translate_file.
  - intros d v w Hd. unfold translate_directory, bind, get, exists_.
    rewrite Hd. cbn [negb]. unfold print, modify.
    now rewrite <- !app_assoc.
  - intros src trg d v w e w' _ _ H.
    pose proof (main_raises E src trg d v w I) as Hm. now rewrite H in Hm.
Qed.

(** C7 at a concrete run: no documentation and no store file, then no
    input directory, then a listing that cannot be written. *)
Lemma missing_input_is_not_fatal_witness :
  (∃ w', _build_enhanced_database Demo.working (Str.py "src_docs.txt") Src
           Demo.start
         = (Ok tt, w')
         ∧ db_of Src w' = empty_ctx_db
         ∧ fs w' = fs Demo.start ∧ calls w' = calls Demo.start
         ∧ last (stdout w')
           = Some (Str.py "Warning: No content extracted from "
                     ++ Str.py "src_docs.txt" ++ [Str.NL]))
  ∧ (∃ w', prepare_context_dbs Demo.working (Str.py "src_db.json")
             (Str.py "trg_db.json") Demo.start
           = (Ok tt, w'))
  ∧ translate_directory Demo.working (Str.py "nowhere") false Demo.start
    = (Ok tt,
       set_stdout
         (stdout Demo.start
            ++ [Str.py "Error: Input directory " ++ Str.py "nowhere"
                  ++ Str.py " does not exist" ++ [Str.NL]]) Demo.start)
  ∧ ledger_error (OSError (Str.py "pathlist.txt")).
Proof.
  destruct (missing_input_is_not_fatal Demo.working)
    as (H1 & H2 & _ & _ & H5 & _).
  destruct (missing_input_is_not_fatal
              (Demo.services Demo.answers Demo.but_the_listing))
    as (_ & _ & _ & _ & _ & H6).
  split; [|split; [|split]].
  - apply H1. reflexivity.
  - apply H2; vm_compute; exact I.
  - apply H5. reflexivity.
  - eapply (H6 (Str.py "src_db.json") (Str.py "trg_db.json") (Str.py "in")
              false Demo.start).
    + vm_compute. exact I.
    + vm_compute. exact I.
    + vm_compute. reflexivity.
Defined.

(** ** Steps and the invariants they cannot break *)

Section FrameRules.

Context {float : Type} (E : env float) (I : world float → Prop).
Hypothesis Hfs : ignores_fs I.
Hypothesis Hout : ignores_stdout I.
Hypothesis Hcalls : ignores_calls I.
Hypothesis Hdone : ignores_done_db I.
Hypothesis Hfile : ignores_done_file I.

Ltac side :=
  intros; cbv beta;
  first [ apply Hfs | apply Hout | apply Hcalls | apply Hdone ];
  assumption.

Ltac side_file :=
  intros; cbv beta;
  first [ apply Hfile | apply Hout | apply Hdone ];
  assumption.

Ltac frame := unfold print, print_part, update_done; keeps_with side.

Lemma keeps_print (l : list N) : keeps I (print l).
Proof. frame. Qed.

Lemma keeps_print_part (l : list N) : keeps I (print_part l).
Proof. frame. Qed.

Lemma keeps_read_text (p : list N) : keeps I (read_text E p).
Proof. unfold read_text. frame. Qed.

Lemma keeps_write_artifacts (p code comments : list N)
    (think : option (list N)) :
  keeps I (write_artifacts E p code comments think).
Proof. unfold write_artifacts, _write_output. frame. Qed.

Lemma keeps_prompt (src : list N) :
  keeps I (_generate_contextual_prompt_with_langchain E src).
Proof. unfold _generate_contextual_prompt_with_langchain. frame. Qed.

Lemma keeps_generate_blocking (p : list N) :
  keeps I (generate_blocking E p).
Proof. unfold generate_blocking. frame. Qed.

Lemma keeps_consume (chunks : list (option (list N))) :
  ∀ out, keeps I (consume out chunks).
Proof.
  induction chunks as [|c chunks IH]; intros out; cbn; [apply keeps_ret|].
  destruct (truthy (default [] c)); [|apply IH].
  apply keeps_bind; [apply keeps_print_part | intros _; apply IH].
Qed.

Lemma keeps_generate_streaming (p : list N) :
  keeps I (generate_streaming E p).
Proof.
  unfold generate_streaming.
  apply keeps_bind; [apply keeps_get | intros n].
  apply keeps_bind; [apply keeps_modify; side | intros _].
  destruct (generate_stream E n p) as [chunks failure].
  apply keeps_bind; [apply keeps_consume | intros out].
  destruct failure; frame.
Qed.

Lemma keeps_extract_text (p : list N) :
  keeps I (_extract_text_from_file E p).
Proof. unfold _extract_text_from_file, read_text. frame. Qed.

Lemma keeps_process_directory (p : list N) : keeps I (_process_directory E p).
Proof.
  unfold _process_directory, collect_file.
  apply keeps_bind; [apply keeps_get | intros ex].
  destruct (negb ex); [frame|].
  apply keeps_bind.
  { apply keeps_fold_files. intros acc pattern.
    apply keeps_bind; [apply keeps_get | intros files].
    apply keeps_fold_files. intros acc' f.
    apply keeps_bind; [apply keeps_print | intros _].
    apply keeps_bind; [apply keeps_extract_text | intros content].
    destruct (truthy (strip content)); apply keeps_ret. }
  intros all_content.
  apply keeps_bind; [apply keeps_get | intros isf].
  apply keeps_bind; [|intros ?; apply keeps_ret].
  destruct isf; [|apply keeps_ret].
  apply keeps_bind; [apply keeps_extract_text | intros content].
  destruct (truthy (strip content)); apply keeps_ret.
Qed.

Lemma keeps_save_db (db : ctx_db float) (p : list N) :
  keeps I (_save_db E db p).
Proof. unfold _save_db. frame. Qed.

Lemma keeps_save_done : keeps I (_save_done_db E).
Proof.
  unfold _save_done_db, print, done_db_json. keeps_with side_file.
Qed.

Lemma keeps_update_done (p src : list N) : keeps I (_update_done_db E p src).
Proof.
  unfold _update_done_db.
  apply keeps_try; [|intros e; apply keeps_print].
  repeat (apply keeps_bind;
          [unfold update_done; keeps_with side_file | intros ?]).
  apply keeps_save_done.
Qed.

End FrameRules.

Lemma ignores_fs_done_file {float : Type} (I : world float → Prop) :
  ignores_fs I → ignores_done_file I.
Proof. intros H w c. apply H. Qed.

#[local] Hint Resolve ignores_fs_done_file : prog.

(** ** The translation cache *)

Section Cache.

Context {float : Type} (E : env float).

Lemma hoare_run {A} (m : M float A) (w0 w1 : world float) (a0 : A)
    (R : exn → world float → Prop) :
  m w0 = (Ok a0, w1) →
  hoare (fun w => w = w0) m (fun a w => a = a0 ∧ w = w1) R.
Proof. intros H w ->. now rewrite H. Qed.

Lemma hoare_pure {A} (φ : Prop) (P : world float → Prop) (m : M float A)
    Q R :
  (φ → hoare P m Q R) → hoare (fun w => φ ∧ P w) m Q R.
Proof. intros H w [Hφ Hw]. now apply H. Qed.

(** The invariant [the cache is c]. *)
Definition cache_is (c : gmap (list N) (list N * list N * option (list N)))
    (w : world float) : Prop :=
  translation_cache w = c.

Lemma cache_is_fs c : ignores_fs (cache_is c).
Proof. now intros w f. Qed.
Lemma cache_is_stdout c : ignores_stdout (cache_is c).
Proof. now intros w f. Qed.
Lemma cache_is_calls c : ignores_calls (cache_is c).
Proof. now intros w f. Qed.
Lemma cache_is_done c : ignores_done_db (cache_is c).
Proof. now intros w f. Qed.
Hint Resolve cache_is_fs cache_is_stdout cache_is_calls cache_is_done
  : prog.

(** Until it returns a translation, [translate_file] leaves the cache
    as it is. *)
Lemma translate_file_cache c (p : list N) (v : bool) :
  hoare (cache_is c) (translate_file E p v)
    (fun r w => fst r = None → cache_is c w) (fun _ => cache_is c).
Proof.
  unfold translate_file.
  apply hoare_try with (R1 := fun _ => cache_is c).
  - eapply hoare_bind with (Q1 := fun _ => cache_is c);
      [apply keeps_read_text; auto with prog | intros src].
    eapply hoare_bind with (Q1 := fun _ => cache_is c);
      [apply keeps_get | intros cache].
    destruct (cache !! md5 E src) as [[[code comments] think]|].
    + eapply hoare_bind with (Q1 := fun _ => cache_is c);
        [apply keeps_write_artifacts; auto with prog | intros _].
      now intros w Hw.
    + eapply hoare_bind with (Q1 := fun _ => cache_is c);
        [apply keeps_prompt | intros prompt].
      eapply hoare_bind with (Q1 := fun _ => cache_is c).
      { destruct v; [apply keeps_generate_streaming
                    | apply keeps_generate_blocking]; auto with prog. }
      intros out.
      eapply hoare_bind with (Q1 := fun _ => cache_is c);
        [apply keeps_write_artifacts; auto with prog | intros _].
      eapply hoare_bind with (Q1 := fun _ => cache_is c);
        [apply keeps_update_done; auto with prog | intros _].
      now intros w Hw.
  - intros e.
    eapply hoare_bind with (Q1 := fun _ => cache_is c);
      [apply keeps_print; auto with prog | intros _].
    now intros w Hw.
Qed.

(** The invariant [the log of the prompts is c]. *)
Definition calls_are (c : list (list N * bool)) (w : world float) : Prop :=
  calls w = c.

Lemma calls_are_fs c : ignores_fs (calls_are c).
Proof. now intros w f. Qed.
Lemma calls_are_stdout c : ignores_stdout (calls_are c).
Proof. now intros w f. Qed.
Lemma calls_are_done c : ignores_done_db (calls_are c).
Proof. now intros w f. Qed.
Hint Resolve calls_are_fs calls_are_stdout calls_are_done : prog.

(** A generation logs its prompt, whether it succeeds or not. *)
Lemma generation_logged (prompt : list N) (v : bool)
    (c : list (list N * bool)) :
  hoare (calls_are c)
    (if v then generate_streaming E prompt else generate_blocking E prompt)
    (fun _ => calls_are (c ++ [(prompt, v)]))
    (fun _ => calls_are (c ++ [(prompt, v)])).
Proof.
  destruct v.
  - unfold generate_streaming.
    eapply hoare_bind with (Q1 := fun _ => calls_are c);
      [now intros w Hw | intros n].
    eapply hoare_bind
      with (Q1 := fun _ => calls_are (c ++ [(prompt, true)]));
      [intros w Hw; cbn; unfold calls_are in *; cbn; now rewrite Hw
      | intros _].
    destruct (generate_stream E n prompt) as [chunks failure].
    eapply hoare_bind
      with (Q1 := fun _ => calls_are (c ++ [(prompt, true)]));
      [apply keeps_consume; auto with prog | intros out].
    destruct failure; [now intros w Hw|].
    eapply hoare_bind
      with (Q1 := fun _ => calls_are (c ++ [(prompt, true)]));
      [apply keeps_print; auto with prog | intros _].
    now intros w Hw.
  - intros w Hw. unfold generate_blocking, bind, get, modify, lift, ret.
    unfold calls_are in *.
    destruct (generate E (length (calls w)) prompt); cbn; now rewrite Hw.
Qed.

(** A request whose content is not in the cache reaches the
    backend. *)
Lemma translate_miss_calls (p src prompt : list N) (v : bool)
    (w0 : world float) :
  read_text E p w0 = (Ok src, w0) →
  translation_cache w0 !! md5 E src = None →
  _generate_contextual_prompt_with_langchain E src w0 = (Ok prompt, w0) →
  calls (snd (translate_file E p v w0)) = calls w0 ++ [(prompt, v)].
Proof.
  intros Hread Hmiss Hprompt.
  set (I := calls_are (calls w0 ++ [(prompt, v)])).
  assert (H : hoare (fun w => w = w0) (translate_file E p v)
                (fun _ => I) (fun _ => I)).
  { unfold translate_file. apply hoare_try with (R1 := fun _ => I).
    - eapply hoare_bind; [apply (hoare_run _ _ _ _ _ Hread) | intros a].
      apply hoare_pure. intros ->.
      eapply hoare_bind with (Q1 := fun c w => c = translation_cache w0
                                               ∧ w = w0);
        [now intros w -> | intros c].
      apply hoare_pure. intros ->. rewrite Hmiss.
      eapply hoare_bind; [apply (hoare_run _ _ _ _ _ Hprompt) | intros a].
      apply hoare_pure. intros ->.
      eapply hoare_bind with (Q1 := fun _ => I);
        [eapply hoare_conseq; [apply (generation_logged _ _ (calls w0))
                              | | |]; try easy; now intros w ->
        | intros out].
      eapply hoare_bind with (Q1 := fun _ => I);
        [apply keeps_write_artifacts; subst I; auto with prog | intros _].
      eapply hoare_bind with (Q1 := fun _ => I);
        [apply keeps_update_done; subst I; auto with prog | intros _].
      eapply hoare_bind with (Q1 := fun _ => I); [now intros w Hw|].
      intros _. now intros w Hw.
    - intros e.
      eapply hoare_bind with (Q1 := fun _ => I);
        [apply keeps_print; subst I; auto with prog | intros _].
      now intros w Hw. }
  specialize (H w0 eq_refl).
  now destruct (translate_file E p v w0) as [[a|e] w'].
Qed.

End Cache.

#[local] Hint Resolve calls_are_fs calls_are_stdout calls_are_done : prog.

(** C8.  The cache is filled by successful translations only: when
    [translate_file] returns the failure result, the cache is what it
    was, so no entry is created; and, where the content was not cached,
    a later request with the same content, made while the cache is
    still the same, sends its prompt to the backend. *)
Theorem failure_leaves_cache {float : Type} (E : env float)
    (path : list N) (verbose : bool) (w w' : world float) (msg : list N) :
  translate_file E path verbose w = (Ok (None, msg), w') →
  translation_cache w' = translation_cache w
  ∧ ∀ src path2 verbose2 w2 prompt,
      read_text E path w = (Ok src, w) →
      translation_cache w !! md5 E src = None →
      translation_cache w2 = translation_cache w' →
      read_text E path2 w2 = (Ok src, w2) →
      _generate_contextual_prompt_with_langchain E src w2 = (Ok prompt, w2) →
      calls (snd (translate_file E path2 verbose2 w2))
      = calls w2 ++ [(prompt, verbose2)].
Proof.
  intros H.
  assert (Hc : translation_cache w' = translation_cache w).
  { pose proof (translate_file_cache E (translation_cache w) path verbose
                  w eq_refl) as Hh.
    rewrite H in Hh. now apply Hh. }
  split; [exact Hc|].
  intros src path2 verbose2 w2 prompt _ Hmiss Hsame Hread Hprompt.
  apply (translate_miss_calls E path2 src); [easy | | easy].
  now rewrite Hsame, Hc.
Qed.

(** C8 at a concrete run: the first request fails on writing its code
    artifact; the cache stays empty and the second request, for the same
    content, sends the prompt again. *)
Lemma failure_leaves_cache_witness :
  translation_cache (snd Demo.first_request) = translation_cache Demo.start
  ∧ calls (snd Demo.second_request)
    = calls (snd Demo.first_request) ++ [(Demo.prompt, false)].
Proof.
  assert (H : translate_file Demo.failing (Str.py "in/a.lisp") false
                Demo.start
              = (Ok (None, Str.py "cannot open in/a.autot"),
                 snd Demo.first_request))
    by (vm_compute; reflexivity).
  destruct (failure_leaves_cache _ _ _ _ _ _ H) as [H1 H2].
  split; [exact H1|].
  apply (H2 (Str.py "(car x)")); vm_compute; reflexivity.
Defined.

(** ** Replay from the cache *)

Section Replay.

Context {float : Type} (E : env float).
Import Str.

Definition exts : list (list N) := [py ".autot"; py ".comment"; py ".think"].

Lemma ext_apart (base e1 e2 : list N) :
  e1 ∈ exts → e2 ∈ exts → e1 ≠ e2 → base ++ e1 ≠ base ++ e2.
Proof. intros _ _ Hne H. now apply app_inv_head in H. Qed.

(** No artifact is the file of the history store. *)
Lemma ext_not_done (base e : list N) :
  e ∈ exts → base ++ e ≠ py "done_db.json".
Proof.
  intros He H. apply (f_equal (@last N)) in H.
  unfold exts in He.
  repeat (apply elem_of_cons in He as [->|He]);
    [ | | | now apply elem_of_nil in He];
    change (py ?x) with (removelast (py x) ++ [List.last (py x) 0]) in H
      at 1;
    cbn [removelast List.last py List.map list_ascii_of_string] in H;
    rewrite app_assoc, last_snoc in H; vm_compute in H; discriminate.
Qed.

Lemma in_artifact_list (code comments : list N) (think : option (list N))
    (ext content : list N) :
  (ext, content) ∈ artifact_list code comments think → ext ∈ exts.
Proof.
  unfold artifact_list, exts. intros H.
  apply elem_of_app in H as [H|H].
  - repeat (apply elem_of_cons in H as [[= -> ->]|H]);
      [ | | now apply elem_of_nil in H].
    + apply elem_of_cons. now left.
    + apply elem_of_cons. right. apply elem_of_cons. now left.
  - destruct think as [t|]; [|now apply elem_of_nil in H].
    destruct (truthy t); [|now apply elem_of_nil in H].
    apply elem_of_cons in H as [[= -> ->]|H]; [|now apply elem_of_nil in H].
    do 2 (apply elem_of_cons; right). apply elem_of_cons. now left.
Qed.

Lemma put_artifacts_has (p code comments : list N)
    (think : option (list N)) (f : gmap (list N) (node float)) :
  has_artifacts p code comments think
    (put_artifacts p code comments think f).
Proof.
  intros ext content H. unfold put_artifacts.
  set (base := fst (Path.splitext p)).
  assert (H1 : base ++ py ".autot" ≠ base ++ py ".comment")
    by (intros Heq; now apply app_inv_head in Heq).
  assert (H2 : base ++ py ".autot" ≠ base ++ py ".think")
    by (intros Heq; now apply app_inv_head in Heq).
  assert (H3 : base ++ py ".comment" ≠ base ++ py ".think")
    by (intros Heq; now apply app_inv_head in Heq).
  unfold artifact_list in H. apply elem_of_app in H as [H|H].
  - repeat (apply elem_of_cons in H as [[= -> ->]|H]);
      [ | | now apply elem_of_nil in H].
    + destruct think as [t|]; [destruct (truthy t)|].
      * rewrite lookup_insert_ne, lookup_insert_ne, lookup_insert_eq;
          congruence.
      * rewrite lookup_insert_ne, lookup_insert_eq; congruence.
      * rewrite lookup_insert_ne, lookup_insert_eq; congruence.
    + destruct think as [t|]; [destruct (truthy t)|].
      * rewrite lookup_insert_ne, lookup_insert_eq; congruence.
      * now rewrite lookup_insert_eq.
      * now rewrite lookup_insert_eq.
  - destruct think as [t|]; [|now apply elem_of_nil in H].
    destruct (truthy t); [|now apply elem_of_nil in H].
    apply elem_of_cons in H as [[= -> ->]|H]; [|now apply elem_of_nil in H].
    now rewrite lookup_insert_eq.
Qed.

(** When the three writes return, the files are as [put_artifacts]
    says. *)
Lemma write_artifacts_result (p code comments : list N)
    (think : option (list N)) (w w' : world float) :
  write_artifacts E p code comments think w = (Ok tt, w') →
  w' = set_fs (put_artifacts p code comments think (fs w)) w.
Proof.
  unfold write_artifacts, _write_output, write_file, bind, put_artifacts,
    ret.
  destruct (can_write E _ && _); [|easy].
  destruct (can_write E _ && _); [|easy].
  destruct think as [t|]; [destruct (truthy t)|].
  - destruct (can_write E _ && _); [|easy]. now intros [= <-].
  - now intros [= <-].
  - now intros [= <-].
Qed.

Lemma write_artifacts_ok (p code comments : list N)
    (think : option (list N)) (w : world float) :
  artifacts_writable (can_write E) p (fs w) →
  write_artifacts E p code comments think w
  = (Ok tt, set_fs (put_artifacts p code comments think (fs w)) w).
Proof.
  intros H. unfold artifacts_writable in H.
  set (base := fst (Path.splitext p)) in *.
  assert (Hd : ∀ ext w', ext ∈ exts →
               fs w' !! (base ++ ext) = fs w !! (base ++ ext) →
               can_write E (base ++ ext)
               && negb (isdir (base ++ ext) w') = true).
  { intros ext w' He Hf. destruct (H ext He) as [Hc Hn].
    rewrite Hc. unfold isdir. rewrite Hf.
    now destruct (fs w !! (base ++ ext)) as [[|?]|]. }
  assert (H1 : base ++ py ".autot" ≠ base ++ py ".comment")
    by (intros Heq; now apply app_inv_head in Heq).
  assert (H2 : base ++ py ".autot" ≠ base ++ py ".think")
    by (intros Heq; now apply app_inv_head in Heq).
  assert (H3 : base ++ py ".comment" ≠ base ++ py ".think")
    by (intros Heq; now apply app_inv_head in Heq).
  assert (Ea : py ".autot" ∈ exts) by (apply elem_of_cons; now left).
  assert (Ec : py ".comment" ∈ exts)
    by (apply elem_of_cons; right; apply elem_of_cons; now left).
  assert (Et : py ".think" ∈ exts)
    by (do 2 (apply elem_of_cons; right); apply elem_of_cons; now left).
  unfold write_artifacts, _write_output, write_file, bind, put_artifacts,
    ret. fold base.
  rewrite (Hd _ w Ea eq_refl).
  rewrite (Hd _ _ Ec) by (cbn [fs set_fs]; now rewrite lookup_insert_ne).
  destruct think as [t|]; [destruct (truthy t)|]; try reflexivity.
  rewrite (Hd _ _ Et)
    by (cbn [fs set_fs];
        now rewrite lookup_insert_ne, lookup_insert_ne by congruence).
  reflexivity.
Qed.

(** The invariant [the artifacts stand next to the input]. *)
Definition artifacts_stand (p code comments : list N)
    (think : option (list N)) (w : world float) : Prop :=
  has_artifacts p code comments think (fs w).

Lemma artifacts_stand_stdout p code comments think :
  ignores_stdout (artifacts_stand p code comments think).
Proof. now intros w o. Qed.

Lemma artifacts_stand_done p code comments think :
  ignores_done_db (artifacts_stand p code comments think).
Proof. now intros w o. Qed.

Lemma artifacts_stand_file p code comments think :
  ignores_done_file (artifacts_stand p code comments think).
Proof.
  intros w c H ext content Hin. cbn [fs set_fs].
  rewrite lookup_insert_ne; [now apply H|].
  intros Heq. symmetry in Heq. revert Heq. apply ext_not_done.
  eapply in_artifact_list, Hin.
Qed.

Lemma write_artifacts_stand (p code comments : list N)
    (think : option (list N)) (P : world float → Prop) :
  hoare P (write_artifacts E p code comments think)
    (fun _ w => artifacts_stand p code comments think w
                ∧ ∃ w0, P w0 ∧ translation_cache w = translation_cache w0)
    (fun _ _ => True).
Proof.
  intros w Hw.
  destruct (write_artifacts E p code comments think w) as [[[]|e] w']
    eqn:Hrun; [|easy].
  apply write_artifacts_result in Hrun. subst w'. split.
  - apply put_artifacts_has.
  - now exists w.
Qed.

(** A request that returns a translation leaves it in the cache and
    next to the input. *)
Lemma translate_file_success (p src : list N) (v : bool)
    (w0 : world float) :
  read_text E p w0 = (Ok src, w0) →
  hoare (fun w => w = w0) (translate_file E p v)
    (fun r w =>
       ∀ code comments, r = (Some code, comments) →
         ∃ think,
           translation_cache w !! md5 E src = Some (code, comments, think)
           ∧ has_artifacts p code comments think (fs w))
    (fun _ _ => True).
Proof.
  intros Hread. unfold translate_file.
  apply hoare_try with (R1 := fun _ _ => True).
  - eapply hoare_bind; [apply (hoare_run _ _ _ _ _ Hread) | intros a].
    apply hoare_pure. intros ->.
    eapply hoare_bind with (Q1 := fun c w => c = translation_cache w0
                                             ∧ w = w0);
      [now intros w -> | intros c].
    apply hoare_pure. intros ->.
    destruct (translation_cache w0 !! md5 E src)
      as [[[code0 comments0] think0]|] eqn:Hc.
    + eapply hoare_bind; [apply write_artifacts_stand | intros u].
      intros w (Hs & w1 & -> & Hcache) code comments [= <- <-].
      exists think0. split; [now rewrite Hcache | exact Hs].
    + eapply hoare_bind with (Q1 := fun _ _ => True);
        [apply hoare_any | intros prompt].
      eapply hoare_bind with (Q1 := fun _ _ => True);
        [apply hoare_any | intros out].
      set (code1 := _extract_code_block out).
      set (comments1 := _extract_comments_block out).
      set (think1 := _extract_think_block out).
      set (J := artifacts_stand p code1 comments1 think1).
      eapply hoare_bind with (Q1 := fun _ => J).
      { eapply hoare_conseq;
          [apply (write_artifacts_stand _ _ _ _ (fun _ => True))| | |];
          try easy. now intros a w [H _]. }
      intros _.
      eapply hoare_bind with (Q1 := fun _ => J).
      { assert (HK : keeps J (_update_done_db E p src)).
        { apply keeps_update_done;
            [apply artifacts_stand_stdout | apply artifacts_stand_done
            | apply artifacts_stand_file]. }
        eapply hoare_conseq; [exact HK| | |]; easy. }
      intros _.
      eapply hoare_bind
        with (Q1 := fun _ w =>
                      translation_cache w !! md5 E src
                      = Some (code1, comments1, think1) ∧ J w).
      { intros w Hw. cbn. split; [apply lookup_insert_eq | exact Hw]. }
      intros _ w [Hc1 HJ] code comments [= <- <-].
      now exists think1.
  - intros e.
    eapply hoare_bind with (Q1 := fun _ _ => True);
      [now intros w _ | intros _].
    now intros w _ code comments.
Qed.

(** A request adds at most one prompt to the log. *)
Definition at_most_one_more (c : list (list N * bool)) (w : world float)
    : Prop :=
  calls w = c ∨ ∃ x, calls w = c ++ [x].

Lemma translate_file_calls (p : list N) (v : bool)
    (c : list (list N * bool)) :
  hoare (calls_are c) (translate_file E p v)
    (fun _ => at_most_one_more c) (fun _ => at_most_one_more c).
Proof.
  assert (Hweak : ∀ A (m : M float A) c',
             (c' = c ∨ ∃ x, c' = c ++ [x]) →
             keeps (calls_are c') m →
             hoare (calls_are c') m (fun _ => at_most_one_more c)
               (fun _ => at_most_one_more c)).
  { intros A m c' Hc' Hm. eapply hoare_conseq; [exact Hm| | |]; try easy.
    - intros a w Hw. unfold calls_are in Hw. unfold at_most_one_more.
      now rewrite Hw.
    - intros a w Hw. unfold calls_are in Hw. unfold at_most_one_more.
      now rewrite Hw. }
  assert (Hone : ∀ x w, calls_are (c ++ [x]) w → at_most_one_more c w).
  { intros x w Hw. right. now exists x. }
  unfold translate_file.
  apply hoare_try with (R1 := fun _ => at_most_one_more c).
  - eapply hoare_bind with (Q1 := fun _ => calls_are c).
    { eapply hoare_conseq;
        [apply (keeps_read_text E (calls_are c))| | |]; try easy.
      intros e w Hw. now left. }
    intros src.
    eapply hoare_bind with (Q1 := fun _ => calls_are c);
      [now intros w Hw | intros cache].
    destruct (cache !! md5 E src) as [[[code comments] think]|].
    + eapply hoare_bind with (Q1 := fun _ => calls_are c).
      { eapply hoare_conseq;
          [apply (keeps_write_artifacts E (calls_are c));
           auto with prog| | |]; try easy.
        intros e w Hw. now left. }
      intros _ w Hw. now left.
    + eapply hoare_bind with (Q1 := fun _ => calls_are c).
      { eapply hoare_conseq;
          [apply (keeps_prompt E (calls_are c))| | |]; try easy.
        intros e w Hw. now left. }
      intros prompt.
      eapply hoare_bind with (Q1 := fun _ => calls_are (c ++ [(prompt, v)])).
      { eapply hoare_conseq; [apply (generation_logged _ _ _ c)| | |];
          try easy.
        intros e w Hw. now apply (Hone (prompt, v)). }
      intros out.
      eapply hoare_conseq
        with (P' := calls_are (c ++ [(prompt, v)]))
             (Q' := fun _ => calls_are (c ++ [(prompt, v)]))
             (R' := fun _ => calls_are (c ++ [(prompt, v)]));
        [| now intros w Hw | intros a w; apply Hone
         | intros a w; apply Hone].
      apply keeps_bind;
        [apply keeps_write_artifacts; auto with prog | intros _].
      apply keeps_bind;
        [apply keeps_update_done; auto with prog | intros _].
      apply keeps_bind; [now intros w Hw | intros _]. now intros w Hw.
  - intros e.
    assert (Hk : keeps (at_most_one_more c)
                   (print (py "Failed to translate " ++ p ++ py ": "
                             ++ exn_str E e))).
    { apply keeps_print. now intros w o. }
    apply keeps_bind; [exact Hk | intros _]. now intros w Hw.
Qed.

(** A request whose content is in the cache does not reach the
    backend, and replays the cached translation when the artifacts can
    be written. *)
Lemma translate_file_hit (p src code comments : list N)
    (think : option (list N)) (v : bool) (w : world float) :
  read_text E p w = (Ok src, w) →
  translation_cache w !! md5 E src = Some (code, comments, think) →
  calls (snd (translate_file E p v w)) = calls w
  ∧ (artifacts_writable (can_write E) p (fs w) →
     translate_file E p v w
     = (Ok (Some code, comments),
        set_fs (put_artifacts p code comments think (fs w)) w)).
Proof.
  intros Hread Hhit. split.
  - assert (H : hoare (fun w' => w' = w) (translate_file E p v)
                  (fun _ => calls_are (calls w))
                  (fun _ => calls_are (calls w))).
    { unfold translate_file.
      apply hoare_try with (R1 := fun _ => calls_are (calls w)).
      - eapply hoare_bind; [apply (hoare_run _ _ _ _ _ Hread) | intros a].
        apply hoare_pure. intros ->.
        eapply hoare_bind with (Q1 := fun c w' => c = translation_cache w
                                                  ∧ w' = w);
          [now intros w' -> | intros c].
        apply hoare_pure. intros ->. rewrite Hhit.
        eapply hoare_bind with (Q1 := fun _ => calls_are (calls w)).
        { eapply hoare_conseq;
            [apply (keeps_write_artifacts E (calls_are (calls w)));
             auto with prog| | |]; try easy. now intros w' ->. }
        intros _. now intros w' Hw'.
      - intros e. apply keeps_bind; [|intros _; now intros w' Hw'].
        apply keeps_print. now intros w' o. }
    specialize (H w eq_refl).
    now destruct (translate_file E p v w) as [[a|e] w'].
  - intros Hw. unfold translate_file, try_except.
    unfold bind at 1. rewrite Hread.
    unfold bind at 1. unfold get. rewrite Hhit.
    unfold bind. now rewrite (write_artifacts_ok _ _ _ _ _ Hw).
Qed.

End Replay.

(** C1, as stated, fails: two requests on files with the same content
    can reach the backend twice.  The code artifact of the first file
    cannot be written, the first request fails after its generation,
    nothing is cached, and the second request generates again; only the
    second file gets its artifacts. *)
Lemma at_most_once_counterexample :
  fs Demo.start !! Str.py "in/a.lisp" = fs Demo.start !! Str.py "in/b.lisp"
  ∧ length (calls (snd Demo.first_request)) = 1%nat
  ∧ length (calls (snd Demo.second_request)) = 2%nat
  ∧ fs (snd Demo.second_request) !! Str.py "in/a.autot" = None
  ∧ fs (snd Demo.second_request) !! Str.py "in/b.autot"
    = Some (File (Text (Str.py "(first x)"))).
Proof. vm_compute. repeat split; reflexivity. Qed.

(** C1, amended.  When a request returns a translation, it has sent at
    most one prompt to the backend, and the translation is in the cache
    under the hash of the content and next to the input.  A later
    request on a file with the same content, while that entry is in the
    cache, sends no prompt; when its artifacts can be written it returns
    the same code and comments and writes the same three contents next
    to its own input. *)
Theorem replay_from_cache {float : Type} (E : env float)
    (path1 src code comments : list N) (v1 : bool) (w w1 : world float) :
  read_text E path1 w = (Ok src, w) →
  translate_file E path1 v1 w = (Ok (Some code, comments), w1) →
  at_most_one_more (calls w) w1
  ∧ ∃ think,
      translation_cache w1 !! md5 E src = Some (code, comments, think)
      ∧ has_artifacts path1 code comments think (fs w1)
      ∧ ∀ path2 v2 w2,
          translation_cache w2 !! md5 E src = Some (code, comments, think) →
          read_text E path2 w2 = (Ok src, w2) →
          calls (snd (translate_file E path2 v2 w2)) = calls w2
          ∧ (artifacts_writable (can_write E) path2 (fs w2) →
             translate_file E path2 v2 w2
             = (Ok (Some code, comments),
                set_fs (put_artifacts path2 code comments think (fs w2)) w2)
             ∧ has_artifacts path2 code comments think
                 (put_artifacts path2 code comments think (fs w2))).
Proof.
  intros Hread Hrun. split.
  - pose proof (translate_file_calls E path1 v1 (calls w) w eq_refl) as H.
    now rewrite Hrun in H.
  - pose proof (translate_file_success E path1 src v1 w Hread w eq_refl)
      as H.
    rewrite Hrun in H. destruct (H code comments eq_refl) as (think & Hc & Ha).
    exists think. split; [exact Hc|]. split; [exact Ha|].
    intros path2 v2 w2 Hhit Hread2.
    destruct (translate_file_hit E path2 src code comments think v2 w2
                Hread2 Hhit) as [H1 H2].
    split; [exact H1|]. intros Hw. split; [now apply H2|].
    apply put_artifacts_has.
Qed.

(** C1 at a concrete run: the first request generates once and is
    cached; the second request, for the same content, generates nothing
    and returns the same translation. *)
Lemma replay_from_cache_witness :
  at_most_one_more (calls Demo.start) (snd Demo.good_first)
  ∧ calls (snd Demo.good_second) = calls (snd Demo.good_first)
  ∧ fst Demo.good_second
    = Ok (Some (Str.py "(first x)"), Str.py "car is first").
Proof.
  assert (Hread : read_text Demo.working (Str.py "in/a.lisp") Demo.start
                  = (Ok (Str.py "(car x)"), Demo.start))
    by (vm_compute; reflexivity).
  assert (Hrun : translate_file Demo.working (Str.py "in/a.lisp") false
                   Demo.start
                 = (Ok (Some (Str.py "(first x)"), Str.py "car is first"),
                    snd Demo.good_first))
    by (vm_compute; reflexivity).
  destruct (replay_from_cache _ _ _ _ _ _ _ _ Hread Hrun)
    as (H1 & think & Hc & _ & H2).
  split; [exact H1|].
  assert (Hread2 : read_text Demo.working (Str.py "in/b.lisp")
                     (snd Demo.good_first)
                   = (Ok (Str.py "(car x)"), snd Demo.good_first))
    by (vm_compute; reflexivity).
  destruct (H2 (Str.py "in/b.lisp") true _ Hc Hread2) as [H3 H4].
  split; [exact H3|].
  unfold Demo.good_second. rewrite (proj1 (H4 ltac:(
    intros ext He;
    repeat (apply elem_of_cons in He as [->|He]);
    [ | | | now apply elem_of_nil in He];
    (split; [reflexivity | vm_compute; discriminate])))).
  reflexivity.
Defined.

(** ** The ledger of processed files *)

(** Appending to the ledger. *)
Lemma append_text_run {float : Type} (E : env float) (text : list N)
    (w : world float) :
  append_text E processed_files_txt text w
  = (Ok tt,
     set_fs
       (<[processed_files_txt := File (Text (ledger_raw E w ++ text))]>
          (fs w)) w).
Proof.
  unfold append_text, bind, try_except, read_raw, modify, ret, ledger_raw.
  now destruct (fs w !! processed_files_txt) as [[|[s|d]]|].
Qed.

(** C3, as stated, fails: the engine returns a code that is not [None],
    the empty string, and the path is not appended to the ledger. *)
Lemma ledger_counterexample :
(Str.py "in/a.lisp" ∉ (∅ : gset (list N)))
  ∧ fst (translate_file Demo.mute (Str.py "in/a.lisp") false
           (announced (Str.py "in/a.lisp") Demo.start))
    = Ok (Some [], no_explanations)
  ∧ fst (process_path Demo.mute false ∅ (Str.py "in/a.lisp") Demo.start)
    = Ok ∅
  ∧ fs (snd (process_path Demo.mute false ∅ (Str.py "in/a.lisp")
               Demo.start)) !! processed_files_txt
    = None.
Proof.
  split; [apply not_elem_of_empty|]. vm_compute. repeat split; reflexivity.
Qed.

(** C3, amended.  A discovered file that is in the ledger set is
    skipped: nothing happens.  For a file that is not, the engine is
    invoked, and the path is appended to the ledger file and added to
    the set exactly when the engine returns a code that is neither
    [None] nor the empty string; otherwise the ledger file and the set
    are left as they are. *)
Theorem ledger_update {float : Type} (E : env float) (verbose : bool)
    (processed_files : gset (list N)) (path : list N) (w : world float) :
  (path ∈ processed_files →
   process_path E verbose processed_files path w = (Ok processed_files, w))
  ∧ (path ∉ processed_files →
     ∃ translated comments w1,
       translate_file E path verbose (announced path w)
       = (Ok (translated, comments), w1)
       ∧ ((∃ code, translated = Some code ∧ code ≠ []) →
          process_path E verbose processed_files path w
          = (Ok (processed_files ∪ {[path]}), ledgered E path w1))
       ∧ (translated = None ∨ translated = Some [] →
          process_path E verbose processed_files path w
          = (Ok processed_files, w1))).
Proof.
  split.
  - intros Hin. unfold process_path.
    now rewrite (bool_decide_eq_true_2 _ Hin).
  - intros Hout.
    destruct (total_elim _ (announced path w)
                (total_translate_file E path verbose))
      as ([translated comments] & w1 & Hrun).
    exists translated, comments, w1. split; [exact Hrun|].
    assert (Hstart :
      process_path E verbose processed_files path w
      = (if match translated with Some c => truthy c | None => false end
         then
           print (Str.py "Successfully translated to: "
                    ++ fst (Path.splitext path) ++ Str.py ".autot") ;;;
           print (Str.py "Comments saved to: "
                    ++ fst (Path.splitext path) ++ Str.py ".comment") ;;;
           print (Str.py "Think saved to: "
                    ++ fst (Path.splitext path)
                    ++ Str.py ".think (if provided)") ;;;
           append_text E processed_files_txt (path ++ [Str.NL]) ;;;
           ret (processed_files ∪ {[path]})
         else ret processed_files)%prog w1).
    { unfold process_path. rewrite (bool_decide_eq_false_2 _ Hout).
      unfold bind at 1 2. unfold print at 1. unfold modify.
      change (set_stdout _ w) with (announced path w).
      now rewrite Hrun. }
    rewrite Hstart. split.
    + intros (code & -> & Hcode).
      destruct code as [|c code]; [easy|]. cbn [truthy].
      unfold bind, print, modify. rewrite append_text_run.
      unfold ledgered, ledger_raw, ret.
      cbn [fs set_stdout set_fs stdout src_db trg_db done_db
             translation_cache calls].
      unfold set_fs, set_stdout.
      cbn [fs stdout src_db trg_db done_db translation_cache calls].
      rewrite <- !app_assoc. reflexivity.
    + intros [-> | ->]; reflexivity.
Qed.

(** C3 at a concrete run: a file of the ledger set, a file translated
    to a code, and a file translated to the empty string. *)
Lemma ledger_update_witness :
  process_path Demo.working false {[Str.py "in/a.lisp"]}
    (Str.py "in/a.lisp") Demo.start
  = (Ok {[Str.py "in/a.lisp"]}, Demo.start)
  ∧ fst (process_path Demo.working false ∅ (Str.py "in/a.lisp") Demo.start)
    = Ok (∅ ∪ {[Str.py "in/a.lisp"]})
  ∧ fst (process_path Demo.mute false ∅ (Str.py "in/a.lisp") Demo.start)
    = Ok ∅.
Proof.
  split; [|split].
  - apply ledger_update. now apply elem_of_singleton.
  - destruct (proj2 (ledger_update Demo.working false ∅ (Str.py "in/a.lisp")
                       Demo.start) (not_elem_of_empty _))
      as (translated & comments & w1 & Hrun & Hyes & _).
    assert (Hrun' : translate_file Demo.working (Str.py "in/a.lisp") false
                      (announced (Str.py "in/a.lisp") Demo.start)
                    = (Ok (Some (Str.py "(first x)"), Str.py "car is first"),
                       w1)).
    { rewrite Hrun. f_equal.
      pose proof (f_equal fst Hrun) as Hf. cbn [fst] in Hf.
      rewrite <- Hf. vm_compute. reflexivity. }
    rewrite Hrun in Hrun'. injection Hrun' as -> _.
    rewrite Hyes; [reflexivity|]. eexists. split; [reflexivity|easy].
  - destruct (proj2 (ledger_update Demo.mute false ∅ (Str.py "in/a.lisp")
                       Demo.start) (not_elem_of_empty _))
      as (translated & comments & w1 & Hrun & _ & Hno).
    assert (Ht : translated = Some []).
    { pose proof (f_equal fst Hrun) as Hf. cbn [fst] in Hf.
      vm_compute in Hf. now injection Hf as <- _. }
    rewrite Hno; [reflexivity | now right].
Defined.

(** ** Streaming and blocking generation *)

Section Streaming.

Context {float : Type} (E : env float).
Implicit Types (R : world float → world float → Prop).


Lemma sim_ret {A} R (a : A) : sim R (ret a) (ret a) R.
Proof. now intros w1 w2 Hw. Qed.


Lemma sim_bind {A B} R S T (m1 m2 : M float A) (k1 k2 : A → M float B) :
  sim R m1 m2 S →
  (∀ w1 w2, S w1 w2 → T w1 w2) →
  (∀ a, sim S (k1 a) (k2 a) T) →
  sim R (bind m1 k1) (bind m2 k2) T.
Proof.
  intros Hm HST Hk w1 w2 Hw. unfold bind.
  destruct (Hm w1 w2 Hw) as [H1 H2].
  destruct (m1 w1) as [[a1|e1] w1'], (m2 w2) as [[a2|e2] w2'];
    cbn in H1, H2; try discriminate.
  - injection H1 as <-. now apply Hk.
  - injection H1 as <-. split; [reflexivity | now apply HST].
Qed.


(** *** Programs that see the data only *)

Lemma blind_ret {A} (a : A) : blind (float := float) (ret a).
Proof. apply sim_ret. Qed.


Lemma blind_bind {A B} (m : M float A) (k : A → M float B) :
  blind m → (∀ a, blind (k a)) → blind (bind m k).
Proof. intros Hm Hk. now apply sim_bind with (S := same_data). Qed.







Lemma blind_for_each {A} (body : A → M float unit) (l : list A) :
  (∀ x, blind (body x)) → blind (for_each l body).
Proof.
  intros H. induction l as [|x l IH]; cbn; [apply blind_ret|].
  apply blind_bind; [apply H | intros _; exact IH].
Qed.

End Streaming.


Section StreamingEngine.

Context {float : Type} (E : env float).













End StreamingEngine.



(** ** Persistence of the stores *)

Section Persistence.

Context {float : Type} (E : env float).

Lemma table_ok_nil : table_ok (float := float) [].
Proof. intros r Hr. now apply elem_of_nil in Hr. Qed.

(** [np.array] accepts a well-formed table as it is. *)
Lemma np_array_ok (t : list (list float)) : table_ok t → np_array t = Ok t.
Proof.
  intros H. destruct t as [|r rs]; [easy|]. unfold np_array.
  assert (Hall : forallb (fun x => (length x =? length r)%nat) rs = true).
  { apply forallb_forall. intros x Hx. apply Nat.eqb_eq.
    apply (H r); [apply elem_of_cons; now left|].
    apply elem_of_cons. right. now apply list_elem_of_In. }
  now rewrite Hall.
Qed.

(** A well-formed table has no entry only when it has no row. *)
Lemma size_zero (t : list (list float)) :
  table_ok t → (size t =? 0)%nat = true → t = [].
Proof.
  intros H. destruct t as [|r rs]; [easy|].
  destruct (H r) as [Hr _]; [apply elem_of_cons; now left|].
  unfold size. cbn [List.map list_sum].
  now destruct r as [|x r].
Qed.

Lemma isdir_false (p : list N) (w : world float) :
  fs w !! p ≠ Some Dir → isdir p w = false.
Proof. unfold isdir. now destruct (fs w !! p) as [[|?]|]. Qed.

(** Saving a store, when the file can be written. *)
Lemma save_db_run (db : ctx_db float) (p : list N) (w : world float) :
  can_write E p = true → fs w !! p ≠ Some Dir →
  _save_db E db p w
  = (Ok tt, set_fs (<[p := File (Json (ctx_doc db))]> (fs w)) w).
Proof.
  intros Hc Hd. unfold _save_db, try_except, write_file.
  now rewrite Hc, (isdir_false _ _ Hd).
Qed.

(** Loading the document of a well-formed store. *)
Lemma load_db_run (db : ctx_db float) (p : list N) (w : world float) :
  table_ok (embeddings db) → table_ok (text_embeddings db) →
  fs w !! p = Some (File (Json (ctx_doc db))) →
  _load_db E p w
  = (Ok (Some {| embeddings := embeddings db;
                 samples := List.map as_loaded (samples db);
                 text_embeddings := text_embeddings db;
                 text_chunks := text_chunks db |}), w).
Proof.
  intros He Ht Hf. unfold _load_db, try_except, bind, read_json, lift, ret.
  rewrite Hf. cbn [ctx_doc j_embeddings j_text_embeddings j_samples
                     j_text_chunks from_option id].
  rewrite (np_array_ok _ He), (np_array_ok _ Ht).
  cbn [embeddings text_embeddings set_embeddings set_text_embeddings
         samples text_chunks].
  pose proof (size_zero _ He) as H1. pose proof (size_zero _ Ht) as H2.
  destruct (size (embeddings db) =? 0)%nat;
    cbn [embeddings text_embeddings set_embeddings set_text_embeddings
           samples text_chunks];
    destruct (size (text_embeddings db) =? 0)%nat;
    cbn [embeddings text_embeddings set_embeddings set_text_embeddings
           samples text_chunks];
    rewrite ?H1, ?H2 by reflexivity; rewrite List.map_map;
    reflexivity.
Qed.

(** Saving the history, when the file can be written. *)
Lemma save_done_run (w : world float) :
  can_write E done_db_json = true → fs w !! done_db_json ≠ Some Dir →
  _save_done_db E w
  = (Ok tt,
     set_fs (<[done_db_json := File (Json (hist_doc (done_db w)))]> (fs w))
       w).
Proof.
  intros Hc Hd. unfold _save_done_db, try_except, bind, get, write_file.
  now rewrite Hc, (isdir_false _ _ Hd).
Qed.

(** Loading the document of a well-formed history. *)
Lemma load_done_run (d : hist_db float) (w : world float) :
  table_ok (h_embeddings d) →
  fs w !! done_db_json = Some (File (Json (hist_doc d))) →
  _load_done_db E w
  = (Ok tt,
     set_done_db
       {| h_embeddings := h_embeddings d;
          h_samples := List.map as_loaded (h_samples d);
          h_text_embeddings := h_text_embeddings (done_db w);
          h_text_chunks := h_text_chunks (done_db w);
          h_filepaths := h_filepaths d |} w).
Proof.
  intros He Hf.
  unfold _load_done_db, bind, get, exists_, try_except, read_json, lift,
    update_done, modify, ret.
  rewrite Hf. cbv beta. rewrite Hf.
  cbn [hist_doc j_embeddings j_samples j_filepaths from_option id].
  rewrite (np_array_ok _ He).
  cbn [done_db set_done_db h_embeddings set_h_embeddings set_h_samples
         set_h_filepaths h_samples h_filepaths h_text_embeddings
         h_text_chunks fs].
  pose proof (size_zero _ He) as H1.
  destruct (size (h_embeddings d) =? 0)%nat;
    unfold set_done_db;
    cbn [done_db h_embeddings set_h_embeddings set_h_samples
           set_h_filepaths h_samples h_filepaths h_text_embeddings
           h_text_chunks fs src_db trg_db translation_cache calls stdout];
    rewrite ?H1 by reflexivity; rewrite List.map_map; reflexivity.
Qed.

End Persistence.


(** What a round trip gives back.  For every store whose vector
    tables have non-empty rows of one width, persisting it and loading
    from that file, when the file can be written, gives a store and not
    the no-store result; its vector tables and text chunks are those of
    the store before, and its items are those of the store before with
    every tuple turned into the list of the same elements; strings and
    lists come back as they were.  The same holds for the history store
    and its file paths. *)
Theorem persist_load_roundtrip {float : Type} (E : env float) :
  (∀ (db : ctx_db float) path w,
     can_write E path = true → fs w !! path ≠ Some Dir →
     table_ok (embeddings db) → table_ok (text_embeddings db) →
     ∃ w1 db',
       _save_db E db path w = (Ok tt, w1)
       ∧ _load_db E path w1 = (Ok (Some db'), w1)
       ∧ embeddings db' = embeddings db
       ∧ text_embeddings db' = text_embeddings db
       ∧ text_chunks db' = text_chunks db
       ∧ samples db' = List.map as_loaded (samples db))
  ∧ (∀ w : world float,
       can_write E done_db_json = true → fs w !! done_db_json ≠ Some Dir →
       table_ok (h_embeddings (done_db w)) →
       ∃ w1 w2,
         _save_done_db E w = (Ok tt, w1)
         ∧ _load_done_db E w1 = (Ok tt, w2)
         ∧ h_embeddings (done_db w2) = h_embeddings (done_db w)
         ∧ h_filepaths (done_db w2) = h_filepaths (done_db w)
         ∧ h_samples (done_db w2)
           = List.map as_loaded (h_samples (done_db w)))
  ∧ (∀ l, as_loaded (ITuple l) = IList l)
  ∧ (∀ l, as_loaded (IList l) = IList l)
  ∧ (∀ s, as_loaded (IStr s) = IStr s).
Proof.
  split; [|split; [|now repeat split]].
  - intros db path w Hc Hd He Ht.
    eexists. eexists. split; [now apply save_db_run|].
    split; [apply (load_db_run E db);
            [exact He | exact Ht | apply lookup_insert_eq]|].
    now repeat split.
  - intros w Hc Hd He.
    eexists. eexists. split; [now apply save_done_run|].
    split; [apply (load_done_run E (done_db w));
            [exact He | apply lookup_insert_eq]|].
    now repeat split.
Qed.

(** A table of one row that is not empty is well formed. *)
Lemma table_ok_one {float : Type} (x : float) (r : list float) :
  table_ok [x :: r].
Proof.
  intros r0 Hr. apply list_elem_of_singleton in Hr. subst r0.
  split; [easy|]. intros r' Hr'.
  apply list_elem_of_singleton in Hr'. now subst r'.
Qed.

(** The round trip of a concrete store and of a concrete history. *)
Lemma persist_load_roundtrip_witness :
  (∃ w1 db',
     _save_db Demo.working Demo.store (Str.py "src_db.json") Demo.start
     = (Ok tt, w1)
     ∧ _load_db Demo.working (Str.py "src_db.json") w1 = (Ok (Some db'), w1)
     ∧ embeddings db' = embeddings Demo.store
     ∧ text_embeddings db' = text_embeddings Demo.store
     ∧ text_chunks db' = text_chunks Demo.store
     ∧ samples db' = List.map as_loaded (samples Demo.store))
  ∧ (∃ w1 w2,
       _save_done_db Demo.working Demo.with_history = (Ok tt, w1)
       ∧ _load_done_db Demo.working w1 = (Ok tt, w2)
       ∧ h_embeddings (done_db w2) = h_embeddings (done_db Demo.with_history)
       ∧ h_filepaths (done_db w2) = h_filepaths (done_db Demo.with_history)
       ∧ h_samples (done_db w2)
         = List.map as_loaded (h_samples (done_db Demo.with_history))).
Proof.
  destruct (persist_load_roundtrip Demo.working) as (H1 & H2 & _).
  split.
  - apply H1; [reflexivity | vm_compute; discriminate
              | apply table_ok_one | apply table_ok_one].
  - apply H2; [reflexivity | vm_compute; discriminate | apply table_ok_one].
Defined.

(** ** Alignment of the stores *)

Section Alignment.

Context {float : Type} (E : env float).
Hypothesis encode_nonempty : ∀ s v, encode E s = Ok v → v ≠ [].

Lemma add_row_ok (t t' : list (list float)) (v : list float) :
  table_ok t → v ≠ [] → add_row t v = Ok t' →
  table_ok t' ∧ length t' = S (length t).
Proof.
  intros Ht Hv. destruct t as [|r t]; cbn.
  - intros [= <-]. split; [|easy]. destruct v as [|x v]; [easy|].
    apply table_ok_one.
  - unfold vstack. destruct (length r =? length v)%nat eqn:Hw; [|easy].
    apply Nat.eqb_eq in Hw. intros [= <-]. split.
    + assert (Hall : ∀ r0, r0 ∈ (r :: t) ++ [v] →
                     r0 ≠ [] ∧ length r0 = length r).
      { intros r0 Hr0. apply elem_of_app in Hr0 as [Hr0|Hr0].
        - destruct (Ht r0 Hr0) as [Hn _]. split; [exact Hn|].
          apply (Ht r); [apply elem_of_cons; now left | exact Hr0].
        - apply list_elem_of_singleton in Hr0. now subst r0. }
      intros r0 Hr0. destruct (Hall r0 Hr0) as [Hn Hl].
      split; [exact Hn|]. intros r' Hr'.
      destruct (Hall r' Hr') as [_ Hl']. congruence.
    + cbn. rewrite length_app. cbn. lia.
Qed.

Lemma ctx_ok_empty : ctx_ok (float := float) empty_ctx_db.
Proof. split; [now split | split; apply table_ok_nil]. Qed.

Lemma hist_ok_empty : hist_ok (float := float) empty_hist_db.
Proof. split; [now repeat split | apply table_ok_nil]. Qed.

(** The invariant [the store r is aligned]. *)
Definition store_ok (r : db_ref) (w : world float) : Prop :=
  ctx_ok (db_of r w).

Lemma store_ok_fs r : ignores_fs (store_ok r).
Proof. intros w f. now destruct r. Qed.

Lemma store_ok_stdout r : ignores_stdout (store_ok r).
Proof. intros w f. now destruct r. Qed.

(** One pair keeps the store aligned, also when an embedding or a
    stacking fails. *)
Lemma add_pair_ok (r : db_ref) (pair : list N * list N) :
  keeps (store_ok r) (add_pair E r pair).
Proof.
  destruct pair as [code context]. intros w Hw.
  unfold add_pair, try_except, bind, lift, get, update_db, modify, print.
  destruct (encode E code) as [v1|e1] eqn:H1;
    [|now apply store_ok_stdout].
  destruct (encode E context) as [v2|e2] eqn:H2;
    [|now apply store_ok_stdout].
  pose proof Hw as ((Hs & Hc) & He & Ht).
  destruct (add_row (embeddings (db_of r w)) v1) as [e|e] eqn:H3;
    [|now apply store_ok_stdout].
  destruct (add_row_ok _ _ _ He (encode_nonempty _ _ H1) H3) as [He' Hl].
  assert (Hmid : ctx_ok
            (set_samples (samples (db_of r w) ++ [ITuple [code; context]])
               (set_embeddings e (db_of r w)))).
  { split; [split|split]; cbn; try easy. rewrite length_app. cbn. lia. }
  destruct r; cbn [db_of src_db trg_db set_src_db set_trg_db] in *.
  - cbn [text_embeddings set_samples set_embeddings].
    destruct (add_row (text_embeddings (src_db w)) v2) as [te|e'] eqn:H4.
    + destruct (add_row_ok _ _ _ Ht (encode_nonempty _ _ H2) H4)
        as [Ht' Hl'].
      unfold store_ok. cbn. split; [split|split]; cbn;
        first [easy | rewrite !length_app; cbn; lia].
    + apply store_ok_stdout. exact Hmid.
  - cbn [text_embeddings set_samples set_embeddings].
    destruct (add_row (text_embeddings (trg_db w)) v2) as [te|e'] eqn:H4.
    + destruct (add_row_ok _ _ _ Ht (encode_nonempty _ _ H2) H4)
        as [Ht' Hl'].
      unfold store_ok. cbn. split; [split|split]; cbn;
        first [easy | rewrite !length_app; cbn; lia].
    + apply store_ok_stdout. exact Hmid.
Qed.

(** One chunk keeps the store aligned. *)
Lemma add_chunk_ok (r : db_ref) (chunk : list N) :
  keeps (store_ok r) (add_chunk E r chunk).
Proof.
  intros w Hw.
  unfold add_chunk, try_except, bind, lift, get, update_db, modify, print.
  destruct (encode E chunk) as [v|e1] eqn:H1;
    [|now apply store_ok_stdout].
  pose proof Hw as ((Hs & Hc) & He & Ht).
  destruct (add_row (text_embeddings (db_of r w)) v) as [te|e] eqn:H3;
    [|now apply store_ok_stdout].
  destruct (add_row_ok _ _ _ Ht (encode_nonempty _ _ H1) H3) as [Ht' Hl].
  destruct r; unfold store_ok; cbn [db_of] in *; cbn;
    (split; [split|split]); cbn;
    first [easy | rewrite !length_app; cbn; lia].
Qed.

(** After a full rebuild the store is aligned. *)
Lemma build_ok (p : list N) (r : db_ref) (w : world float) :
  store_ok r (snd (_build_enhanced_database E p r w)).
Proof.
  unfold _build_enhanced_database.
  match goal with
  | |- context [bind (update_db r (set_text_chunks [])) ?k] => set (rest := k)
  end.
  assert (Hk : keeps (store_ok r) (rest tt)).
  { subst rest. cbv beta.
    apply keeps_bind; [apply keeps_get | intros is_dir].
    apply keeps_bind.
    { destruct is_dir;
        [apply keeps_process_directory | apply keeps_extract_text];
        apply store_ok_stdout. }
    intros content. destruct (negb (truthy (strip content))).
    - apply keeps_print, store_ok_stdout.
    - destruct (_process_doc_content content) as [pairs chunks].
      apply keeps_bind; [|intros _].
      + apply keeps_for_each. intros pair. apply add_pair_ok.
      + apply keeps_for_each. intros chunk. apply add_chunk_ok. }
  unfold bind at 1 2 3 4. unfold update_db at 1 2 3 4. unfold modify.
  apply (keeps_snd _ _ _ Hk).
  destruct r; apply ctx_ok_empty.
Qed.

Lemma as_loaded_length (l : list item) :
  length (List.map as_loaded l) = length l.
Proof. apply length_map. Qed.

(** Loading a persisted store gives an aligned store. *)
Lemma load_persisted (p : list N) (w : world float) :
  persisted_ctx p w →
  ∃ db, _load_db E p w = (Ok (Some db), w) ∧ ctx_ok db.
Proof.
  intros (d & ((Hs & Hc) & He & Ht) & Hf).
  eexists. split; [now apply (load_db_run E d)|].
  split; [split|split]; cbn; try easy. now rewrite as_loaded_length.
Qed.

(** Saving an aligned store leaves a persisted store. *)
Lemma save_persisted (db : ctx_db float) (p : list N) (w : world float) :
  ctx_ok db → can_write E p = true → fs w !! p ≠ Some Dir →
  persisted_ctx p (snd (_save_db E db p w)).
Proof.
  intros Hdb Hc Hd. rewrite (save_db_run E db p w Hc Hd).
  exists db. split; [exact Hdb|]. cbn. apply lookup_insert_eq.
Qed.

(** Load-or-rebuild leaves the store aligned. *)
Lemma prepare_one_ok (r : db_ref) (p : list N) (w : world float) :
  fs w !! p = None ∨ persisted_ctx p w →
  store_ok r (snd (prepare_one E r p w)).
Proof.
  intros Hp. unfold prepare_one.
  assert (Hrebuild : ∀ said w0,
    store_ok r
      (snd ((_build_enhanced_database E
               (match r with
                | Src => src_docs_path E
                | Trg => trg_docs_path E
                end) r ;;;
             db <- get (db_of r) ;;
             _save_db E db p ;;;
             print (said ++ match r with
                            | Src => Str.py "source"
                            | Trg => Str.py "target"
                            end
                      ++ Str.py " context DB to: " ++ p))%prog w0))).
  { intros said w0. apply hoare_snd with (P := fun _ => True); [|easy].
    eapply hoare_bind with (Q1 := fun _ => store_ok r).
    - intros w1 _.
      match goal with
      | |- context [_build_enhanced_database E ?docs r w1] =>
          pose proof (build_ok docs r w1) as H;
          now destruct (_build_enhanced_database E docs r w1) as [[?|?] ?]
      end.
    - intros _. apply keeps_bind; [apply keeps_get | intros db].
      apply keeps_bind;
        [apply keeps_save_db; [apply store_ok_fs | apply store_ok_stdout]
        | intros _].
      apply keeps_print, store_ok_stdout. }
  unfold bind at 1. unfold get at 1. unfold exists_.
  destruct Hp as [Hp | Hp].
  - rewrite Hp. unfold bind at 1. unfold print at 1. unfold modify.
    apply Hrebuild.
  - destruct (load_persisted p w Hp) as (db & Hl & Hdb).
    destruct Hp as (d & _ & Hf). rewrite Hf.
    unfold bind at 1. rewrite Hl.
    unfold bind, update_db, modify, print.
    destruct r; exact Hdb.
Qed.

(** The invariant [the history is aligned]. *)
Definition history_ok (w : world float) : Prop := hist_ok (done_db w).

Lemma history_ok_fs : ignores_fs history_ok.
Proof. now intros w f. Qed.

Lemma history_ok_stdout : ignores_stdout history_ok.
Proof. now intros w f. Qed.

Lemma history_ok_calls : ignores_calls history_ok.
Proof. now intros w f. Qed.

(** Loading a persisted history, or none, leaves the history
    aligned. *)
Lemma load_done_ok (w : world float) :
  history_ok w →
  fs w !! done_db_json = None ∨ persisted_hist done_db_json w →
  history_ok (snd (_load_done_db E w)).
Proof.
  intros Hw [Hf | (d & (Hd & He) & Hf)].
  - unfold _load_done_db, bind, get, exists_. now rewrite Hf.
  - rewrite (load_done_run E d w He Hf). unfold history_ok. cbn.
    destruct Hd as (H1 & H2 & _). destruct Hw as ((_ & _ & H3) & _).
    split; [split; [|split]|]; cbn; try easy;
      now rewrite as_loaded_length.
Qed.

(** A single-item append keeps the history aligned, also when the
    embedding, the stacking or the saving fails. *)
Lemma update_done_ok (filepath source_code : list N) :
  keeps history_ok (_update_done_db E filepath source_code).
Proof.
  intros w Hw. unfold _update_done_db, try_except.
  unfold bind at 1. unfold lift at 1.
  destruct (encode E (_preprocess_code source_code)) as [v|e] eqn:H1;
    [|now apply history_ok_stdout].
  unfold bind at 1. unfold get at 1. unfold bind at 1. unfold lift at 1.
  pose proof Hw as ((Hs & Hp & Ht) & He).
  destruct (add_row (h_embeddings (done_db w)) v) as [e|e] eqn:H3;
    [|now apply history_ok_stdout].
  destruct (add_row_ok _ _ _ He (encode_nonempty _ _ H1) H3) as [He' Hl].
  unfold bind at 1 2 3. unfold update_done at 1 2 3. unfold modify.
  match goal with
  | |- context [_save_done_db E ?w3] =>
      assert (H3' : history_ok w3);
      [|pose proof (keeps_save_done E history_ok history_ok_stdout
                      (ignores_fs_done_file _ history_ok_fs) w3 H3') as Hsave;
        destruct (_save_done_db E w3) as [[a|e'] w4];
        [exact Hsave | now apply history_ok_stdout]]
  end.
  unfold history_ok. cbn.
  split; [split; [|split]|]; cbn; try easy;
    rewrite !length_app; cbn; lia.
Qed.

End Alignment.



(** ** The engine and the orchestrator keep what they do not touch *)

Section EngineFrame.

Context {float : Type} (E : env float) (I : world float → Prop).
Hypothesis Hfs : ignores_fs I.
Hypothesis Hout : ignores_stdout I.
Hypothesis Hcalls : ignores_calls I.
Hypothesis Hcache : ignores_cache I.
Hypothesis Hupdate : ∀ p src, keeps I (_update_done_db E p src).

Lemma keeps_translate_file (p : list N) (v : bool) :
  keeps I (translate_file E p v).
Proof.
  unfold translate_file.
  apply keeps_try; [|intros e; apply keeps_bind;
                     [now apply keeps_print | intros _; apply keeps_ret]].
  apply keeps_bind; [now apply keeps_read_text | intros src].
  apply keeps_bind; [apply keeps_get | intros cache].
  destruct (cache !! md5 E src) as [[[code comments] think]|].
  - apply keeps_bind; [now apply keeps_write_artifacts | intros _].
    apply keeps_ret.
  - apply keeps_bind; [apply keeps_prompt | intros prompt].
    apply keeps_bind.
    { destruct v; [now apply keeps_generate_streaming
                  | now apply keeps_generate_blocking]. }
    intros out.
    apply keeps_bind; [now apply keeps_write_artifacts | intros _].
    apply keeps_bind; [apply Hupdate | intros _].
    apply keeps_bind; [apply keeps_modify; intros w Hw; now apply Hcache
                      | intros _].
    apply keeps_ret.
Qed.

Lemma keeps_process_path (v : bool) (done : gset (list N)) (p : list N) :
  keeps I (process_path E v done p).
Proof.
  unfold process_path. destruct (bool_decide (p ∈ done)); [apply keeps_ret|].
  apply keeps_bind; [now apply keeps_print | intros _].
  apply keeps_bind; [apply keeps_translate_file | intros [translated c]].
  destruct (match translated with Some c0 => truthy c0 | None => false end);
    [|apply keeps_ret].
  do 3 (apply keeps_bind; [now apply keeps_print | intros _]).
  apply keeps_bind; [|intros _; apply keeps_ret].
  unfold append_text.
  apply keeps_bind.
  - apply keeps_try; [apply keeps_read_raw | intros e; apply keeps_ret].
  - intros old. apply keeps_modify. intros w Hw. now apply Hfs.
Qed.

Lemma keeps_translate_directory (d : list N) (v : bool) :
  keeps I (translate_directory E d v).
Proof.
  unfold translate_directory.
  apply keeps_bind; [apply keeps_get | intros ex].
  destruct (negb ex); [now apply keeps_print|].
  apply keeps_bind; [apply keeps_get | intros all_files].
  apply keeps_bind;
    [apply keeps_write_file; intros w Hw; now apply Hfs | intros _].
  apply keeps_bind; [apply keeps_get | intros ex2].
  apply keeps_bind.
  { destruct ex2; [|apply keeps_ret].
    apply keeps_bind; [now apply keeps_read_text | intros t].
    apply keeps_ret. }
  intros done.
  apply keeps_bind;
    [apply keeps_open_append; intros w f Hw; now apply Hfs | intros _].
  apply keeps_bind; [|intros _; apply keeps_ret].
  apply keeps_fold_files. intros acc x. apply keeps_process_path.
Qed.

End EngineFrame.

Section NormalForms.
Import Norm.

Lemma uncomment_skip (t : list N) :
  Forall (fun c => c ≠ NL) t → ∀ rest,
  uncomment true (t ++ rest) = uncomment true rest.
Proof.
  induction 1 as [|a t Ha _ IH]; intros rest; [easy|]. cbn.
  apply N.eqb_neq in Ha. rewrite Ha. apply IH.
Qed.

Lemma uncomment_comment (s t rest : list N) :
  Forall (fun c => c ≠ NL) t →
  (rest = [] ∨ ∃ u, rest = NL :: u) → ∀ b,
  uncomment b (s ++ 59 :: t ++ rest) = uncomment b (s ++ rest).
Proof.
  intros Ht Hrest. induction s as [|a s IH]; intros b.
  - cbn [app]. assert (H1 : uncomment b (59 :: t ++ rest)
                            = uncomment true rest).
    { destruct b; cbn; apply (uncomment_skip _ Ht). }
    rewrite H1. destruct Hrest as [-> | [u ->]]; [now destruct b|].
    now destruct b.
  - cbn. destruct b.
    + destruct (a =? NL); now rewrite IH.
    + destruct (a =? 59); now rewrite IH.
Qed.

Lemma uncomment_app_clean (s : list N) :
  Forall (fun c => c ≠ 59) s → ∀ rest,
  uncomment false (s ++ rest) = s ++ uncomment false rest.
Proof.
  induction 1 as [|a s Ha _ IH]; intros rest; [easy|]. cbn.
  apply N.eqb_neq in Ha. rewrite Ha. now rewrite IH.
Qed.

Lemma isspace_not_semicolon (c : N) : isspace c = true → c ≠ 59.
Proof. intros H ->. discriminate. Qed.

Lemma blank_clean (a : list N) : blank a → Forall (fun c => c ≠ 59) a.
Proof.
  intros H. eapply Forall_impl; [exact H|].
  intros c. apply isspace_not_semicolon.
Qed.

Lemma squeeze_blank (a : list N) :
  blank a → ∀ b rest,
  squeeze b (a ++ rest)
  = match a with
    | [] => squeeze b rest
    | _ => (if b then [] else [SP]) ++ squeeze true rest
    end.
Proof.
  induction 1 as [|c a Hc Ha IH]; intros b rest; [easy|].
  cbn. rewrite Hc. destruct b.
  - rewrite IH. now destruct a.
  - rewrite IH. now destruct a.
Qed.

Lemma squeeze_layout (s a b rest : list N) :
  blank a → blank b → a ≠ [] → b ≠ [] → ∀ f,
  squeeze f (s ++ a ++ rest) = squeeze f (s ++ b ++ rest).
Proof.
  intros Ha Hb Na Nb. induction s as [|c s IH]; intros f.
  - cbn [app]. rewrite (squeeze_blank _ Ha), (squeeze_blank _ Hb).
    destruct a; [easy|]. now destruct b.
  - cbn. destruct (isspace c); [destruct f|]; now rewrite IH.
Qed.

End NormalForms.

(** X1.  The results of source normalisation are exactly its fixed
    points: every result holds no semicolon, has no whitespace at its
    ends and has, as whitespace, only single spaces between two other
    characters; and a text of that shape is returned as it is. *)
Theorem preprocess_code_normal_form (s : list N) :
  normalised (_preprocess_code s)
  ∧ (_preprocess_code s = s ↔ normalised s).
Proof.
  assert (Hn : ∀ t, normalised (_preprocess_code t)).
  { intros t. rewrite preprocess_passes. split; [|split].
    - apply rstrip_clean, lstrip_clean, squeeze_clean, uncomment_clean.
    - apply rstrip_spaced, lstrip_spaced, squeeze_spaced.
    - apply rstrip_idem. }
  split; [apply Hn|]. split.
  - intros H. rewrite <- H. apply Hn.
  - intros (Hc & Hs & Hr). rewrite preprocess_passes.
    rewrite (uncomment_id _ Hc).
    rewrite (squeeze_id _ _ (spaced_weaken _ Hs)).
    unfold strip. now rewrite (lstrip_id _ Hs).
Qed.

(** X2.  The text of a line comment does not count: a semicolon and
    what follows it up to the end of its line can be removed from a
    source, in the middle of it or at its end, without changing the
    normalised source. *)
Theorem comment_text_is_dropped (s t u : list N) :
  Forall (fun c => c ≠ NL) t →
  _preprocess_code (s ++ 59 :: t ++ NL :: u) = _preprocess_code (s ++ NL :: u)
  ∧ _preprocess_code (s ++ 59 :: t) = _preprocess_code s.
Proof.
  intros Ht. rewrite !preprocess_passes. split.
  - rewrite (uncomment_comment s t (NL :: u) Ht); [easy|]. right. now exists u.
  - pose proof (uncomment_comment s t [] Ht (or_introl eq_refl) false) as H.
    rewrite !app_nil_r in H. now rewrite H.
Qed.

Lemma comment_text_is_dropped_witness :
  _preprocess_code (py "(a)" ++ 59 :: py " first" ++ NL :: py "(b)")
  = _preprocess_code (py "(a)" ++ NL :: py "(b)")
  ∧ _preprocess_code (py "(a)" ++ 59 :: py " first") = _preprocess_code (py "(a)").
Proof.
  apply (comment_text_is_dropped (py "(a)") (py " first") (py "(b)")).
  repeat constructor; discriminate.
Defined.

(** X3.  The layout outside comments does not count: where a source
    holds a run of whitespace after a part without semicolon, any other
    run of whitespace there gives the same normalised source. *)
Theorem layout_is_dropped (s a b u : list N) :
  Forall (fun c => c ≠ 59) s → blank a → blank b → a ≠ [] → b ≠ [] →
  _preprocess_code (s ++ a ++ u) = _preprocess_code (s ++ b ++ u).
Proof.
  intros Hs Ha Hb Na Nb. rewrite !preprocess_passes.
  rewrite !(uncomment_app_clean _ Hs).
  rewrite (uncomment_app_clean _ (blank_clean _ Ha)).
  rewrite (uncomment_app_clean _ (blank_clean _ Hb)).
  now rewrite (squeeze_layout s a b _ Ha Hb Na Nb).
Qed.

Lemma layout_is_dropped_witness :
  _preprocess_code (py "(a" ++ [NL; SP; SP] ++ py "b) ; c")
  = _preprocess_code (py "(a" ++ [SP] ++ py "b) ; c").
Proof.
  apply (layout_is_dropped (py "(a") [NL; SP; SP] [SP] (py "b) ; c")).
  - repeat constructor; discriminate.
  - repeat constructor.
  - repeat constructor.
  - discriminate.
  - discriminate.
Defined.

(** ** What the parser returns *)

Section Parts.
Import Block.

Lemma part_of_refl (s : list N) : part_of s s.
Proof. exists [], []. now rewrite app_nil_r. Qed.

Lemma part_of_trans (a b c : list N) : part_of a b → part_of b c → part_of a c.
Proof.
  intros (p1 & q1 & ->) (p2 & q2 & ->).
  exists (p2 ++ p1), (q1 ++ q2). now rewrite <- !app_assoc.
Qed.

Lemma lstrip_suffix (s : list N) : ∃ a, s = a ++ lstrip s.
Proof.
  induction s as [|c s [a IH]]; [now exists []|]. cbn.
  destruct (isspace c); [|now exists []].
  exists (c :: a). cbn. now rewrite <- IH.
Qed.

Lemma rstrip_prefix (s : list N) : ∃ b, s = rstrip s ++ b.
Proof.
  induction s as [|c s [b IH]]; [now exists []|]. cbn.
  destruct (rstrip s) as [|d r] eqn:Hr.
  - destruct (isspace c); [now exists (c :: s)|]. exists s. easy.
  - exists b. cbn. f_equal. exact IH.
Qed.

Lemma strip_part (s : list N) : part_of (strip s) s.
Proof.
  destruct (lstrip_suffix s) as [a Ha].
  destruct (rstrip_prefix (lstrip s)) as [b Hb].
  exists a, b. unfold strip. now rewrite <- Hb.
Qed.

Lemma lstrip_head (s : list N) :
  lstrip s = [] ∨ ∃ c r, lstrip s = c :: r ∧ isspace c = false.
Proof.
  induction s as [|c s IH]; [now left|]. cbn.
  destruct (isspace c) eqn:Hc; [exact IH|]. right. now exists c, s.
Qed.

Lemma rstrip_head (c : N) (r : list N) :
  isspace c = false → ∃ r', rstrip (c :: r) = c :: r'.
Proof.
  intros Hc. cbn. destruct (rstrip r); [|eauto].
  rewrite Hc. eauto.
Qed.

Lemma strip_idem (s : list N) : strip (strip s) = strip s.
Proof.
  unfold strip. destruct (lstrip_head s) as [-> | (c & r & -> & Hc)]; [easy|].
  destruct (rstrip_head c r Hc) as [r' Hr]. rewrite Hr.
  cbn [lstrip]. rewrite Hc. rewrite <- Hr. apply rstrip_idem.
Qed.

(** A group found by a search stands in the text between an opening
    and a closing. *)
Lemma block_group (open close : list N) (s g : list N) :
  Re.block open close s = Some g →
  ∃ o c post, s = o ++ g ++ c ++ post ∧ matches open o ∧ matches close c.
Proof.
  unfold Re.block. destruct (Re.lit_ci open s) as [body|] eqn:Ho; [|easy].
  intros Hg. apply lit_ci_split in Ho as (o & -> & Hm).
  apply lazy_until_split in Hg as (c & post & -> & Hc).
  now exists o, c, post.
Qed.

Lemma search_group (open close : list N) : ∀ s g,
  Re.search (Re.block open close) s = Some g →
  ∃ pre o c post,
    s = pre ++ o ++ g ++ c ++ post ∧ matches open o ∧ matches close c.
Proof.
  induction s as [|a s IH]; intros g; cbn.
  - destruct (Re.block open close []) eqn:Hb; [|easy]. intros [= ->].
    apply block_group in Hb as (o & c & post & H & Ho & Hc).
    now exists [], o, c, post.
  - destruct (Re.block open close (a :: s)) eqn:Hb.
    + intros [= ->].
      apply block_group in Hb as (o & c & post & H & Ho & Hc).
      now exists [], o, c, post.
    + intros H. apply IH in H as (pre & o & c & post & -> & Ho & Hc).
      now exists (a :: pre), o, c, post.
Qed.

Lemma search_part (open close s g : list N) :
  Re.search (Re.block open close) s = Some g → part_of g s.
Proof.
  intros H. apply search_group in H as (pre & o & c & post & -> & _ & _).
  exists (pre ++ o), (c ++ post). now rewrite <- !app_assoc.
Qed.

End Parts.

(** X4.  The parser invents no text: the code it returns is a
    contiguous part of the response, the reasoning, when there is one,
    is too, and the comments are a contiguous part of the response or
    the placeholder. *)
Theorem parsed_text_is_part_of_response (text : list N) :
  part_of (_extract_code_block text) text
  ∧ (∀ z, _extract_think_block text = Some z → part_of z text)
  ∧ (part_of (_extract_comments_block text) text
     ∨ _extract_comments_block text = no_explanations).
Proof.
  split; [|split].
  - unfold _extract_code_block.
    destruct (Re.search _ text) as [g|] eqn:Hg; [|apply strip_part].
    eapply part_of_trans; [apply strip_part | eapply search_part, Hg].
  - unfold _extract_think_block. intros z.
    destruct (Re.search (Re.block Re.think_open _) text) as [g|] eqn:Hg.
    + intros [= <-].
      eapply part_of_trans; [apply strip_part | eapply search_part, Hg].
    + destruct (Re.search (Re.block Re.think_fence_open _) text)
        as [g|] eqn:Hg2; [|easy].
      intros [= <-].
      eapply part_of_trans; [apply strip_part | eapply search_part, Hg2].
  - unfold _extract_comments_block.
    destruct (Re.search _ text) as [g|] eqn:Hg; [left | now right].
    eapply part_of_trans; [apply strip_part | eapply search_part, Hg].
Qed.

(** X5.  What the parser returns has no whitespace at its ends: the
    code, the comments and the reasoning are left unchanged by a
    further trimming. *)
Theorem parsed_text_is_trimmed (text : list N) :
  strip (_extract_code_block text) = _extract_code_block text
  ∧ strip (_extract_comments_block text) = _extract_comments_block text
  ∧ (∀ z, _extract_think_block text = Some z → strip z = z).
Proof.
  split; [|split].
  - unfold _extract_code_block.
    destruct (Re.search _ text); apply strip_idem.
  - unfold _extract_comments_block.
    destruct (Re.search _ text); [apply strip_idem | reflexivity].
  - unfold _extract_think_block. intros z.
    destruct (Re.search (Re.block Re.think_open _) text).
    + intros [= <-]. apply strip_idem.
    + destruct (Re.search (Re.block Re.think_fence_open _) text); [|easy].
      intros [= <-]. apply strip_idem.
Qed.

(** X6.  The parser finds no reasoning exactly when the response holds
    neither a think tag that is closed later nor a fence labelled think
    that is closed later, whatever the case of the letters; and the
    reasoning comes from the tag whenever the response holds one that
    is closed. *)
Theorem think_block_presence (text : list N) :
  (_extract_think_block text = None
   ↔ ¬ Block.has_block Re.think_open Re.think_close text
     ∧ ¬ Block.has_block Re.think_fence_open Re.fence_close text)
  ∧ (Block.has_block Re.think_open Re.think_close text →
     ∃ pre o g c post,
       text = pre ++ o ++ g ++ c ++ post
       ∧ Block.matches Re.think_open o ∧ Block.matches Re.think_close c
       ∧ _extract_think_block text = Some (strip g)).
Proof.
  split; [split|].
  - unfold _extract_think_block. intros H.
    destruct (Re.search (Re.block Re.think_open _) text) eqn:H1; [easy|].
    destruct (Re.search (Re.block Re.think_fence_open _) text) eqn:H2;
      [easy|].
    split; now apply absent_search.
  - intros [H1 H2]. unfold _extract_think_block.
    now rewrite (search_absent _ _ _ H1), (search_absent _ _ _ H2).
  - intros H. apply search_complete in H as [g Hg].
    destruct (search_group _ _ _ _ Hg) as (pre & o & c & post & Ht & Ho & Hc).
    exists pre, o, g, c, post. unfold _extract_think_block. now rewrite Hg.
Qed.

(** ** What the segmenter returns *)

Section Scans.

Context {A : Type} (m : Re.matcher A).

(** A match reported by a scan is a match of the expression at some
    place of the subject. *)
Lemma scan_hit (a : A) : ∀ s skip b,
  Re.Hit a ∈ Re.scan m skip b s →
  ∃ b' pre s' n, s = pre ++ s' ∧ m b' s' = Some (a, n).
Proof.
  induction s as [|c s IH]; intros skip b; cbn; [now intros ?%elem_of_nil|].
  destruct skip as [|k].
  - destruct (m b (c :: s)) as [[a' n]|] eqn:Hm.
    + intros [H | H]%elem_of_cons.
      * injection H as <-. now exists b, [], (c :: s), n.
      * apply IH in H as (b' & pre & s' & n' & -> & H).
        now exists b', (c :: pre), s', n'.
    + intros [H | H]%elem_of_cons; [easy|].
      apply IH in H as (b' & pre & s' & n' & -> & H).
      now exists b', (c :: pre), s', n'.
  - intros H. apply IH in H as (b' & pre & s' & n' & -> & H).
    now exists b', (c :: pre), s', n'.
Qed.

Lemma findall_hit (a : A) (s : list N) :
  a ∈ Re.findall m s →
  ∃ b' pre s' n, s = pre ++ s' ∧ m b' s' = Some (a, n).
Proof.
  unfold Re.findall. intros H. apply list_elem_of_omap in H as (t & Ht & Ha).
  destruct t as [c|a']; [easy|]. injection Ha as ->.
  eapply scan_hit, Ht.
Qed.

(** Without a match anywhere, a scan reports none. *)
Lemma scan_no_hit (P : list N → Prop) :
  (∀ c s, P (c :: s) → P s) → (∀ b s, P s → m b s = None) →
  ∀ s skip b, P s → Re.findall m s = [] ∧
    omap (fun t => match t with Re.Lit _ => None | Re.Hit a => Some a end)
      (Re.scan m skip b s) = [].
Proof.
  intros Htl Hnone. unfold Re.findall.
  assert (H : ∀ s skip b, P s →
    omap (fun t => match t with Re.Lit _ => None | Re.Hit a => Some a end)
      (Re.scan m skip b s) = []).
  { induction s as [|c s IH]; intros skip b Hs; [easy|]. cbn.
    destruct skip as [|k]; [|apply IH; eapply Htl, Hs].
    rewrite (Hnone _ _ Hs). cbn. apply IH. eapply Htl, Hs. }
  intros s skip b Hs. split; now apply H.
Qed.

(** The pieces between the matches are contiguous parts of the
    subject; the first one starts it when the scan starts outside a
    match. *)
Lemma pieces_scan : ∀ s skip b,
  ∃ p0 ps, Re.pieces (Re.scan m skip b s) = p0 :: ps
    ∧ (skip = O → ∃ post, s = p0 ++ post)
    ∧ Forall (fun p => part_of p s) (p0 :: ps).
Proof.
  induction s as [|c s IH]; intros skip b; cbn.
  - exists [], []. split; [easy|]. split; [now exists []|].
    constructor; [apply part_of_refl | constructor].
  - assert (Hup : ∀ l, Forall (fun p => part_of p s) l →
                       Forall (fun p => part_of p (c :: s)) l).
    { intros l Hl. eapply Forall_impl; [exact Hl|].
      intros p (pre & post & ->). now exists (c :: pre), post. }
    destruct skip as [|k].
    + destruct (m b (c :: s)) as [[a n]|]; cbn.
      * destruct (IH (Nat.pred n) false) as (p0 & ps & -> & _ & Hall).
        exists [], (p0 :: ps). split; [easy|]. split; [now exists (c :: s)|].
        constructor; [now exists [], (c :: s) | now apply Hup].
      * destruct (IH O false) as (p0 & ps & -> & Hpre & Hall).
        destruct (Hpre eq_refl) as [post Hpost].
        exists (c :: p0), ps. split; [easy|].
        split; [exists post; cbn; now rewrite <- Hpost|].
        apply Forall_cons in Hall as [_ Hall]. constructor; [|now apply Hup].
        exists [], post. cbn. now rewrite <- Hpost.
    + destruct (IH k false) as (p0 & ps & -> & _ & Hall).
      exists p0, ps. split; [easy|]. split; [easy|]. now apply Hup.
Qed.

Lemma split_parts (s p : list N) : p ∈ Re.split m s → part_of p s.
Proof.
  unfold Re.split. destruct (pieces_scan s O true) as (p0 & ps & -> & _ & H).
  intros Hp. rewrite Forall_forall in H. now apply H.
Qed.

End Scans.

Section Segments.

Lemma rstrip_last (l : list N) (c : N) :
  isspace c = false → rstrip (l ++ [c]) = l ++ [c].
Proof.
  intros Hc. induction l as [|a l IH]; cbn; [now rewrite Hc|].
  rewrite IH. now destruct l.
Qed.

Lemma to_close_shape : ∀ s x,
  Re.to_close_at_line_end s = Some x →
  ∃ body post, x = body ++ [41] ∧ s = x ++ post.
Proof.
  induction s as [|c s IH]; intros x; cbn; [easy|].
  destruct ((c =? 41) && Re.at_line_end s) eqn:Hc.
  - intros [= <-]. apply andb_true_iff in Hc as [Hc _].
    apply N.eqb_eq in Hc. subst c. now exists [], s.
  - destruct (Re.to_close_at_line_end s) as [y|]; [|easy].
    intros [= <-]. destruct (IH y eq_refl) as (body & post & -> & ->).
    exists (c :: body), post. split; [easy|]. cbn. now rewrite <- !app_assoc.
Qed.

Lemma code_span_shape (s g : list N) :
  Re.code_span s = Some g →
  ∃ body post, g = 40 :: body ++ [41] ∧ s = g ++ post.
Proof.
  destruct s as [|c s]; cbn; [easy|].
  destruct (c =? 40) eqn:Hc; [|easy]. apply N.eqb_eq in Hc. subst c.
  destruct (Re.to_close_at_line_end s) as [x|] eqn:Hx; [|easy].
  intros [= <-]. apply to_close_shape in Hx as (body & post & -> & ->).
  now exists body, post.
Qed.

Lemma drop_while_suffix (f : N → bool) (s : list N) :
  ∃ pre, s = pre ++ drop_while f s.
Proof.
  induction s as [|c s [pre IH]]; [now exists []|]. cbn.
  destruct (f c); [|now exists []]. exists (c :: pre). cbn. now f_equal.
Qed.

Lemma strip_prefix_suffix (p : list N) : ∀ s r,
  strip_prefix p s = Some r → ∃ pre, s = pre ++ r.
Proof.
  induction p as [|x p IH]; intros s r; cbn.
  - intros [= ->]. now exists [].
  - destruct s as [|y s]; [easy|]. destruct (x =? y); [|easy].
    intros H. apply IH in H as [pre ->]. now exists (y :: pre).
Qed.

Lemma after_label_suffix (s r : list N) :
  Re.after_label s = Some r → ∃ pre, s = pre ++ r.
Proof.
  unfold Re.after_label. destruct s as [|c s]; [easy|].
  destruct (c =? 59); [|easy].
  set (s0 := c :: s).
  destruct (drop_while_suffix (N.eqb 59) s0) as [p1 H1].
  destruct (drop_while_suffix isspace (drop_while (N.eqb 59) s0)) as [p2 H2].
  destruct (strip_prefix _ _) as [s3|] eqn:H3; [|easy].
  apply strip_prefix_suffix in H3 as [p3 H3].
  intros [= <-].
  assert (H4 : ∃ p4, s3 = p4 ++ match s3 with
                                | d :: r0 => if d =? 58 then r0 else s3
                                | [] => s3
                                end).
  { destruct s3 as [|d r0]; [now exists []|].
    destruct (d =? 58); [now exists [d] | now exists []]. }
  destruct H4 as [p4 H4].
  destruct (drop_while_suffix isspace
              (match s3 with
               | d :: r0 => if d =? 58 then r0 else s3
               | [] => s3
               end)) as [p5 H5].
  exists (p1 ++ p2 ++ p3 ++ p4 ++ p5).
  rewrite <- !app_assoc, <- H5, <- H4, <- H3, <- H2. exact H1.
Qed.

Lemma labelled_span_shape (s g : list N) (n : nat) :
  Re.labelled_span s = Some (g, n) →
  (∃ body, g = 40 :: body ++ [41]) ∧ part_of g s.
Proof.
  unfold Re.labelled_span.
  assert (Hplain : ∀ g0 n0,
    match Re.code_span s with
    | Some g1 => Some (g1, length g1)
    | None => None
    end = Some (g0, n0) →
    (∃ body, g0 = 40 :: body ++ [41]) ∧ part_of g0 s).
  { intros g0 n0. destruct (Re.code_span s) as [g1|] eqn:Hg; [|easy].
    intros [= <- _]. apply code_span_shape in Hg as (body & post & -> & ->).
    split; [now exists body | now exists [], post]. }
  destruct (Re.after_label s) as [r|] eqn:Hr; [|apply Hplain].
  destruct (Re.code_span r) as [g1|] eqn:Hg; [|apply Hplain].
  intros [= <- _]. apply after_label_suffix in Hr as [pre ->].
  apply code_span_shape in Hg as (body & post & -> & ->).
  split; [now exists body | now exists pre, post].
Qed.

Lemma code_block_shape (b : bool) (s g : list N) (n : nat) :
  Re.m_code_block b s = Some (g, n) →
  (∃ body, g = 40 :: body ++ [41]) ∧ part_of g s.
Proof.
  unfold Re.m_code_block.
  assert (Hnl : ∀ g0 n0,
    match s with
    | c :: s' =>
        if c =? NL then
          match Re.labelled_span s' with
          | Some (g1, n1) => Some (g1, S n1)
          | None => None
          end
        else None
    | [] => None
    end = Some (g0, n0) →
    (∃ body, g0 = 40 :: body ++ [41]) ∧ part_of g0 s).
  { intros g0 n0. destruct s as [|c s']; [easy|].
    destruct (c =? NL); [|easy].
    destruct (Re.labelled_span s') as [[g1 n1]|] eqn:Hl; [|easy].
    intros [= <- _]. apply labelled_span_shape in Hl as [Hb (pre & post & ->)].
    split; [exact Hb | now exists (c :: pre), post]. }
  destruct b; [|apply Hnl].
  destruct (Re.labelled_span s) as [[g1 n1]|] eqn:Hl; [|apply Hnl].
  intros [= <- _]. eapply labelled_span_shape, Hl.
Qed.

(** A span in parentheses is not changed by trimming. *)
Lemma strip_span (body : list N) :
  strip (40 :: body ++ [41]) = 40 :: body ++ [41].
Proof.
  unfold strip. cbn [lstrip]. change (isspace 40) with false. cbv iota.
  change (40 :: body ++ [41]) with ((40 :: body) ++ [41]).
  now apply rstrip_last.
Qed.

(** The words of a text hold no whitespace. *)
Lemma split_spaceless (s : list N) :
  Forall (Forall (fun c => isspace c = false)) (split s).
Proof.
  induction s as [|c s IH]; cbn; [constructor|].
  destruct (isspace c) eqn:Hc; [exact IH|].
  destruct s as [|d s']; [now repeat constructor|].
  destruct (isspace d) eqn:Hd.
  - constructor; [now repeat constructor | exact IH].
  - destruct (split (d :: s')) as [|w ws]; [now repeat constructor|].
    apply Forall_cons in IH as [Hw Hws].
    constructor; [now constructor | exact Hws].
Qed.

Lemma join_spaces (ws : list (list N)) :
  Forall (Forall (fun c => isspace c = false)) ws →
  Forall (fun c => isspace c = true → c = SP) (join [SP] ws).
Proof.
  induction 1 as [|w ws Hw Hws IH]; cbn; [constructor|].
  assert (Hw' : Forall (fun c => isspace c = true → c = SP) w).
  { eapply Forall_impl; [exact Hw|]. intros c Hc. now rewrite Hc. }
  destruct ws as [|w2 ws]; [exact Hw'|].
  apply Forall_app. split; [exact Hw'|].
  constructor; [easy | exact IH].
Qed.

Lemma part_of_Forall (P : N → Prop) (g s : list N) :
  part_of g s → Forall P s → Forall P g.
Proof.
  intros (pre & post & ->) H.
  apply Forall_app in H as [_ H]. now apply Forall_app in H as [H _].
Qed.

Lemma section_pairs_shape (section code ctx : list N) :
  (code, ctx) ∈ section_pairs section →
  (∃ body, code = 40 :: body ++ [41]) ∧ part_of code section
  ∧ strip ctx = ctx ∧ Forall (fun c => isspace c = true → c = SP) ctx.
Proof.
  unfold section_pairs.
  destruct (Re.findall Re.m_code_block section) as [|g0 gs] eqn:Hf;
    [now intros ?%elem_of_nil|].
  rewrite <- Hf. intros H.
  apply list_elem_of_omap in H as (g & Hg & Hsome).
  apply findall_hit in Hg as (b & pre & s' & n & -> & Hm).
  apply code_block_shape in Hm as [[body ->] (p1 & p2 & ->)].
  rewrite strip_span in Hsome. cbn [truthy] in Hsome.
  injection Hsome as <- <-.
  split; [now exists body|]. split.
  - exists (pre ++ p1), p2. now rewrite <- !app_assoc.
  - split; [apply strip_idem|].
    eapply part_of_Forall; [apply strip_part|].
    apply join_spaces, split_spaceless.
Qed.

End Segments.

(** X7.  Every pair that the segmenter extracts from a documentation
    text holds, as its code, a contiguous part of the text that starts
    with an opening parenthesis and ends with a closing one, and, as
    its context, a text without whitespace at its ends in which every
    whitespace is a space: a context runs on one line. *)
Theorem extracted_pairs_shape (text code ctx : list N) :
  (code, ctx) ∈ _extract_code_context_pairs text →
  (∃ body, code = 40 :: body ++ [41]) ∧ part_of code text
  ∧ strip ctx = ctx ∧ Forall (fun c => isspace c = true → c = SP) ctx.
Proof.
  unfold _extract_code_context_pairs. intros H.
  apply list_elem_of_In, in_concat in H as (l & Hl & H).
  apply in_map_iff in Hl as (section & <- & Hs).
  apply list_elem_of_In in H, Hs.
  apply section_pairs_shape in H as (Hb & Hp & Hc).
  split; [exact Hb|]. split; [|exact Hc].
  eapply part_of_trans; [exact Hp | eapply split_parts, Hs].
Qed.

Lemma extracted_pairs_shape_witness :
  (∃ body, py "(foo 1 2)" = 40 :: body ++ [41])
  ∧ part_of (py "(foo 1 2)") Examples.segmenter_input_by_line
  ∧ strip (py "Does foo.") = py "Does foo."
  ∧ Forall (fun c => isspace c = true → c = SP) (py "Does foo.").
Proof.
  apply (extracted_pairs_shape Examples.segmenter_input_by_line).
  vm_compute. left.
Defined.

Section Chunks.

Lemma split_lstrip (s : list N) : split (lstrip s) = split s.
Proof.
  induction s as [|c s IH]; [easy|]. cbn [lstrip].
  destruct (isspace c) eqn:Hc; [|easy]. cbn [split]. now rewrite Hc.
Qed.

Lemma rstrip_nil_split (s : list N) : rstrip s = [] → split s = [].
Proof.
  induction s as [|c s IH]; [easy|]. cbn.
  destruct (rstrip s) as [|d r]; [|easy].
  destruct (isspace c); [|easy]. intros _. now apply IH.
Qed.

Lemma rstrip_nil_head (d : N) (s : list N) :
  rstrip (d :: s) = [] → isspace d = true.
Proof.
  cbn. destruct (rstrip s); [|easy]. now destruct (isspace d).
Qed.

Lemma split_cons (c : N) (s : list N) :
  split (c :: s)
  = if isspace c then split s
    else match s with
         | [] => [[c]]
         | d :: _ =>
             if isspace d then [c] :: split s
             else match split s with
                  | w :: ws => (c :: w) :: ws
                  | [] => [[c]]
                  end
         end.
Proof. reflexivity. Qed.

Lemma split_rstrip (s : list N) : split (rstrip s) = split s.
Proof.
  induction s as [|c s IH]; [easy|]. cbn [rstrip].
  destruct (rstrip s) as [|d r] eqn:Hr.
  - pose proof (rstrip_nil_split s Hr) as Hs.
    destruct (isspace c) eqn:Hc; cbn; rewrite Hc; [now rewrite Hs|].
    destruct s as [|e s']; [easy|].
    now rewrite (rstrip_nil_head _ _ Hr), Hs.
  - destruct (rstrip_prefix s) as [b Hb]. rewrite Hr in Hb.
    destruct s as [|e s']; [easy|]. injection Hb as -> Hb.
    rewrite (split_cons c (d :: r)), (split_cons c (d :: s')).
    destruct (isspace c); [exact IH|].
    destruct (isspace d); now rewrite IH.
Qed.

Lemma split_strip (s : list N) : split (strip s) = split s.
Proof. unfold strip. now rewrite split_rstrip, split_lstrip. Qed.

End Chunks.

(** X8.  Every text chunk that the segmenter returns has no whitespace
    at its ends and more than five words. *)
Theorem text_chunks_shape (content chunk : list N) :
  chunk ∈ snd (_process_doc_content content) →
  strip chunk = chunk ∧ (5 < length (split chunk))%nat.
Proof.
  unfold _process_doc_content. cbn [snd]. intros H.
  apply list_elem_of_omap in H as (raw & _ & H).
  destruct (truthy (strip raw) && (5 <? length (split raw))%nat) eqn:Hc;
    [|easy].
  injection H as <-. apply andb_true_iff in Hc as [_ Hc].
  split; [apply strip_idem|]. rewrite split_strip.
  now apply Nat.ltb_lt.
Qed.

Lemma text_chunks_shape_witness :
  strip (py "bar baz qux quux corge grault")
  = py "bar baz qux quux corge grault"
  ∧ (5 < length (split (py "bar baz qux quux corge grault")))%nat.
Proof.
  apply (text_chunks_shape Examples.segmenter_input_by_line).
  vm_compute. left.
Defined.

Section NoParenthesis.

Lemma code_block_needs_parenthesis (b : bool) (s : list N) :
  40 ∉ s → Re.m_code_block b s = None.
Proof.
  intros H. destruct (Re.m_code_block b s) as [[g n]|] eqn:Hm; [|easy].
  apply code_block_shape in Hm as [[body ->] (pre & post & ->)].
  destruct H. apply elem_of_app. right. apply elem_of_app. left.
  apply list_elem_of_here.
Qed.

End NoParenthesis.

(** X9.  A documentation text without an opening parenthesis yields no
    pair. *)
Theorem no_parenthesis_no_pairs (text : list N) :
  40 ∉ text → fst (_process_doc_content text) = [].
Proof.
  intros H. cbn. unfold _extract_code_context_pairs.
  apply concat_nil_Forall, Forall_map, Forall_forall.
  intros section Hs. apply split_parts in Hs as (pre & post & ->).
  unfold section_pairs.
  assert (Hf : Re.findall Re.m_code_block section = []); [|now rewrite Hf].
  apply (scan_no_hit Re.m_code_block (fun s => 40 ∉ s)) with (skip := O)
    (b := true).
  - intros c s Hc Hin. apply Hc. now apply list_elem_of_further.
  - intros b s. apply code_block_needs_parenthesis.
  - intros Hin. apply H. apply elem_of_app. right. apply elem_of_app. now left.
Qed.

Lemma no_parenthesis_no_pairs_witness :
  fst (_process_doc_content (py "bar baz qux quux corge grault")) = [].
Proof.
  apply no_parenthesis_no_pairs. vm_compute.
  intros H. repeat (apply elem_of_cons in H as [H | H]; [discriminate|]).
  now apply elem_of_nil in H.
Defined.

(** ** Reading the documentation *)

Section OnlyPrints.

Context {float : Type} (E : env float).

Lemma printed_nil (w : world float) : printed [] w = w.
Proof. unfold printed, set_stdout. destruct w; cbn. now rewrite app_nil_r. Qed.

Lemma printed_app (l1 l2 : list (list N)) (w : world float) :
  printed l2 (printed l1 w) = printed (l1 ++ l2) w.
Proof. unfold printed, set_stdout. cbn. now rewrite app_assoc. Qed.

Lemma only_prints_same {A} (m : M float A) :
  (∀ w, snd (m w) = w) → only_prints m.
Proof. intros H w. exists []. now rewrite H, printed_nil. Qed.

Lemma only_prints_ret {A} (a : A) : only_prints (float := float) (ret a).
Proof. now apply only_prints_same. Qed.

Lemma only_prints_get {A} (f : world float → A) : only_prints (get f).
Proof. now apply only_prints_same. Qed.

Lemma only_prints_lift {A} (r : res A) : only_prints (float := float) (lift r).
Proof. now apply only_prints_same. Qed.

Lemma only_prints_print (l : list N) : only_prints (float := float) (print l).
Proof. intros w. now exists [l ++ [NL]]. Qed.

Lemma only_prints_read_raw (p : list N) : only_prints (read_raw E p).
Proof.
  apply only_prints_same. intros w. unfold read_raw.
  now destruct (fs w !! p) as [[|[s|d]]|].
Qed.

Lemma only_prints_bind {A B} (m : M float A) (k : A → M float B) :
  only_prints m → (∀ a, only_prints (k a)) → only_prints (bind m k).
Proof.
  intros Hm Hk w. unfold bind. destruct (Hm w) as [l1 H1].
  destruct (m w) as [[a|e] w1]; cbn in H1; subst w1; [|now exists l1].
  destruct (Hk a (printed l1 w)) as [l2 H2]. exists (l1 ++ l2).
  now rewrite H2, printed_app.
Qed.

Lemma only_prints_try {A} (m : M float A) (h : exn → M float A) :
  only_prints m → (∀ e, only_prints (h e)) → only_prints (try_except m h).
Proof.
  intros Hm Hh w. unfold try_except. destruct (Hm w) as [l1 H1].
  destruct (m w) as [[a|e] w1]; cbn in H1; subst w1; [now exists l1|].
  destruct (Hh e (printed l1 w)) as [l2 H2]. exists (l1 ++ l2).
  now rewrite H2, printed_app.
Qed.

Lemma only_prints_fold_files {A B} (body : A → B → M float A) (l : list B) :
  (∀ acc x, only_prints (body acc x)) →
  ∀ acc, only_prints (fold_files body acc l).
Proof.
  intros H. induction l as [|x l IH]; intros acc; cbn;
    [apply only_prints_ret|].
  apply only_prints_bind; [apply H | exact IH].
Qed.

Lemma only_prints_read_text (p : list N) : only_prints (read_text E p).
Proof.
  apply only_prints_bind; [apply only_prints_read_raw|].
  intros s. apply only_prints_ret.
Qed.

End OnlyPrints.

Ltac only_prints_auto :=
  repeat lazymatch goal with
    | |- only_prints (ret _) => apply only_prints_ret
    | |- only_prints (get _) => apply only_prints_get
    | |- only_prints (lift _) => apply only_prints_lift
    | |- only_prints (print _) => apply only_prints_print
    | |- only_prints (read_raw _ _) => apply only_prints_read_raw
    | |- only_prints (read_text _ _) => apply only_prints_read_text
    | |- only_prints (bind _ _) => apply only_prints_bind; [|intros ?]
    | |- only_prints (try_except _ _) => apply only_prints_try; [|intros ?]
    | |- only_prints (fold_files _ _ _) =>
        apply only_prints_fold_files; intros ? ?
    | |- only_prints (if ?b then _ else _) => destruct b
    end.

Section Reading.

Context {float : Type} (E : env float).

Lemma extract_text_only_prints (p : list N) :
  only_prints (_extract_text_from_file E p).
Proof. unfold _extract_text_from_file. only_prints_auto. Qed.

Lemma collect_file_only_prints (acc : list (list N)) (p : list N) :
  only_prints (collect_file E acc p).
Proof.
  unfold collect_file. only_prints_auto.
  apply extract_text_only_prints.
Qed.

Lemma process_directory_only_prints (p : list N) :
  only_prints (_process_directory E p).
Proof.
  unfold _process_directory. only_prints_auto.
  - apply collect_file_only_prints.
  - apply extract_text_only_prints.
Qed.

Lemma extract_text_run (path : list N) (w : world float) :
  ∃ text lines,
    _extract_text_from_file E path w = (Ok text, printed lines w).
Proof.
  destruct (total_elim _ w (total_extract_text E path)) as (a & w' & H).
  destruct (extract_text_only_prints path w) as [lines Hl].
  rewrite H in Hl. cbn in Hl. subst w'. now exists a, lines.
Qed.

Lemma process_directory_run (path : list N) (w : world float) :
  ∃ text lines, _process_directory E path w = (Ok text, printed lines w).
Proof.
  destruct (total_elim _ w (total_process_directory E path)) as (a & w' & H).
  destruct (process_directory_only_prints path w) as [lines Hl].
  rewrite H in Hl. cbn in Hl. subst w'. now exists a, lines.
Qed.

End Reading.

(** X10.  Reading the documentation only reads: whatever the path holds
    and whatever fails, the reading of a file and the reading of a
    directory return a text, raise nothing, and leave the files, the
    three stores, the cache and the log of the backend as they were;
    they only print. *)
Theorem reading_only_reads {float : Type} (E : env float) (path : list N)
    (w : world float) :
  (∃ text lines,
     _extract_text_from_file E path w = (Ok text, printed lines w))
  ∧ (∃ text lines,
       _process_directory E path w = (Ok text, printed lines w)).
Proof.
  split.
  - destruct (extract_text_run E path w) as (text & lines & H).
    exists text, lines. exact H.
  - destruct (process_directory_run E path w) as (text & lines & H).
    exists text, lines. exact H.
Qed.

(** ** The content of a store after a build *)

Section BuildContent.

Context {float : Type} (E : env float) (vec : list N → list float).
Hypothesis encode_total : ∀ s, encode E s = Ok (vec s).
Hypothesis encode_width : ∀ s t, length (vec s) = length (vec t).

Lemma add_row_fits (t : list (list float)) (s : list N) :
  fits vec t → add_row t (vec s) = Ok (t ++ [vec s]) ∧ fits vec (t ++ [vec s]).
Proof.
  intros Ht. split.
  - destruct t as [|row t]; [easy|]. cbn. unfold vstack.
    apply Forall_cons in Ht as [Hr _].
    rewrite Hr, (encode_width [] s). now rewrite Nat.eqb_refl.
  - apply Forall_app. split; [exact Ht|]. constructor; [|constructor].
    apply encode_width.
Qed.

Lemma db_of_with_store (r : db_ref) (d : ctx_db float) (w : world float) :
  db_of r (with_store r d w) = d.
Proof. now destruct r. Qed.

Lemma with_store_twice (r : db_ref) (d d' : ctx_db float) (w : world float) :
  with_store r d' (with_store r d w) = with_store r d' w.
Proof. now destruct r. Qed.

Lemma with_store_printed (r : db_ref) (d : ctx_db float)
    (lines : list (list N)) (w : world float) :
  with_store r d (printed lines w) = printed lines (with_store r d w).
Proof. now destruct r. Qed.

Lemma add_pair_run (r : db_ref) (code context : list N) (d : ctx_db float)
    (w : world float) :
  fits vec (embeddings d) → fits vec (text_embeddings d) →
  add_pair E r (code, context) (with_store r d w)
  = (Ok tt, with_store r (grow vec d ([(code, context)], [])) w).
Proof.
  intros He Ht.
  destruct (add_row_fits _ code He) as [H1 _].
  destruct (add_row_fits _ context Ht) as [H2 _].
  unfold add_pair, try_except, bind, lift, get, update_db, modify.
  rewrite !encode_total, db_of_with_store, H1.
  destruct r; cbn; rewrite H2; reflexivity.
Qed.

Lemma add_chunk_run (r : db_ref) (chunk : list N) (d : ctx_db float)
    (w : world float) :
  fits vec (text_embeddings d) →
  add_chunk E r chunk (with_store r d w)
  = (Ok tt, with_store r (grow vec d ([], [chunk])) w).
Proof.
  intros Ht. destruct (add_row_fits _ chunk Ht) as [H2 _].
  unfold add_chunk, try_except, bind, lift, get, update_db, modify.
  rewrite !encode_total, db_of_with_store, H2.
  destruct r; destruct d; unfold grow, store_of; cbn; rewrite !app_nil_r;
    reflexivity.
Qed.

Lemma grow_pair (d : ctx_db float) (p : list N * list N)
    (ps : list (list N * list N)) :
  grow vec (grow vec d ([p], [])) (ps, []) = grow vec d (p :: ps, []).
Proof. unfold grow, store_of. cbn. now rewrite <- !app_assoc. Qed.

Lemma grow_chunk (d : ctx_db float) (c : list N) (cs : list (list N)) :
  grow vec (grow vec d ([], [c])) ([], cs) = grow vec d ([], c :: cs).
Proof. unfold grow, store_of. cbn. now rewrite <- !app_assoc. Qed.

Lemma grow_nothing (d : ctx_db float) : grow vec d ([], []) = d.
Proof. unfold grow, store_of. destruct d. cbn. now rewrite !app_nil_r. Qed.

Lemma grow_fits (d : ctx_db float)
    (seg : list (list N * list N) * list (list N)) :
  fits vec (embeddings d) → fits vec (text_embeddings d) →
  fits vec (embeddings (grow vec d seg))
  ∧ fits vec (text_embeddings (grow vec d seg)).
Proof.
  intros He Ht. unfold grow, store_of, fits. cbn.
  split; (apply Forall_app; split; [easy|]); apply Forall_map, Forall_forall;
    intros x _; apply encode_width.
Qed.

Lemma add_pairs_run (r : db_ref) (pairs : list (list N * list N)) :
  ∀ (d : ctx_db float) (w : world float),
    fits vec (embeddings d) → fits vec (text_embeddings d) →
    for_each pairs (add_pair E r) (with_store r d w)
    = (Ok tt, with_store r (grow vec d (pairs, [])) w).
Proof.
  induction pairs as [|[code context] pairs IH]; intros d w He Ht.
  - cbn [for_each]. unfold ret. now rewrite grow_nothing.
  - cbn [for_each]. unfold bind at 1.
    rewrite (add_pair_run _ _ _ _ _ He Ht).
    destruct (grow_fits d ([(code, context)], []) He Ht) as [He' Ht'].
    rewrite <- (with_store_twice r d). rewrite (IH _ _ He' Ht').
    now rewrite with_store_twice, grow_pair.
Qed.

Lemma add_chunks_run (r : db_ref) (chunks : list (list N)) :
  ∀ (d : ctx_db float) (w : world float),
    fits vec (text_embeddings d) →
    for_each chunks (add_chunk E r) (with_store r d w)
    = (Ok tt, with_store r (grow vec d ([], chunks)) w).
Proof.
  induction chunks as [|chunk chunks IH]; intros d w Ht.
  - cbn [for_each]. unfold ret. now rewrite grow_nothing.
  - cbn [for_each]. unfold bind at 1.
    rewrite (add_chunk_run _ _ _ _ Ht).
    assert (Ht' : fits vec (text_embeddings (grow vec d ([], [chunk])))).
    { unfold grow, store_of, fits. cbn. apply Forall_app. split; [easy|].
      constructor; [apply encode_width | constructor]. }
    rewrite <- (with_store_twice r d). rewrite (IH _ _ Ht').
    now rewrite with_store_twice, grow_chunk.
Qed.

Lemma grow_both (pairs : list (list N * list N)) (chunks : list (list N)) :
  grow vec (grow vec empty_ctx_db (pairs, [])) ([], chunks)
  = store_of vec (pairs, chunks).
Proof.
  unfold grow, store_of. cbn. rewrite !app_nil_r. now rewrite map_app.
Qed.

Lemma build_unfold (doc_path : list N) (r : db_ref) (w : world float) :
  _build_enhanced_database E doc_path r w
  = bind (read_docs E doc_path)
      (fun content =>
         if negb (truthy (strip content)) then
           print (py "Warning: No content extracted from " ++ doc_path)
         else
           let '(code_context_pairs, text_chunks) :=
             _process_doc_content content in
           bind (for_each code_context_pairs (add_pair E r))
             (fun _ => for_each text_chunks (add_chunk E r)))
      (with_store r empty_ctx_db w).
Proof. destruct r; reflexivity. Qed.

Lemma read_docs_run (doc_path : list N) (w : world float) :
  ∃ content lines, read_docs E doc_path w = (Ok content, printed lines w).
Proof.
  unfold read_docs, bind, get.
  destruct (isdir doc_path w);
    [apply process_directory_run | apply extract_text_run].
Qed.

End BuildContent.

(** X11.  A build stores exactly the segmentation of the documentation
    it reads.  With an encoder that answers every text by a vector of
    one width, the build empties the store, reads the documentation
    path and, when the text is not blank, leaves in the store the pairs
    of the text in order as samples with the vectors of their codes,
    and, as text chunks with their vectors, the contexts of the pairs
    followed by the standalone chunks; when the text is blank it prints
    a warning and leaves the store empty.  Nothing else changes but the
    printed lines. *)
Theorem build_stores_the_segmentation {float : Type} (E : env float)
    (vec : list N → list float) (doc_path : list N) (r : db_ref)
    (w : world float) :
  (∀ s, encode E s = Ok (vec s)) →
  (∀ s t, length (vec s) = length (vec t)) →
  ∃ content lines,
    read_docs E doc_path (with_store r empty_ctx_db w)
    = (Ok content, printed lines (with_store r empty_ctx_db w))
    ∧ _build_enhanced_database E doc_path r w
      = (Ok tt,
         if truthy (strip content) then
           printed lines
             (with_store r (store_of vec (_process_doc_content content)) w)
         else
           printed
             (lines ++ [py "Warning: No content extracted from "
                          ++ doc_path ++ [NL]])
             (with_store r empty_ctx_db w)).
Proof.
  intros Henc Hwidth.
  destruct (read_docs_run E doc_path (with_store r empty_ctx_db w))
    as (content & lines & Hread).
  exists content, lines. split; [exact Hread|].
  rewrite build_unfold. unfold bind at 1. rewrite Hread.
  destruct (truthy (strip content)); cbn [negb].
  - destruct (_process_doc_content content) as [pairs chunks] eqn:Hseg.
    rewrite <- with_store_printed. unfold bind.
    rewrite (add_pairs_run E vec Henc Hwidth); [|constructor|constructor].
    destruct (grow_fits vec Hwidth empty_ctx_db (pairs, []))
      as [_ Ht]; [constructor|constructor|].
    rewrite <- (with_store_twice r empty_ctx_db).
    rewrite (add_chunks_run E vec Henc Hwidth _ _ _ _ Ht).
    now rewrite !with_store_twice, grow_both, with_store_printed.
  - unfold print, modify. now rewrite <- printed_app.
Qed.

Lemma build_stores_the_segmentation_witness :
  ∃ content lines,
    read_docs Demo.working (py "src_docs.txt")
      (with_store Src empty_ctx_db documented)
    = (Ok content, printed lines (with_store Src empty_ctx_db documented))
    ∧ _build_enhanced_database Demo.working (py "src_docs.txt") Src documented
      = (Ok tt,
         if truthy (strip content) then
           printed lines
             (with_store Src
                (store_of (fun _ => [1%Z; 2%Z; 3%Z])
                   (_process_doc_content content))
                documented)
         else
           printed
             (lines ++ [py "Warning: No content extracted from "
                          ++ py "src_docs.txt" ++ [NL]])
             (with_store Src empty_ctx_db documented)).
Proof.
  apply (build_stores_the_segmentation Demo.working
           (fun _ => [1%Z; 2%Z; 3%Z])); reflexivity.
Defined.

(** ** The history after one more translation *)

(** X12.  An update of the history is all or nothing, and is never
    fatal.  It returns normally from every state; it leaves the history
    and the files as they were, or it appends together one vector, the
    normalised source and the file path, and then the history file is
    either left as it was, when it cannot be written, or holds exactly
    the history in memory.  The context stores, the cache and the log
    of the backend are not touched. *)
Theorem history_update_is_atomic {float : Type} (E : env float)
    (filepath source_code : list N) (w : world float) :
  ∃ w', _update_done_db E filepath source_code w = (Ok tt, w')
    ∧ same_but_history w w'
    ∧ ((done_db w' = done_db w ∧ fs w' = fs w)
       ∨ ∃ v t,
           encode E (_preprocess_code source_code) = Ok v
           ∧ add_row (h_embeddings (done_db w)) v = Ok t
           ∧ done_db w' = recorded (done_db w) t filepath source_code
           ∧ (fs w' = fs w
              ∨ fs w'
                = <[done_db_json := File (Json (hist_doc (done_db w')))]>
                    (fs w))).
Proof.
  unfold _update_done_db, try_except.
  unfold bind at 1. unfold lift at 1.
  destruct (encode E (_preprocess_code source_code)) as [v|e] eqn:H1;
    [|eexists; split; [reflexivity|]; split; [easy | now left]].
  unfold bind at 1. unfold get at 1. unfold bind at 1. unfold lift at 1.
  destruct (add_row (h_embeddings (done_db w)) v) as [t|e] eqn:H2;
    [|eexists; split; [reflexivity|]; split; [easy | now left]].
  unfold bind at 1 2 3. unfold update_done at 1 2 3. unfold modify.
  unfold _save_done_db, try_except, bind, get, write_file.
  destruct (can_write E done_db_json && negb (isdir done_db_json _));
    (eexists; split; [reflexivity|]; split; [easy|]);
    right; exists v, t; (split; [reflexivity|]); (split; [exact H2|]);
    (split; [reflexivity|]); [now right | now left].
Qed.

(** ** Alignment of the stores through a run *)

Section StoreFrame.

Context {float : Type} (E : env float) (r : db_ref) (I : world float → Prop).
Hypothesis Hout : ignores_stdout I.
Hypothesis Hstore : ignores_store r I.

Lemma keeps_update_db (f : ctx_db float → ctx_db float) :
  keeps I (update_db r f).
Proof.
  apply keeps_modify. intros w Hw.
  specialize (Hstore w (f (db_of r w)) Hw). now destruct r.
Qed.

Lemma keeps_add_pair (pair : list N * list N) : keeps I (add_pair E r pair).
Proof.
  destruct pair as [code context]. unfold add_pair.
  apply keeps_try; [|intros e; now apply keeps_print].
  repeat (apply keeps_bind;
          [first [apply keeps_lift | apply keeps_get | apply keeps_update_db]
          | intros ?]).
  apply keeps_update_db.
Qed.

Lemma keeps_add_chunk (chunk : list N) : keeps I (add_chunk E r chunk).
Proof.
  unfold add_chunk.
  apply keeps_try; [|intros e; now apply keeps_print].
  repeat (apply keeps_bind;
          [first [apply keeps_lift | apply keeps_get | apply keeps_update_db]
          | intros ?]).
  apply keeps_update_db.
Qed.

Lemma keeps_build (p : list N) : keeps I (_build_enhanced_database E p r).
Proof.
  unfold _build_enhanced_database.
  do 4 (apply keeps_bind; [apply keeps_update_db | intros _]).
  apply keeps_bind; [apply keeps_get | intros is_dir].
  apply keeps_bind.
  { destruct is_dir;
      [now apply keeps_process_directory | now apply keeps_extract_text]. }
  intros content. destruct (negb (truthy (strip content)));
    [now apply keeps_print|].
  destruct (_process_doc_content content) as [pairs chunks].
  apply keeps_bind; [|intros _].
  - apply keeps_for_each. intros pair. apply keeps_add_pair.
  - apply keeps_for_each. intros chunk. apply keeps_add_chunk.
Qed.

Lemma keeps_load_db (p : list N) : keeps I (_load_db E p).
Proof.
  unfold _load_db.
  apply keeps_try.
  - repeat (apply keeps_bind;
            [first [apply keeps_lift | apply keeps_read_json] | intros ?]).
    apply keeps_ret.
  - intros e. apply keeps_bind; [now apply keeps_print | intros _].
    apply keeps_ret.
Qed.

End StoreFrame.

Section RunAlignment.

Context {float : Type} (E : env float).
Hypothesis encode_nonempty : ∀ s v, encode E s = Ok v → v ≠ [].

(** Preparing the store [r] at [p] keeps what depends neither on the
    printed lines nor on that store, and stands the writing of an
    aligned store at [p]. *)
Lemma keeps_prepare_one (r : db_ref) (p : list N) (I : world float → Prop) :
  ignores_stdout I → ignores_store r I →
  (∀ w db, ctx_ok db → I w →
     I (set_fs (<[p := File (Json (ctx_doc db))]> (fs w)) w)) →
  keeps I (prepare_one E r p).
Proof.
  intros Hout Hstore Hsave. unfold prepare_one.
  assert (Hrebuild : ∀ said,
    keeps I
      (_build_enhanced_database E
         (match r with
          | Src => src_docs_path E
          | Trg => trg_docs_path E
          end) r ;;;
       db <- get (db_of r) ;;
       _save_db E db p ;;;
       print (said ++ match r with
                      | Src => Str.py "source"
                      | Trg => Str.py "target"
                      end
                ++ Str.py " context DB to: " ++ p))%prog).
  { intros said.
    eapply hoare_bind with (Q1 := fun _ w => I w ∧ store_ok r w).
    - eapply hoare_conseq.
      + apply hoare_and with (P1 := I) (P2 := fun _ => True).
        * now apply keeps_build.
        * apply hoare_of_snd. intros w _. now apply build_ok.
      + intros w Hw. now split.
      + intros u w H. exact H.
      + intros e w [Hw _]. exact Hw.
    - intros _.
      eapply hoare_bind with (Q1 := fun db w => ctx_ok db ∧ I w).
      + intros w [Hw Hs]. cbn. now split.
      + intros db. apply hoare_pure. intros Hdb.
        apply keeps_bind; [|intros _; now apply keeps_print].
        unfold _save_db.
        apply keeps_try; [|intros e; now apply keeps_print].
        apply keeps_write_file. intros w Hw. now apply Hsave. }
  apply keeps_bind; [apply keeps_get | intros ex].
  destruct ex.
  - apply keeps_bind; [now apply keeps_load_db | intros loaded].
    destruct loaded as [db|].
    + apply keeps_bind; [now apply keeps_update_db | intros _].
      now apply keeps_print.
    + apply keeps_bind; [now apply keeps_print | intros _]. apply Hrebuild.
  - apply keeps_bind; [now apply keeps_print | intros _]. apply Hrebuild.
Qed.

Lemma hoare_bind_total {A B} (P : world float → Prop) (m : M float A)
    (k : A → M float B) (Q1 : A → world float → Prop) R1 Q R :
  total m → hoare P m Q1 R1 → (∀ a, hoare (Q1 a) (k a) Q R) →
  hoare P (bind m k) Q R.
Proof.
  intros Ht Hm Hk w Hw. unfold bind. specialize (Hm w Hw).
  destruct (total_elim m w Ht) as (a & w' & Hrun). rewrite Hrun in *.
  now apply Hk.
Qed.

Lemma store_ok_calls r : ignores_calls (store_ok (float := float) r).
Proof. intros w f. now destruct r. Qed.

Lemma store_ok_cache r : ignores_cache (store_ok (float := float) r).
Proof. intros w f. now destruct r. Qed.

Lemma store_ok_done r : ignores_done_db (store_ok (float := float) r).
Proof. intros w f. now destruct r. Qed.

Lemma history_ok_cache : ignores_cache (history_ok (float := float)).
Proof. now intros w f. Qed.

Lemma store_ok_other (r r' : db_ref) :
  r ≠ r' → ignores_store r (store_ok (float := float) r').
Proof. intros Hr w d. now destruct r, r'. Qed.

Lemma history_ok_store (r : db_ref) :
  ignores_store r (history_ok (float := float)).
Proof. intros w d. now destruct r. Qed.

Lemma ctx_file_ok_stdout (q : list N) :
  ignores_stdout (ctx_file_ok (float := float) q).
Proof. now intros w o. Qed.

Lemma ctx_file_ok_store (r : db_ref) (q : list N) :
  ignores_store r (ctx_file_ok (float := float) q).
Proof. intros w d. now destruct r. Qed.

Lemma hist_file_ok_stdout : ignores_stdout (hist_file_ok (float := float)).
Proof. now intros w o. Qed.

Lemma hist_file_ok_store (r : db_ref) :
  ignores_store r (hist_file_ok (float := float)).
Proof. intros w d. now destruct r. Qed.

Lemma prepare_keeps_ctx_file (r : db_ref) (p q : list N) :
  keeps (ctx_file_ok q) (prepare_one E r p).
Proof.
  apply keeps_prepare_one;
    [apply ctx_file_ok_stdout | apply ctx_file_ok_store |].
  intros w db Hdb Hw. unfold ctx_file_ok, persisted_ctx. cbn.
  destruct (decide (p = q)) as [-> | Hpq].
  - right. exists db. split; [exact Hdb | apply lookup_insert_eq].
  - now rewrite lookup_insert_ne.
Qed.

Lemma prepare_keeps_hist_file (r : db_ref) (p : list N) :
  p ≠ done_db_json → keeps hist_file_ok (prepare_one E r p).
Proof.
  intros Hp. apply keeps_prepare_one;
    [apply hist_file_ok_stdout | apply hist_file_ok_store |].
  intros w db Hdb Hw. unfold hist_file_ok, persisted_hist. cbn.
  now rewrite lookup_insert_ne.
Qed.

Lemma prepare_keeps_other (r r' : db_ref) (p : list N) :
  r ≠ r' → keeps (store_ok r') (prepare_one E r p).
Proof.
  intros Hr. apply keeps_prepare_one;
    [apply store_ok_stdout | now apply store_ok_other |].
  intros w db _ Hw. now apply store_ok_fs.
Qed.

Lemma prepare_keeps_history (r : db_ref) (p : list N) :
  keeps history_ok (prepare_one E r p).
Proof.
  apply keeps_prepare_one;
    [apply history_ok_stdout | apply history_ok_store |].
  intros w db _ Hw. now apply history_ok_fs.
Qed.

Lemma keeps_load_done (I : world float → Prop) :
  ignores_stdout I → ignores_done_db I → keeps I (_load_done_db E).
Proof.
  intros Hout Hdone. unfold _load_done_db.
  apply keeps_bind; [apply keeps_get | intros ex].
  destruct ex; [|apply keeps_ret].
  apply keeps_try; [|intros e; now apply keeps_print].
  assert (Hup : ∀ f, keeps I (update_done f)).
  { intros f. apply keeps_modify. intros w Hw. now apply Hdone. }
  repeat (apply keeps_bind;
          [first [apply keeps_lift | apply keeps_read_json | apply keeps_get
                 | apply Hup]
          | intros ?]).
  match goal with |- keeps _ (if ?b then _ else _) => destruct b end;
    [apply Hup | apply keeps_ret].
Qed.

(** A batch keeps the three stores aligned. *)
Lemma translate_directory_stores (d : list N) (v : bool) :
  keeps stores_ok (translate_directory E d v).
Proof.
  assert (Hs : ∀ r, keeps (store_ok r) (translate_directory E d v)).
  { intros r. apply keeps_translate_directory;
      [apply store_ok_fs | apply store_ok_stdout | apply store_ok_calls
      | apply store_ok_cache |].
    intros fp src. apply keeps_update_done;
      [apply store_ok_stdout | apply store_ok_done
      | apply ignores_fs_done_file, store_ok_fs]. }
  apply (keeps_and (store_ok Src)); [apply Hs|].
  apply (keeps_and (store_ok Trg)); [apply Hs|].
  apply keeps_translate_directory;
    [apply history_ok_fs | apply history_ok_stdout | apply history_ok_calls
    | apply history_ok_cache | now apply update_done_ok].
Qed.

Lemma translate_file_stores (p : list N) (v : bool) :
  keeps stores_ok (translate_file E p v).
Proof.
  assert (Hs : ∀ r, keeps (store_ok r) (translate_file E p v)).
  { intros r. apply keeps_translate_file;
      [apply store_ok_fs | apply store_ok_stdout | apply store_ok_calls
      | apply store_ok_cache |].
    intros fp src. apply keeps_update_done;
      [apply store_ok_stdout | apply store_ok_done
      | apply ignores_fs_done_file, store_ok_fs]. }
  apply (keeps_and (store_ok Src)); [apply Hs|].
  apply (keeps_and (store_ok Trg)); [apply Hs|].
  apply keeps_translate_file;
    [apply history_ok_fs | apply history_ok_stdout | apply history_ok_calls
    | apply history_ok_cache | now apply update_done_ok].
Qed.

(** The stores after the preparation and the loading of the history. *)
Lemma startup_stores (src trg : list N) :
  src ≠ done_db_json → trg ≠ done_db_json →
  hoare
    (fun w => ctx_file_ok src w
              ∧ ctx_file_ok trg w ∧ history_ok w ∧ hist_file_ok w)
    (prepare_context_dbs E src trg ;;; _load_done_db E)%prog
    (fun _ => stores_ok) (fun _ => stores_ok).
Proof.
  intros Hsrc Htrg.
  apply hoare_bind_total
    with (Q1 := fun _ w => store_ok Src w
                           ∧ store_ok Trg w ∧ history_ok w ∧ hist_file_ok w)
         (R1 := fun _ _ => True);
    [apply total_prepare | |].
  - unfold prepare_context_dbs.
    apply hoare_bind_total
      with (Q1 := fun _ w => store_ok Src w
                             ∧ ctx_file_ok trg w
                             ∧ history_ok w ∧ hist_file_ok w)
           (R1 := fun _ _ => True);
      [apply total_prepare_one | |].
    { eapply hoare_conseq;
        [|intros w H; exact H | intros u w H; exact H | easy].
      apply hoare_and;
        [apply hoare_of_snd; intros w Hw; now apply prepare_one_ok|].
      apply hoare_and; [apply prepare_keeps_ctx_file|].
      apply hoare_and;
        [apply prepare_keeps_history | now apply prepare_keeps_hist_file]. }
    intros _.
    apply hoare_bind_total
      with (Q1 := fun _ w => store_ok Src w
                             ∧ store_ok Trg w
                             ∧ history_ok w ∧ hist_file_ok w)
           (R1 := fun _ _ => True);
      [apply total_prepare_one | |].
    { eapply hoare_conseq;
        [|intros w H; exact H | intros u w H; exact H | easy].
      apply hoare_and; [now apply prepare_keeps_other|].
      apply hoare_and;
        [apply hoare_of_snd; intros w Hw; now apply prepare_one_ok|].
      apply hoare_and;
        [apply prepare_keeps_history | now apply prepare_keeps_hist_file]. }
    intros _.
    assert (Hout : ignores_stdout
              (fun w : world float =>
                 store_ok Src w ∧ store_ok Trg w
                 ∧ history_ok w ∧ hist_file_ok w)).
    { now intros w o. }
    eapply hoare_conseq with (R' := fun _ w => store_ok Src w
                                      ∧ store_ok Trg w
                                      ∧ history_ok w ∧ hist_file_ok w);
      [|intros w H; exact H | intros u w H; exact H | easy].
    repeat (apply keeps_bind;
            [first [now apply keeps_print | apply keeps_get] | intros ?]).
    now apply keeps_print.
  - intros _.
    apply hoare_conseq
      with (P' := fun w => store_ok Src w
                           ∧ store_ok Trg w ∧ history_ok w ∧ hist_file_ok w)
           (Q' := fun _ w => store_ok Src w ∧ store_ok Trg w ∧ history_ok w)
           (R' := fun _ w => store_ok Src w ∧ store_ok Trg w ∧ history_ok w);
      [|intros w H; exact H | intros u w H; exact H | intros e w H; exact H].
    apply hoare_and;
      [apply (keeps_load_done (store_ok Src));
       [apply store_ok_stdout | apply store_ok_done]|].
    apply hoare_and;
      [apply (keeps_load_done (store_ok Trg));
       [apply store_ok_stdout | apply store_ok_done]|].
    apply hoare_of_snd. intros w [Hh Hf]. now apply load_done_ok.
Qed.

End RunAlignment.

Lemma bind_assoc {float : Type} {A B C} (m : M float A) (k : A → M float B)
    (h : B → M float C) (w : world float) :
  bind (bind m k) h w = bind m (fun a => bind (k a) h) w.
Proof. unfold bind. now destruct (m w) as [[a|e] w']. Qed.

(** X13.  The history stays aligned.  With an encoder that returns no
    empty vector, a history that has as many vectors as items and as
    file paths, in rows of one width, still has after an update,
    whether the encoding, the stacking or the saving failed or not;
    what a save writes is the document of such a history; and loading
    gives such a history when the file is absent or holds such a
    document. *)
Theorem history_stays_aligned {float : Type} (E : env float) :
  (∀ s v, encode E s = Ok v → v ≠ []) →
  (∀ filepath source_code w,
     hist_ok (done_db w) →
     hist_ok (done_db (snd (_update_done_db E filepath source_code w))))
  ∧ (∀ w,
       hist_ok (done_db w) →
       can_write E done_db_json = true → fs w !! done_db_json ≠ Some Dir →
       persisted_hist done_db_json (snd (_save_done_db E w)))
  ∧ (∀ w,
       hist_ok (done_db w) → hist_file_ok w →
       hist_ok (done_db (snd (_load_done_db E w)))).
Proof.
  intros Hne. split; [|split].
  - intros filepath source_code w Hw.
    apply (keeps_snd history_ok); [now apply update_done_ok | exact Hw].
  - intros w Hw Hc Hd. rewrite (save_done_run E w Hc Hd).
    exists (done_db w). split; [exact Hw | apply lookup_insert_eq].
  - intros w Hw Hf. now apply (load_done_ok E).
Qed.

Lemma history_stays_aligned_witness :
  (∀ filepath source_code w,
     hist_ok (done_db w) →
     hist_ok
       (done_db (snd (_update_done_db Demo.working filepath source_code w))))
  ∧ (∀ w,
       hist_ok (done_db w) →
       can_write Demo.working done_db_json = true →
       fs w !! done_db_json ≠ Some Dir →
       persisted_hist done_db_json (snd (_save_done_db Demo.working w)))
  ∧ (∀ w,
       hist_ok (done_db w) → hist_file_ok w →
       hist_ok (done_db (snd (_load_done_db Demo.working w)))).
Proof.
  apply (history_stays_aligned Demo.working).
  intros s v [= <-]. discriminate.
Defined.

(** X14.  The context stores stay aligned.  With an encoder that
    returns no empty vector, a build leaves the store with as many
    vectors as samples and as many text vectors as text chunks, in rows
    of one width, whatever the documentation holds and whichever
    encodings fail; what a save writes for such a store is the document
    of such a store; loading such a document gives such a store and not
    the no-store result; and so the preparation of a store, whose file
    is absent or holds such a document, leaves it aligned. *)
Theorem context_stores_stay_aligned {float : Type} (E : env float) :
  (∀ s v, encode E s = Ok v → v ≠ []) →
  (∀ doc_path r w,
     ctx_ok (db_of r (snd (_build_enhanced_database E doc_path r w))))
  ∧ (∀ db path w,
       ctx_ok db → can_write E path = true → fs w !! path ≠ Some Dir →
       persisted_ctx path (snd (_save_db E db path w)))
  ∧ (∀ path w,
       persisted_ctx path w →
       ∃ db, _load_db E path w = (Ok (Some db), w) ∧ ctx_ok db)
  ∧ (∀ r path w,
       ctx_file_ok path w → ctx_ok (db_of r (snd (prepare_one E r path w)))).
Proof.
  intros Hne. split; [|split; [|split]].
  - intros doc_path r w. now apply (build_ok E Hne).
  - intros db path w Hdb Hc Hd. now apply save_persisted.
  - intros path w Hp. now apply load_persisted.
  - intros r path w Hp. now apply (prepare_one_ok E Hne).
Qed.

Lemma context_stores_stay_aligned_witness :
  (∀ doc_path r w,
     ctx_ok
       (db_of r (snd (_build_enhanced_database Demo.working doc_path r w))))
  ∧ (∀ db path w,
       ctx_ok db → can_write Demo.working path = true →
       fs w !! path ≠ Some Dir →
       persisted_ctx path (snd (_save_db Demo.working db path w)))
  ∧ (∀ path w,
       persisted_ctx path w →
       ∃ db, _load_db Demo.working path w = (Ok (Some db), w) ∧ ctx_ok db)
  ∧ (∀ r path w,
       ctx_file_ok path w →
       ctx_ok (db_of r (snd (prepare_one Demo.working r path w)))).
Proof.
  apply (context_stores_stay_aligned Demo.working).
  intros s v [= <-]. discriminate.
Defined.

(** X15.  A whole run keeps the three stores aligned.  With an encoder
    that returns no empty vector, when the run starts with an aligned
    history, with store files and a history file that are absent or
    hold aligned stores, and with store paths other than the history
    file, then after the run, however the translations went, each
    context store has as many vectors as samples and as many text
    vectors as text chunks, and the history has as many vectors as
    items and as file paths. *)
Theorem run_keeps_stores_aligned {float : Type} (E : env float)
    (src trg input_dir : list N) (verbose : bool) (w : world float) :
  (∀ s v, encode E s = Ok v → v ≠ []) →
  src ≠ done_db_json → trg ≠ done_db_json →
  hist_ok (done_db w) →
  ctx_file_ok src w → ctx_file_ok trg w → hist_file_ok w →
  stores_ok (snd (main E src trg input_dir verbose w)).
Proof.
  intros Hne Hsrc Htrg Hh Hs Ht Hf. unfold main.
  rewrite <- bind_assoc.
  apply hoare_snd
    with (P := fun w => ctx_file_ok src w
                        ∧ ctx_file_ok trg w
                        ∧ history_ok w ∧ hist_file_ok w);
    [|easy].
  apply hoare_bind_total with (Q1 := fun _ => stores_ok)
                              (R1 := fun _ => stores_ok).
  - apply total_bind; [apply total_prepare | intros _; apply total_load_done].
  - now apply startup_stores.
  - intros _. now apply translate_directory_stores.
Qed.

Lemma run_keeps_stores_aligned_witness :
  stores_ok
    (snd (main Demo.working (py "src_db.json") (py "trg_db.json") (py "in")
            false Demo.start)).
Proof.
  apply run_keeps_stores_aligned.
  - intros s v [= <-]. discriminate.
  - vm_compute. discriminate.
  - vm_compute. discriminate.
  - apply hist_ok_empty.
  - left. vm_compute. reflexivity.
  - left. vm_compute. reflexivity.
  - left. vm_compute. reflexivity.
Defined.

(** ** Stores that have been loaded once *)

Section Reload.

Lemma as_loaded_no_tuple (i : item) : no_tuple (as_loaded i).
Proof. intros l. now destruct i. Qed.

Lemma as_loaded_id (i : item) : no_tuple i → as_loaded i = i.
Proof. intros H. destruct i as [s|l|l]; [easy | now destruct (H l) | easy]. Qed.

Lemma map_as_loaded_id (l : list item) :
  Forall no_tuple l → List.map as_loaded l = l.
Proof.
  induction 1 as [|i l Hi _ IH]; [easy|]. cbn.
  now rewrite (as_loaded_id _ Hi), IH.
Qed.

End Reload.

(** X16.  Persisting and loading is exact on a store that holds no
    tuple, and every loaded store is such a store: a context store
    whose samples are strings or lists, with vector tables in
    non-empty rows of one width, comes back from its file as it was,
    sample for sample; no sample that comes back from a file is a
    tuple, so that a store that has been loaded once is reproduced
    exactly by every later save and load. *)
Theorem reload_is_exact {float : Type} (E : env float) :
  (∀ (db : ctx_db float) path w,
     can_write E path = true → fs w !! path ≠ Some Dir →
     table_ok (embeddings db) → table_ok (text_embeddings db) →
     Forall no_tuple (samples db) →
     ∃ w1, _save_db E db path w = (Ok tt, w1)
           ∧ _load_db E path w1 = (Ok (Some db), w1))
  ∧ (∀ path (w : world float) db,
       _load_db E path w = (Ok (Some db), w) → Forall no_tuple (samples db)).
Proof.
  split.
  - intros db path w Hc Hd He Ht Hs.
    eexists. split; [now apply save_db_run|].
    rewrite (load_db_run E db); [|exact He | exact Ht | apply lookup_insert_eq].
    rewrite (map_as_loaded_id _ Hs). now destruct db.
  - intros path w db. unfold _load_db, try_except.
    unfold bind at 1.
    destruct (read_json E path w) as [[data|e] w1]; [|easy].
    unfold bind at 1. unfold lift at 1.
    destruct (np_array (default [] (j_embeddings data))) as [e|e]; [|easy].
    unfold bind at 1. unfold lift at 1.
    destruct (np_array (default [] (j_text_embeddings data))) as [te|e'];
      [|easy].
    unfold ret. intros [= <- _].
    assert (H : Forall no_tuple
                  (List.map of_json (default [] (j_samples data)))).
    { apply Forall_map, Forall_forall. intros j _ l. now destruct j. }
    repeat match goal with
           | |- context [if ?b then _ else _] => destruct b
           end; exact H.
Qed.

Lemma reload_is_exact_witness :
  (∃ w1, _save_db Demo.working Demo.store_of_lists (py "src_db.json")
           Demo.start
         = (Ok tt, w1)
         ∧ _load_db Demo.working (py "src_db.json") w1
           = (Ok (Some Demo.store_of_lists), w1))
  ∧ (∀ db,
       _load_db Demo.working (py "src_db.json") Demo.start
       = (Ok (Some db), Demo.start) →
       Forall no_tuple (samples db)).
Proof.
  destruct (reload_is_exact Demo.working) as [H1 H2]. split.
  - apply H1; [reflexivity | vm_compute; discriminate
              | apply table_ok_one | apply table_ok_one |].
    repeat constructor. intros l. discriminate.
  - intros db. apply H2.
Defined.

(** ** Requests that fail before the generation *)

Section EarlyFailure.

Context {float : Type} (E : env float).

Lemma unpack2_raises (i : item) (e : exn) :
  unpack2 i = Raise e → e = ValueError.
Proof.
  destruct i as [s|l|l]; cbn.
  - destruct s as [|a [|b [|c s]]]; now intros [= <-].
  - destruct l as [|a [|b [|c l]]]; now intros [= <-].
  - destruct l as [|a [|b [|c l]]]; now intros [= <-].
Qed.

Lemma render_examples_raises (l : list item) (e : exn) :
  render_examples l = Raise e → e = ValueError.
Proof.
  induction l as [|i l IH]; cbn; [easy|].
  destruct (unpack2 i) as [[code ctx]|e'] eqn:Hi.
  - destruct (render_examples l) as [rest|e']; [easy|].
    intros [= <-]. now apply IH.
  - intros [= <-]. eapply unpack2_raises, Hi.
Qed.

Lemma render_examples_unreadable (l : list item) (i : item) :
  i ∈ l → unreadable i → render_examples l = Raise ValueError.
Proof.
  intros Hi Hu. induction l as [|j l IH]; [now apply elem_of_nil in Hi|].
  cbn. destruct (unpack2 j) as [[code ctx]|e] eqn:Hj.
  - apply elem_of_cons in Hi as [-> | Hi]; [unfold unreadable in Hu; congruence|].
    now rewrite (IH Hi).
  - now rewrite (unpack2_raises _ _ Hj).
Qed.

Lemma prompt_unreadable (source_code : list N) (w : world float) (i : item) :
  i ∈ firstn 3 (samples (src_db w)) ∨ i ∈ firstn 3 (samples (trg_db w)) →
  unreadable i →
  _generate_contextual_prompt_with_langchain E source_code w
  = (Raise ValueError, w).
Proof.
  intros Hi Hu.
  unfold _generate_contextual_prompt_with_langchain, bind, get, lift.
  destruct (render_examples (firstn 3 (samples (src_db w)))) as [l|e] eqn:Hs.
  - destruct Hi as [Hi | Hi];
      [now rewrite (render_examples_unreadable _ _ Hi Hu) in Hs|].
    now rewrite (render_examples_unreadable _ _ Hi Hu).
  - now rewrite (render_examples_raises _ _ Hs).
Qed.

End EarlyFailure.

(** X17.  A request that cannot start fails without a trace but one
    printed line.  When the input path holds no file, and when the
    content is not cached and one of the first three samples of the
    source store or of the target store cannot be read as a pair, the
    request returns the failure result with the text of the error, and
    leaves the files, the stores, the cache and the log of the backend
    as they were: nothing is generated and nothing is written. *)
Theorem request_fails_before_generation {float : Type} (E : env float)
    (input_path : list N) (verbose : bool) (w : world float) :
  (fs w !! input_path = None ∨ fs w !! input_path = Some Dir →
   translate_file E input_path verbose w
   = (Ok (None, exn_str E (OSError input_path)),
      printed [failure_line E input_path (OSError input_path)] w))
  ∧ (∀ source_code i,
       read_text E input_path w = (Ok source_code, w) →
       translation_cache w !! md5 E source_code = None →
       i ∈ firstn 3 (samples (src_db w))
       ∨ i ∈ firstn 3 (samples (trg_db w)) →
       unreadable i →
       translate_file E input_path verbose w
       = (Ok (None, exn_str E ValueError),
          printed [failure_line E input_path ValueError] w)).
Proof.
  split.
  - intros Hf. unfold translate_file, try_except.
    unfold bind at 1. unfold read_text, bind at 1. unfold read_raw.
    assert (Hr : match fs w !! input_path with
                 | Some (File (Text s)) => (Ok s, w)
                 | Some (File (Json d)) => (Ok (json_dumps E d), w)
                 | _ => (Raise (OSError input_path), w)
                 end = (Raise (OSError input_path), w)).
    { now destruct Hf as [-> | ->]. }
    rewrite Hr. unfold bind, print, modify, ret, printed, failure_line.
    now rewrite <- !app_assoc.
  - intros source_code i Hread Hmiss Hi Hu.
    unfold translate_file, try_except.
    unfold bind at 1. rewrite Hread.
    unfold bind at 1. unfold get at 1. rewrite Hmiss.
    unfold bind at 1. rewrite (prompt_unreadable E _ _ _ Hi Hu).
    unfold bind, print, modify, ret, printed, failure_line.
    now rewrite <- !app_assoc.
Qed.

Lemma request_fails_before_generation_witness :
  translate_file Demo.working (py "in/c.lisp") false Demo.start
  = (Ok (None, exn_str Demo.working (OSError (py "in/c.lisp"))),
     printed
       [failure_line Demo.working (py "in/c.lisp") (OSError (py "in/c.lisp"))]
       Demo.start).
Proof.
  apply (request_fails_before_generation Demo.working (py "in/c.lisp") false
           Demo.start).
  left. vm_compute. reflexivity.
Defined.

(** ** What a translation request may touch *)

Section Footprint.

Context {float : Type} (E : env float) (I : world float → Prop)
  (input_path : list N).
Hypothesis Hout : ignores_stdout I.
Hypothesis Hcalls : ignores_calls I.
Hypothesis Hcache : ignores_cache I.
Hypothesis Hdone : ignores_done_db I.
Hypothesis Hfile : ignores_done_file I.
Hypothesis Hart : ∀ ext c,
  ext ∈ [py ".autot"; py ".comment"; py ".think"] → ∀ w,
  I w → I (set_fs (<[fst (Path.splitext input_path) ++ ext := File c]> (fs w)) w).

Lemma keeps_artifacts (code comments : list N) (think : option (list N)) :
  keeps I (write_artifacts E input_path code comments think).
Proof.
  unfold write_artifacts, _write_output.
  apply keeps_bind; [|intros _].
  { apply keeps_write_file. apply Hart. apply list_elem_of_here. }
  apply keeps_bind; [|intros _].
  { apply keeps_write_file. apply Hart.
    apply list_elem_of_further, list_elem_of_here. }
  destruct think as [t|]; [|apply keeps_ret].
  destruct (truthy t); [|apply keeps_ret].
  apply keeps_write_file. apply Hart.
  do 2 apply list_elem_of_further. apply list_elem_of_here.
Qed.

(** A request keeps what depends neither on what it prints, logs,
    caches or records, nor on the files it may write. *)
Lemma keeps_request (v : bool) : keeps I (translate_file E input_path v).
Proof.
  unfold translate_file.
  apply keeps_try; [|intros e; apply keeps_bind;
                     [now apply keeps_print | intros _; apply keeps_ret]].
  apply keeps_bind; [now apply keeps_read_text | intros src].
  apply keeps_bind; [apply keeps_get | intros cache].
  destruct (cache !! md5 E src) as [[[code comments] think]|].
  - apply keeps_bind; [apply keeps_artifacts | intros _].
    apply keeps_ret.
  - apply keeps_bind; [apply keeps_prompt | intros prompt].
    apply keeps_bind.
    { destruct v; [now apply keeps_generate_streaming
                  | now apply keeps_generate_blocking]. }
    intros out.
    apply keeps_bind; [apply keeps_artifacts | intros _].
    apply keeps_bind; [now apply keeps_update_done | intros _].
    apply keeps_bind; [apply keeps_modify; intros w Hw; now apply Hcache
                      | intros _].
    apply keeps_ret.
Qed.

End Footprint.

(** X18.  A translation request writes nowhere else than next to its
    input and in the history file, removes no file and never changes a
    context store: whatever it returns, every path other than its three
    artifact paths and the history file holds after the request what it
    held before, every path that held something still holds something,
    and the source and target stores are as they were. *)
Theorem request_footprint {float : Type} (E : env float)
    (input_path : list N) (verbose : bool) (w : world float) :
  (∀ q, ¬ may_write input_path q →
        fs (snd (translate_file E input_path verbose w)) !! q = fs w !! q)
  ∧ (∀ q, is_Some (fs w !! q) →
          is_Some (fs (snd (translate_file E input_path verbose w)) !! q))
  ∧ src_db (snd (translate_file E input_path verbose w)) = src_db w
  ∧ trg_db (snd (translate_file E input_path verbose w)) = trg_db w.
Proof.
  split; [|split; [|split]].
  - intros q Hq.
    apply (keeps_snd (fun w' => fs w' !! q = fs w !! q)); [|reflexivity].
    apply keeps_request; try (now intros w' x Hw').
    + intros w' c Hw'. cbn. rewrite lookup_insert_ne; [exact Hw'|].
      intros <-. apply Hq. now left.
    + intros ext c He w' Hw'. cbn. rewrite lookup_insert_ne; [exact Hw'|].
      intros <-. apply Hq. right. now exists ext.
  - intros q Hq.
    apply (keeps_snd (fun w' => is_Some (fs w' !! q))); [|exact Hq].
    assert (Hins : ∀ (w' : world float) path c,
              is_Some (fs w' !! q) →
              is_Some (fs (set_fs (<[path := File c]> (fs w')) w') !! q)).
    { intros w' path c Hw'. cbn. destruct (decide (path = q)) as [-> | Hp].
      - rewrite lookup_insert_eq. eauto.
      - now rewrite lookup_insert_ne. }
    apply keeps_request; try (now intros w' x Hw').
    + intros w' c. apply Hins.
    + intros ext c _ w'. apply Hins.
  - apply (keeps_snd (fun w' => src_db w' = src_db w)); [|reflexivity].
    apply keeps_request; now intros.
  - apply (keeps_snd (fun w' => trg_db w' = trg_db w)); [|reflexivity].
    apply keeps_request; now intros.
Qed.

(** ** What a stream prints *)

Section Echo.

Context {float : Type} (E : env float).

Lemma consume_echo (chunks : list (option (list N))) :
  ∀ out (w : world float),
    consume out chunks w
    = (Ok (out ++ List.concat (echoed chunks)), printed (echoed chunks) w).
Proof.
  induction chunks as [|chunk chunks IH]; intros out w.
  - cbn. unfold ret. now rewrite app_nil_r, printed_nil.
  - cbn [consume]. unfold echoed. cbn [List.map List.filter].
    destruct (truthy (default [] chunk)) eqn:Hc.
    + unfold bind, print_part, modify. rewrite IH. cbn [List.concat].
      rewrite <- app_assoc. f_equal.
      change (set_stdout (stdout w ++ [default [] chunk]) w)
        with (printed [default [] chunk] w).
      now rewrite printed_app.
    + apply IH.
Qed.

Lemma concat_echoed (chunks : list (option (list N))) :
  List.concat (echoed chunks)
  = List.concat (List.map (default []) chunks).
Proof.
  unfold echoed. induction chunks as [|chunk chunks IH]; [easy|]. cbn.
  destruct (default [] chunk) as [|c s] eqn:Hc; cbn; [exact IH|].
  now rewrite IH.
Qed.

Lemma generate_streaming_run (prompt : list N) (w : world float)
    (chunks : list (option (list N))) :
  generate_stream E (length (calls w)) prompt = (chunks, None) →
  generate_streaming E prompt w
  = (Ok (List.concat (echoed chunks)),
     printed (echoed chunks ++ [[NL]])
       (set_calls (calls w ++ [(prompt, true)]) w)).
Proof.
  intros Hs.
  unfold generate_streaming, bind at 1. unfold get at 1.
  unfold bind at 1. unfold modify at 1. rewrite Hs.
  unfold bind at 1. rewrite consume_echo. cbn [app].
  unfold bind, print, modify, ret.
  change (set_stdout (stdout ?x ++ [[] ++ [NL]]) ?x)
    with (printed [[NL]] x).
  now rewrite printed_app.
Qed.

End Echo.

(** X19.  In streaming mode the terminal shows what is returned: a
    generation whose stream ends normally logs one call, prints the
    non-empty fragments one by one in emission order followed by a line
    end, and returns the concatenation of the fragments, which is the
    concatenation of what it has printed before the line end; a stream
    that breaks raises its error after the fragments received so far
    have been printed. *)
Theorem stream_echo_is_the_output {float : Type} (E : env float)
    (prompt : list N) (w : world float) (chunks : list (option (list N))) :
  (generate_stream E (length (calls w)) prompt = (chunks, None) →
   generate_streaming E prompt w
   = (Ok (List.concat (echoed chunks)),
      printed (echoed chunks ++ [[NL]])
        (set_calls (calls w ++ [(prompt, true)]) w))
   ∧ List.concat (echoed chunks)
     = List.concat (List.map (default []) chunks))
  ∧ (∀ e, generate_stream E (length (calls w)) prompt = (chunks, Some e) →
          generate_streaming E prompt w
          = (Raise e,
             printed (echoed chunks)
               (set_calls (calls w ++ [(prompt, true)]) w))).
Proof.
  split.
  - intros Hs. split; [now apply generate_streaming_run|].
    apply concat_echoed.
  - intros e Hs.
    unfold generate_streaming, bind at 1. unfold get at 1.
    unfold bind at 1. unfold modify at 1. rewrite Hs.
    unfold bind at 1. now rewrite consume_echo.
Qed.

Lemma stream_echo_is_the_output_witness :
  generate_streaming Demo.working Demo.prompt Demo.start
  = (Ok (List.concat
           (echoed [Some (py "```lisp"); None; Some [NL];
                    Some (py "(first x)"); Some [NL]; Some (py "```")])),
     printed
       (echoed [Some (py "```lisp"); None; Some [NL];
                Some (py "(first x)"); Some [NL]; Some (py "```")]
          ++ [[NL]])
       (set_calls (calls Demo.start ++ [(Demo.prompt, true)]) Demo.start))
  ∧ List.concat
      (echoed [Some (py "```lisp"); None; Some [NL];
               Some (py "(first x)"); Some [NL]; Some (py "```")])
    = List.concat
        (List.map (default [])
           [Some (py "```lisp"); None; Some [NL];
            Some (py "(first x)"); Some [NL]; Some (py "```")]).
Proof.
  apply (stream_echo_is_the_output Demo.working Demo.prompt Demo.start).
  reflexivity.
Defined.

(** ** Replays and the history *)

(** X20.  A replay from the cache leaves the history alone: a request
    whose content is cached changes neither the history store nor the
    history file, whether its artifacts can be written or not; the
    history records only the files that went through a generation. *)
Theorem replay_leaves_history {float : Type} (E : env float)
    (input_path source_code : list N) (verbose : bool) (w : world float)
    (entry : list N * list N * option (list N)) :
  read_text E input_path w = (Ok source_code, w) →
  translation_cache w !! md5 E source_code = Some entry →
  done_db (snd (translate_file E input_path verbose w)) = done_db w
  ∧ fs (snd (translate_file E input_path verbose w)) !! done_db_json
    = fs w !! done_db_json
  ∧ calls (snd (translate_file E input_path verbose w)) = calls w.
Proof.
  intros Hread Hhit. destruct entry as [[code comments] think].
  set (I := fun w' : world float =>
              done_db w' = done_db w
              ∧ fs w' !! done_db_json = fs w !! done_db_json
              ∧ calls w' = calls w).
  assert (Hout : ignores_stdout I) by now intros w' o.
  assert (Hart : keeps I (write_artifacts E input_path code comments think)).
  { apply keeps_artifacts. intros ext c He w' (H1 & H2 & H3).
    split; [exact H1|]. split; [|exact H3]. cbn.
    rewrite lookup_insert_ne; [exact H2|].
    apply (ext_not_done _ _ He). }
  change (I (snd (translate_file E input_path verbose w))).
  unfold translate_file, try_except.
  unfold bind at 1. rewrite Hread.
  unfold bind at 1. unfold get at 1. rewrite Hhit.
  unfold bind at 1.
  assert (Hw : I w) by now repeat split.
  specialize (Hart w Hw).
  destruct (write_artifacts E input_path code comments think w)
    as [[a|e] w1]; [exact Hart|].
  unfold bind, print, modify, ret. cbn. now apply Hout.
Qed.

Lemma replay_leaves_history_witness :
  done_db (snd Demo.good_second) = done_db (snd Demo.good_first)
  ∧ fs (snd Demo.good_second) !! done_db_json
    = fs (snd Demo.good_first) !! done_db_json
  ∧ calls (snd Demo.good_second) = calls (snd Demo.good_first).
Proof.
  apply (replay_leaves_history Demo.working (py "in/b.lisp") (py "(car x)")
           true (snd Demo.good_first)
           (py "(first x)", py "car is first", None)).
  - vm_compute. reflexivity.
  - vm_compute. reflexivity.
Defined.

(** ** Paths in the ledger *)

Section LedgerLines.

Lemma universal_newlines_id (s : list N) :
  Forall (fun c => c ≠ 13) s → Path.universal_newlines s = s.
Proof.
  induction 1 as [|c s Hc _ IH]; [easy|]. cbn.
  apply N.eqb_neq in Hc. rewrite Hc. now rewrite IH.
Qed.

Lemma universal_newlines_line (n : nat) : ∀ t,
  (length t ≤ n)%nat →
  ∃ x, ∀ b, Path.universal_newlines (t ++ NL :: b)
            = x ++ NL :: Path.universal_newlines b.
Proof.
  induction n as [|n IH]; intros t Hn.
  - destruct t; [|cbn in Hn; lia]. exists []. intros b. reflexivity.
  - destruct t as [|c t]; [exists []; intros b; reflexivity|].
    cbn in Hn. cbn [app Path.universal_newlines].
    destruct (c =? 13) eqn:Hc.
    + destruct t as [|d t].
      * exists []. intros b. reflexivity.
      * cbn [app]. destruct (d =? 10) eqn:Hd.
        -- destruct (IH t) as [x Hx]; [cbn in Hn; lia|].
           exists (10 :: x). intros b. now rewrite Hx.
        -- destruct (IH (d :: t)) as [x Hx]; [lia|].
           exists (10 :: x). intros b. cbn [app] in Hx. now rewrite Hx.
    + destruct (IH t) as [x Hx]; [lia|].
      exists (c :: x). intros b. now rewrite Hx.
Qed.

Lemma lines_nonempty (x : list N) : Path.lines (x ++ [NL]) ≠ [].
Proof.
  destruct x as [|c x]; [easy|]. cbn.
  destruct (c =? 10); [easy|]. now destruct (Path.lines (x ++ [NL])).
Qed.

Lemma lines_app (x y : list N) :
  Path.lines (x ++ NL :: y) = Path.lines (x ++ [NL]) ++ Path.lines y.
Proof.
  induction x as [|c x IH]; [reflexivity|]. cbn.
  destruct (c =? 10); [now rewrite IH|].
  rewrite IH. pose proof (lines_nonempty x) as Hne.
  now destruct (Path.lines (x ++ [NL])).
Qed.

Lemma lines_one (path : list N) :
  Forall (fun c => c ≠ 10) path → Path.lines (path ++ [NL]) = [path].
Proof.
  induction 1 as [|c path Hc _ IH]; [reflexivity|]. cbn.
  apply N.eqb_neq in Hc. rewrite Hc. now rewrite IH.
Qed.

Lemma lines_last (text path : list N) :
  ends_lines text → Forall (fun c => c ≠ 10 ∧ c ≠ 13) path →
  path ∈ Path.lines (Path.universal_newlines (text ++ path ++ [NL])).
Proof.
  intros Ht Hp.
  assert (H10 : Forall (fun c => c ≠ 10) path).
  { eapply Forall_impl; [exact Hp | now intros c [H _]]. }
  assert (H13 : Forall (fun c => c ≠ 13) (path ++ [NL])).
  { apply Forall_app. split; [|now repeat constructor].
    eapply Forall_impl; [exact Hp | now intros c [_ H]]. }
  destruct Ht as [-> | [t ->]].
  - cbn [app]. rewrite (universal_newlines_id _ H13), (lines_one _ H10).
    apply list_elem_of_here.
  - rewrite <- app_assoc. cbn [app].
    destruct (universal_newlines_line (length t) t (le_n _)) as [x Hx].
    rewrite Hx, (universal_newlines_id _ H13), lines_app, (lines_one _ H10).
    apply elem_of_app. right. apply list_elem_of_here.
Qed.

Lemma lines_no_newline (s l : list N) :
  l ∈ Path.lines s → Forall (fun c => c ≠ 10) l.
Proof.
  revert l. induction s as [|c s IH]; intros l; cbn;
    [now intros ?%elem_of_nil|].
  destruct (c =? 10) eqn:Hc.
  - intros [-> | H]%elem_of_cons; [constructor | now apply IH].
  - apply N.eqb_neq in Hc.
    destruct (Path.lines s) as [|l0 ls]; cbn.
    + intros ->%list_elem_of_singleton. now repeat constructor.
    + intros [-> | H]%elem_of_cons.
      * constructor; [exact Hc | apply IH, list_elem_of_here].
      * apply IH. now apply list_elem_of_further.
Qed.

Lemma ledger_set_elem (text path : list N) :
  path ∈ ledger_set text
  ↔ path ≠ [] ∧ ∃ l, l ∈ Path.lines text ∧ path = strip l.
Proof.
  unfold ledger_set. rewrite elem_of_list_to_set, list_elem_of_In.
  rewrite filter_In, in_map_iff. split.
  - intros [(l & <- & Hl) Ht]. split; [now destruct (strip l)|].
    exists l. now rewrite list_elem_of_In.
  - intros [Hne (l & Hl & ->)]. split; [|now destruct (strip l)].
    exists l. now rewrite <- list_elem_of_In.
Qed.

End LedgerLines.

(** X21.  A path written to the ledger is found again by the next
    reading of the ledger, provided it can stand on a line.  When the
    ledger is empty or ends with a newline and the path is not empty,
    has no whitespace at its ends and holds no line break, then after
    the path has been appended the set read from the ledger file holds
    the path.  A set read from a ledger holds only such paths: a
    discovered path that is empty, has whitespace at an end or holds a
    newline is never found in it, whatever was written. *)
Theorem ledger_write_then_read {float : Type} (E : env float)
    (path : list N) (w : world float) :
  (ledger_safe path → ends_lines (ledger_raw E w) →
   ∃ text w',
     append_text E processed_files_txt (path ++ [NL]) w = (Ok tt, w')
     ∧ read_text E processed_files_txt w' = (Ok text, w')
     ∧ path ∈ ledger_set text)
  ∧ (∀ text, path ∈ ledger_set text →
             path ≠ [] ∧ strip path = path ∧ Forall (fun c => c ≠ 10) path).
Proof.
  split.
  - intros (Hne & Hs & Hp) Ht.
    eexists. eexists. split; [apply append_text_run|].
    unfold read_text, bind, read_raw. cbn [fs set_fs].
    rewrite lookup_insert_eq. unfold ret. split; [reflexivity|].
    apply ledger_set_elem. split; [exact Hne|].
    exists path. split; [now apply lines_last | now rewrite Hs].
  - intros text H. apply ledger_set_elem in H as [Hne (l & Hl & ->)].
    split; [exact Hne|]. split; [apply strip_idem|].
    eapply part_of_Forall; [apply strip_part|].
    eapply lines_no_newline, Hl.
Qed.

Lemma ledger_write_then_read_witness :
  ∃ text w',
    append_text Demo.working processed_files_txt (py "in/a.lisp" ++ [NL])
      Demo.start
    = (Ok tt, w')
    ∧ read_text Demo.working processed_files_txt w' = (Ok text, w')
    ∧ py "in/a.lisp" ∈ ledger_set text.
Proof.
  apply (ledger_write_then_read Demo.working (py "in/a.lisp") Demo.start).
  - split; [discriminate|]. split; [reflexivity|].
    repeat constructor; discriminate.
  - left. reflexivity.
Defined.

(** ** A batch *)

Section BatchFrame.

Context {float : Type} (E : env float) (I : world float → Prop).
Hypothesis Hout : ignores_stdout I.
Hypothesis Hcalls : ignores_calls I.
Hypothesis Hcache : ignores_cache I.
Hypothesis Hdone : ignores_done_db I.
Hypothesis Hfile : ignores_done_file I.
Hypothesis Hart : ∀ p ext c,
  ext ∈ [py ".autot"; py ".comment"; py ".think"] → ∀ w,
  I w → I (set_fs (<[fst (Path.splitext p) ++ ext := File c]> (fs w)) w).
Hypothesis Hledger : ∀ c w,
  I w → I (set_fs (<[processed_files_txt := File c]> (fs w)) w).

Lemma keeps_append_text (text : list N) :
  keeps I (append_text E processed_files_txt text).
Proof.
  unfold append_text.
  apply keeps_bind.
  - apply keeps_try; [apply keeps_read_raw | intros e; apply keeps_ret].
  - intros old. apply keeps_modify. intros w Hw. now apply Hledger.
Qed.

Lemma keeps_path (v : bool) (done : gset (list N)) (p : list N) :
  keeps I (process_path E v done p).
Proof.
  unfold process_path. destruct (bool_decide (p ∈ done)); [apply keeps_ret|].
  apply keeps_bind; [now apply keeps_print | intros _].
  apply keeps_bind; [|intros [translated c]].
  { apply keeps_request; try assumption. apply Hart. }
  destruct (match translated with Some c0 => truthy c0 | None => false end);
    [|apply keeps_ret].
  do 3 (apply keeps_bind; [now apply keeps_print | intros _]).
  apply keeps_bind; [apply keeps_append_text | intros _; apply keeps_ret].
Qed.

Lemma keeps_loop (v : bool) (l : list (list N)) :
  ∀ done, keeps I (fold_files (process_path E v) done l).
Proof. apply keeps_fold_files. intros acc x. apply keeps_path. Qed.

End BatchFrame.

Section Batch.

Context {float : Type} (E : env float).

Lemma artifact_not_txt (base ext name : list N) :
  ext ∈ [py ".autot"; py ".comment"; py ".think"] →
  base ++ ext ≠ name ++ py ".txt".
Proof.
  intros He H. apply (f_equal (@rev N)) in H.
  rewrite !rev_app_distr in H.
  repeat (apply elem_of_cons in He as [-> | He]);
    [ | | | now apply elem_of_nil in He]; cbn in H; discriminate.
Qed.

Lemma artifact_not_listing (base ext : list N) :
  ext ∈ [py ".autot"; py ".comment"; py ".think"] →
  base ++ ext ≠ pathlist_txt ∧ base ++ ext ≠ processed_files_txt.
Proof.
  intros He. split.
  - apply (artifact_not_txt base ext (py "pathlist") He).
  - apply (artifact_not_txt base ext (py "processed_files") He).
Qed.

(** The loop over the discovered files leaves a file alone that is
    neither an artifact, nor the history file, nor the ledger. *)
Lemma loop_keeps_file (q : list N) (node : option (node float)) (v : bool)
    (l : list (list N)) (done : gset (list N)) :
  q ≠ done_db_json → q ≠ processed_files_txt →
  (∀ p ext, ext ∈ [py ".autot"; py ".comment"; py ".think"] →
            q ≠ fst (Path.splitext p) ++ ext) →
  keeps (fun w => fs w !! q = node) (fold_files (process_path E v) done l).
Proof.
  intros Hd Hl Ha. apply keeps_loop; try (now intros w x Hw).
  - intros w c Hw. cbn. now rewrite lookup_insert_ne.
  - intros p ext c He w Hw. cbn. rewrite lookup_insert_ne; [exact Hw|].
    intros H. now apply (Ha p ext He).
  - intros c w Hw. cbn. now rewrite lookup_insert_ne.
Qed.

End Batch.

(** X22.  A batch leaves the listing of what it has discovered.  When
    the input directory exists and the listing file can be written,
    then after the batch, however the translations went and whether or
    not the batch ended early on its ledger, the listing file holds the
    discovered paths in discovery order, one per line, and nothing of
    an earlier listing. *)
Theorem batch_writes_the_listing {float : Type} (E : env float)
    (input_dir : list N) (verbose : bool) (w : world float) :
  exists_ input_dir w = true →
  can_write E pathlist_txt = true → fs w !! pathlist_txt ≠ Some Dir →
  fs (snd (translate_directory E input_dir verbose w)) !! pathlist_txt
  = Some (File (Text (listing (discovered E input_dir w)))).
Proof.
  intros Hex Hc Hd.
  set (v := Some (File (Text (listing (discovered E input_dir w))))).
  unfold translate_directory. unfold bind at 1. unfold get at 1.
  rewrite Hex. cbn [negb].
  unfold bind at 1. unfold get at 1.
  unfold bind at 1. unfold write_file.
  rewrite Hc, (isdir_false _ _ Hd). cbn [andb negb].
  match goal with
  | |- fs (snd (?rest ?w1)) !! _ = _ =>
      apply (keeps_snd (fun w' => fs w' !! pathlist_txt = v) rest w1)
  end; [|apply lookup_insert_eq].
  apply keeps_bind; [apply keeps_get | intros ex].
  apply keeps_bind.
  { destruct ex; [|apply keeps_ret].
    apply keeps_bind; [apply keeps_read_text | intros t; apply keeps_ret]. }
  intros done. apply keeps_bind; [|intros _].
  { intros w1 Hw1. unfold open_append.
    destruct (can_write E processed_files_txt
              && negb (isdir processed_files_txt w1)); [|exact Hw1].
    destruct (fs w1 !! processed_files_txt); [exact Hw1|].
    cbn. now rewrite lookup_insert_ne. }
  apply keeps_bind; [|intros _; apply keeps_ret].
  apply loop_keeps_file; [easy | easy |].
  intros p ext He H. symmetry in H.
  now apply (artifact_not_listing _ _ He) in H.
Qed.

Lemma batch_writes_the_listing_witness :
  fs (snd (translate_directory Demo.working (py "in") false Demo.start))
    !! pathlist_txt
  = Some (File (Text (listing (discovered Demo.working (py "in")
                                 Demo.start)))).
Proof.
  apply batch_writes_the_listing.
  - vm_compute. reflexivity.
  - reflexivity.
  - vm_compute. discriminate.
Defined.

Section BatchCalls.

Context {float : Type} (E : env float).

Lemma keeps_then {A} (I : world float → Prop) (m : M float A)
    (R : exn → world float → Prop) :
  keeps I m → (∀ e w, I w → R e w) → hoare I m (fun _ => I) R.
Proof.
  intros H HR. eapply hoare_conseq; [exact H | easy | easy | exact HR].
Qed.

Lemma at_most_one_more_fs c : ignores_fs (at_most_one_more (float := float) c).
Proof. now intros w f. Qed.

Lemma at_most_one_more_stdout c :
  ignores_stdout (at_most_one_more (float := float) c).
Proof. now intros w o. Qed.

Lemma path_calls (v : bool) (done : gset (list N)) (p : list N)
    (c : list (list N * bool)) :
  hoare (calls_are c) (process_path E v done p)
    (fun _ => at_most_one_more c) (fun _ => at_most_one_more c).
Proof.
  unfold process_path. destruct (bool_decide (p ∈ done)).
  { intros w Hw. now left. }
  eapply hoare_bind with (Q1 := fun _ => calls_are c).
  { eapply hoare_conseq with (R' := fun _ => calls_are c);
      [apply keeps_print; now intros w o | easy | easy
      | intros e w Hw; now left]. }
  intros _.
  eapply hoare_bind with (Q1 := fun _ => at_most_one_more c);
    [apply translate_file_calls | intros [translated cm]].
  destruct (match translated with Some c0 => truthy c0 | None => false end);
    [|apply keeps_ret].
  do 3 (apply keeps_bind;
        [apply keeps_print, at_most_one_more_stdout | intros _]).
  apply keeps_bind; [|intros _; apply keeps_ret].
  unfold append_text. apply keeps_bind.
  - apply keeps_try; [apply keeps_read_raw | intros e; apply keeps_ret].
  - intros old. apply keeps_modify. intros w Hw.
    now apply at_most_one_more_fs.
Qed.

Lemma at_most_more_step (n : nat) (c0 : list (list N * bool))
    (w w' : world float) :
  at_most_more n c0 w → at_most_one_more (calls w) w' →
  at_most_more (S n) c0 w'.
Proof.
  intros (extra & Hc & Hn) [H | [x H]].
  - exists extra. split; [congruence | lia].
  - exists (extra ++ [x]). split; [rewrite H, Hc; now rewrite app_assoc|].
    rewrite length_app. cbn. lia.
Qed.

Lemma at_most_more_mono (n m : nat) (c0 : list (list N * bool))
    (w : world float) :
  (n ≤ m)%nat → at_most_more n c0 w → at_most_more m c0 w.
Proof. intros Hnm (extra & Hc & Hn). exists extra. split; [easy | lia]. Qed.

Lemma loop_calls (v : bool) (c0 : list (list N * bool)) (l : list (list N)) :
  ∀ (n : nat) (done : gset (list N)),
    hoare (at_most_more n c0) (fold_files (process_path E v) done l)
      (fun _ => at_most_more (n + length l) c0)
      (fun _ => at_most_more (n + length l) c0).
Proof.
  induction l as [|p l IH]; intros n done; cbn [fold_files length].
  - intros w Hw. cbn. eapply at_most_more_mono; [|exact Hw]. lia.
  - eapply hoare_bind with (Q1 := fun _ => at_most_more (S n) c0).
    + intros w Hw. pose proof (path_calls v done p (calls w) w eq_refl) as H.
      destruct (process_path E v done p w) as [[a|e] w'].
      * eapply at_most_more_step; [exact Hw | exact H].
      * eapply at_most_more_mono;
          [|eapply at_most_more_step; [exact Hw | exact H]]. lia.
    + intros done'. eapply hoare_conseq; [apply (IH (S n) done')| | |];
        try easy; intros u w H;
        (eapply at_most_more_mono; [|exact H]); lia.
Qed.

End BatchCalls.

(** X23.  A batch calls the backend at most once per discovered file:
    after the batch the log of the backend is the log before followed
    by at most as many calls as files were discovered, and by none when
    the input directory is missing. *)
Theorem batch_calls_are_bounded {float : Type} (E : env float)
    (input_dir : list N) (verbose : bool) (w : world float) :
  at_most_more
    (if exists_ input_dir w then length (discovered E input_dir w) else 0)
    (calls w)
    (snd (translate_directory E input_dir verbose w)).
Proof.
  assert (H0 : at_most_more 0 (calls w) w).
  { exists []. split; [now rewrite app_nil_r | cbn; lia]. }
  assert (Hfs : ∀ n, ignores_fs (at_most_more (float := float) n (calls w)))
    by now intros n w' f.
  assert (Hout : ∀ n,
            ignores_stdout (at_most_more (float := float) n (calls w)))
    by now intros n w' o.
  unfold translate_directory. unfold bind at 1. unfold get at 1.
  destruct (exists_ input_dir w); cbn [negb].
  2: { apply (keeps_snd (at_most_more 0 (calls w))); [|exact H0].
       apply keeps_print, Hout. }
  unfold bind at 1. unfold get at 1. fold (discovered E input_dir w).
  set (n := length (discovered E input_dir w)).
  apply hoare_snd with (P := at_most_more 0 (calls w)); [|exact H0].
  assert (Hup : ∀ (e : exn) (w' : world float),
            at_most_more 0 (calls w) w' →
            at_most_more (0 + n) (calls w) w').
  { intros e w' Hw'. eapply at_most_more_mono; [|exact Hw']. lia. }
  eapply hoare_bind with (Q1 := fun _ => at_most_more 0 (calls w));
    [|intros _].
  { apply keeps_then; [|exact Hup].
    apply keeps_write_file. intros w' Hw'. now apply Hfs. }
  eapply hoare_bind with (Q1 := fun _ => at_most_more 0 (calls w));
    [|intros ex].
  { apply keeps_then; [apply keeps_get | exact Hup]. }
  eapply hoare_bind with (Q1 := fun _ => at_most_more 0 (calls w));
    [|intros done].
  { apply keeps_then; [|exact Hup].
    destruct ex; [|apply keeps_ret].
    apply keeps_bind; [apply keeps_read_text | intros t; apply keeps_ret]. }
  eapply hoare_bind with (Q1 := fun _ => at_most_more 0 (calls w));
    [|intros _].
  { apply keeps_then; [|exact Hup].
    apply keeps_open_append. intros w' f Hw'. now apply Hfs. }
  eapply hoare_bind with (Q1 := fun _ => at_most_more (0 + n) (calls w));
    [apply (loop_calls E verbose (calls w) _ 0) | intros _].
  intros w' Hw'. exact Hw'.
Qed.

Section BatchLedger.

Context {float : Type} (E : env float).

Lemma listing_snoc (ps : list (list N)) (p : list N) :
  listing (ps ++ [p]) = listing ps ++ p ++ [NL].
Proof.
  unfold listing. rewrite map_app, concat_app. cbn. now rewrite app_nil_r.
Qed.

Lemma ledger_raw_other (q : list N) (c : content float) (w : world float) :
  q ≠ processed_files_txt →
  ledger_raw E (set_fs (<[q := File c]> (fs w)) w) = ledger_raw E w.
Proof. intros Hq. unfold ledger_raw. cbn. now rewrite lookup_insert_ne. Qed.

Lemma request_keeps_ledger (l0 : list N) (p : list N) (v : bool) :
  keeps (fun w => ledger_raw E w = l0) (translate_file E p v).
Proof.
  apply keeps_request; try (now intros w x Hw).
  - intros w c Hw. now rewrite ledger_raw_other.
  - intros ext c He w Hw. rewrite ledger_raw_other; [exact Hw|].
    now apply artifact_not_listing.
Qed.

Lemma path_ledger (l0 : list N) (v : bool) (done : gset (list N))
    (p : list N) :
  hoare (fun w => ledger_raw E w = l0) (process_path E v done p)
    (fun _ w => ledger_raw E w = l0 ∨ ledger_raw E w = l0 ++ p ++ [NL])
    (fun _ w => ledger_raw E w = l0 ∨ ledger_raw E w = l0 ++ p ++ [NL]).
Proof.
  assert (Hout : ignores_stdout (fun w : world float => ledger_raw E w = l0))
    by now intros w o.
  unfold process_path. destruct (bool_decide (p ∈ done)).
  { intros w Hw. now left. }
  eapply hoare_bind with (Q1 := fun _ w => ledger_raw E w = l0).
  { apply keeps_then; [now apply keeps_print | intros e w Hw; now left]. }
  intros _.
  eapply hoare_bind with (Q1 := fun _ w => ledger_raw E w = l0);
    [|intros [translated cm]].
  { apply keeps_then;
      [apply request_keeps_ledger | intros e w Hw; now left]. }
  destruct (match translated with Some c0 => truthy c0 | None => false end);
    [|intros w Hw; now left].
  do 3 (eapply hoare_bind with (Q1 := fun _ w => ledger_raw E w = l0);
        [apply keeps_then; [now apply keeps_print | intros e w Hw; now left]
        | intros _]).
  intros w Hw. unfold bind. rewrite append_text_run. unfold ret. right.
  unfold ledger_raw at 1. cbn. rewrite lookup_insert_eq. now rewrite Hw.
Qed.

Lemma loop_ledger (l0 : list N) (v : bool) (l : list (list N)) :
  ∀ (ps : list (list N)) (done : gset (list N)),
    hoare (fun w => ledger_raw E w = l0 ++ listing ps)
      (fold_files (process_path E v) done l)
      (fun _ w => ∃ ps', sublist ps' l
                         ∧ ledger_raw E w = l0 ++ listing (ps ++ ps'))
      (fun _ w => ∃ ps', sublist ps' l
                         ∧ ledger_raw E w = l0 ++ listing (ps ++ ps')).
Proof.
  induction l as [|p l IH]; intros ps done; cbn [fold_files].
  - intros w Hw. exists []. split; [constructor | now rewrite app_nil_r].
  - eapply hoare_bind
      with (Q1 := fun _ w =>
                    ledger_raw E w = l0 ++ listing ps
                    ∨ ledger_raw E w = l0 ++ listing (ps ++ [p])).
    + eapply hoare_conseq; [apply (path_ledger (l0 ++ listing ps))| | |].
      * easy.
      * intros u w [H | H]; [now left | right].
        now rewrite listing_snoc, app_assoc.
      * intros e w [H | H].
        -- exists []. split; [apply sublist_nil_l | now rewrite app_nil_r].
        -- exists [p]. split; [apply sublist_skip, sublist_nil_l|].
           now rewrite listing_snoc, H, <- app_assoc.
    + intros done' w [Hw | Hw].
      * pose proof (IH ps done' w Hw) as H.
        destruct (fold_files (process_path E v) done' l w) as [[a|e] w'];
          destruct H as (ps' & Hs & H); exists ps';
          (split; [now apply sublist_cons | exact H]).
      * pose proof (IH (ps ++ [p]) done' w Hw) as H.
        destruct (fold_files (process_path E v) done' l w) as [[a|e] w'];
          destruct H as (ps' & Hs & H); exists (p :: ps');
          (split; [now apply sublist_skip|]);
          now rewrite <- app_assoc in H.
Qed.

Lemma loop_skip (v : bool) (done : gset (list N)) (l : list (list N))
    (w : world float) :
  (∀ p, p ∈ l → p ∈ done) →
  fold_files (process_path E v) done l w = (Ok done, w).
Proof.
  induction l as [|p l IH]; intros H; [reflexivity|]. cbn [fold_files].
  unfold bind, process_path at 1.
  rewrite bool_decide_eq_true_2 by apply H, list_elem_of_here.
  unfold ret at 1. apply IH. intros q Hq. now apply H, list_elem_of_further.
Qed.

End BatchLedger.

(** X24.  The ledger is append-only.  Whatever a batch does, the
    ledger after it is the ledger before it followed by lines that
    hold, in discovery order, some of the discovered paths: a batch
    never removes or rewrites a line of the ledger, and records no path
    that it has not discovered. *)
Theorem ledger_is_append_only {float : Type} (E : env float)
    (input_dir : list N) (verbose : bool) (w : world float) :
  ∃ paths,
    sublist paths (discovered E input_dir w)
    ∧ ledger_raw E (snd (translate_directory E input_dir verbose w))
      = ledger_raw E w ++ listing paths.
Proof.
  set (l0 := ledger_raw E w).
  set (Q := fun w' : world float =>
              ∃ paths, sublist paths (discovered E input_dir w)
                       ∧ ledger_raw E w' = l0 ++ listing paths).
  set (I := fun w' : world float => ledger_raw E w' = l0).
  assert (HI : ∀ (e : exn) w', I w' → Q w').
  { intros e w' Hw'. exists []. split; [apply sublist_nil_l|].
    unfold listing. cbn. now rewrite app_nil_r. }
  assert (Hout : ignores_stdout I) by now intros w' o.
  change (Q (snd (translate_directory E input_dir verbose w))).
  unfold translate_directory. unfold bind at 1. unfold get at 1.
  destruct (exists_ input_dir w); cbn [negb].
  2: { unfold print, modify. cbn [snd]. now apply (HI ValueError), Hout. }
  unfold bind at 1. unfold get at 1. fold (discovered E input_dir w).
  apply hoare_snd with (P := I); [|reflexivity].
  eapply hoare_bind with (Q1 := fun _ => I); [|intros _].
  { apply keeps_then; [|exact HI]. apply keeps_write_file.
    intros w' Hw'. unfold I. now rewrite ledger_raw_other. }
  eapply hoare_bind with (Q1 := fun _ => I); [|intros ex].
  { apply keeps_then; [apply keeps_get | exact HI]. }
  eapply hoare_bind with (Q1 := fun _ => I); [|intros done].
  { apply keeps_then; [|exact HI]. destruct ex; [|apply keeps_ret].
    apply keeps_bind; [apply keeps_read_text | intros t; apply keeps_ret]. }
  eapply hoare_bind with (Q1 := fun _ => I); [|intros _].
  { apply keeps_then; [|exact HI]. intros w' Hw'. unfold open_append.
    destruct (can_write E processed_files_txt
              && negb (isdir processed_files_txt w')); [|exact Hw'].
    destruct (fs w' !! processed_files_txt) eqn:Hf; [exact Hw'|].
    unfold I, ledger_raw in *. cbn. rewrite lookup_insert_eq.
    now rewrite Hf in Hw'. }
  eapply hoare_bind with (Q1 := fun _ => Q); [|intros _; now intros w' Hw'].
  eapply hoare_conseq;
    [apply (loop_ledger E l0 verbose (discovered E input_dir w) [])
    | | | ]; [intros w' Hw' | intros u w' Hw' | intros e w' Hw'].
  - unfold I in Hw'. cbn. now rewrite app_nil_r.
  - exact Hw'.
  - exact Hw'.
Qed.

(** X25.  A batch over a directory whose discovered files all stand in
    the ledger does no work: when the input directory exists, the
    ledger can be read and opened and holds every discovered path, and
    the listing can be written, the batch returns normally having only
    written the listing: it calls the backend for no file, writes no
    artifact, prints nothing and leaves the ledger, the history, the
    stores and the cache as they were. *)
Theorem complete_ledger_means_no_work {float : Type} (E : env float)
    (input_dir : list N) (verbose : bool) (w : world float)
    (text : list N) :
  exists_ input_dir w = true →
  can_write E pathlist_txt = true → fs w !! pathlist_txt ≠ Some Dir →
  can_write E processed_files_txt = true →
  read_text E processed_files_txt w = (Ok text, w) →
  (∀ p, p ∈ discovered E input_dir w → p ∈ ledger_set text) →
  translate_directory E input_dir verbose w
  = (Ok tt,
     set_fs
       (<[pathlist_txt
          := File (Text (listing (discovered E input_dir w)))]> (fs w))
       w).
Proof.
  intros Hex Hc Hd Hcl Hread Hall.
  assert (Hfile : ∃ c, fs w !! processed_files_txt = Some (File c)).
  { unfold read_text, bind, read_raw in Hread.
    destruct (fs w !! processed_files_txt) as [[|c]|]; [easy | eauto | easy]. }
  destruct Hfile as [c Hfile].
  assert (Hne : pathlist_txt ≠ processed_files_txt) by easy.
  unfold translate_directory. unfold bind at 1. unfold get at 1.
  rewrite Hex. cbn [negb].
  unfold bind at 1. unfold get at 1. fold (discovered E input_dir w).
  unfold bind at 1. unfold write_file.
  rewrite Hc, (isdir_false _ _ Hd). cbn [andb negb].
  fold (listing (discovered E input_dir w)).
  set (w1 := set_fs _ w).
  assert (Hf1 : fs w1 !! processed_files_txt = Some (File c)).
  { subst w1. cbn. now rewrite lookup_insert_ne. }
  unfold bind at 1. unfold get at 1. unfold exists_ at 1. rewrite Hf1.
  assert (Hread1 : read_text E processed_files_txt w1 = (Ok text, w1)).
  { unfold read_text, bind, read_raw in Hread |- *.
    rewrite Hf1. rewrite Hfile in Hread.
    destruct c as [s|d]; unfold ret in *; congruence. }
  unfold bind at 1. unfold bind at 1. rewrite Hread1. unfold ret at 1.
  unfold bind at 1. unfold open_append.
  rewrite Hcl. unfold isdir. rewrite Hf1. cbn [andb negb].
  unfold bind. now rewrite (loop_skip E verbose _ _ w1 Hall).
Qed.

Lemma complete_ledger_means_no_work_witness :
  translate_directory Demo.working (py "in") false all_recorded
  = (Ok tt,
     set_fs
       (<[pathlist_txt
          := File
               (Text (listing (discovered Demo.working (py "in")
                                 all_recorded)))]>
          (fs all_recorded))
       all_recorded).
Proof.
  apply (complete_ledger_means_no_work Demo.working (py "in") false _
           (listing [py "in/a.lisp"; py "in/b.lisp"])).
  - vm_compute. reflexivity.
  - reflexivity.
  - vm_compute. discriminate.
  - reflexivity.
  - vm_compute. reflexivity.
  - intros p Hp. vm_compute in Hp.
    apply elem_of_cons in Hp as [-> | Hp];
      [|apply elem_of_cons in Hp as [-> | Hp];
        [|now apply elem_of_nil in Hp]];
      apply ledger_set_elem; (split; [discriminate|]).
    + exists (py "in/a.lisp"). split; [vm_compute; left | reflexivity].
    + exists (py "in/b.lisp"). split;
        [vm_compute; right; left | reflexivity].
Defined.

(** ** A request that goes through *)

Section Success.

Context {float : Type} (E : env float).

(** An update of the history returns, and touches nothing but the
    history, its file and the printed lines. *)
Lemma update_done_frame (filepath source_code : list N) (w : world float) :
  ∃ w', _update_done_db E filepath source_code w = (Ok tt, w')
        ∧ same_but_history w w'
        ∧ ∀ q, q ≠ done_db_json → fs w' !! q = fs w !! q.
Proof.
  unfold _update_done_db, try_except.
  unfold bind at 1. unfold lift at 1.
  destruct (encode E (_preprocess_code source_code)) as [v|e];
    [|eexists; split; [reflexivity|]; split; easy].
  unfold bind at 1. unfold get at 1. unfold bind at 1. unfold lift at 1.
  destruct (add_row (h_embeddings (done_db w)) v) as [t|e];
    [|eexists; split; [reflexivity|]; split; easy].
  unfold bind at 1 2 3. unfold update_done at 1 2 3. unfold modify.
  unfold _save_done_db, try_except, bind, get, write_file.
  destruct (can_write E done_db_json && negb (isdir done_db_json _));
    (eexists; split; [reflexivity|]; split; [easy|]); [|easy].
  intros q Hq. cbn. now rewrite lookup_insert_ne.
Qed.

End Success.

(** X26.  A request that goes through returns what the parser makes of
    the response of the backend.  When the input can be read, its
    content is not cached, the prompt can be built, the backend answers
    the prompt and the three artifact paths can be written, a request
    without streaming returns the code and the comments that the parser
    extracts from the response (the empty text when the answer has no
    response entry); it has logged exactly one call, with that prompt;
    the cache then holds, under the hash of the content, the code, the
    comments and the reasoning; and the artifacts stand next to the
    input with these contents. *)
Theorem request_returns_the_parsed_response {float : Type} (E : env float)
    (input_path source_code prompt : list N) (resp : option (list N))
    (w : world float) :
  read_text E input_path w = (Ok source_code, w) →
  translation_cache w !! md5 E source_code = None →
  _generate_contextual_prompt_with_langchain E source_code w
  = (Ok prompt, w) →
  generate E (length (calls w)) prompt = Ok resp →
  artifacts_writable (can_write E) input_path (fs w) →
  ∃ w' code comments think,
    parsed (default [] resp) = (code, comments, think)
    ∧ translate_file E input_path false w = (Ok (Some code, comments), w')
    ∧ calls w' = calls w ++ [(prompt, false)]
    ∧ translation_cache w'
      = <[md5 E source_code := (code, comments, think)]>
          (translation_cache w)
    ∧ has_artifacts input_path code comments think (fs w').
Proof.
  intros Hread Hmiss Hprompt Hgen Hart.
  set (out := default [] resp).
  set (w1 := set_calls (calls w ++ [(prompt, false)]) w).
  set (w2 := set_fs
               (put_artifacts input_path (_extract_code_block out)
                  (_extract_comments_block out) (_extract_think_block out)
                  (fs w1)) w1).
  destruct (update_done_frame E input_path source_code w2)
    as (w3 & Hup & (_ & _ & Hcache & Hcalls) & Hfs).
  eexists. exists (_extract_code_block out), (_extract_comments_block out),
    (_extract_think_block out).
  split; [reflexivity|]. split.
  - unfold translate_file, try_except.
    unfold bind at 1. rewrite Hread.
    unfold bind at 1. unfold get at 1. rewrite Hmiss.
    unfold bind at 1. rewrite Hprompt.
    unfold bind at 1. unfold generate_blocking.
    unfold bind at 1. unfold get at 1.
    unfold bind at 1. unfold modify at 1.
    unfold bind at 1. unfold lift at 1. rewrite Hgen. unfold ret at 1.
    fold out. fold w1.
    unfold bind at 1.
    rewrite (write_artifacts_ok E input_path _ _ _ w1 Hart). fold w2.
    unfold bind at 1. rewrite Hup.
    unfold bind, modify, ret. reflexivity.
  - cbn [calls translation_cache fs set_cache].
    split; [exact Hcalls|]. split; [now rewrite Hcache|].
    intros ext content Hin. rewrite Hfs.
    + now apply (put_artifacts_has input_path _ _ _ (fs w1)).
    + apply ext_not_done. eapply in_artifact_list, Hin.
Qed.

Lemma request_returns_the_parsed_response_witness :
  ∃ w' code comments think,
    parsed (default [] (Some Demo.answer)) = (code, comments, think)
    ∧ translate_file Demo.working (py "in/a.lisp") false Demo.start
      = (Ok (Some code, comments), w')
    ∧ calls w' = calls Demo.start ++ [(Demo.prompt, false)]
    ∧ translation_cache w'
      = <[md5 Demo.working (py "(car x)") := (code, comments, think)]>
          (translation_cache Demo.start)
    ∧ has_artifacts (py "in/a.lisp") code comments think (fs w').
Proof.
  apply (request_returns_the_parsed_response Demo.working (py "in/a.lisp")
           (py "(car x)") Demo.prompt (Some Demo.answer) Demo.start).
  - vm_compute. reflexivity.
  - vm_compute. reflexivity.
  - vm_compute. reflexivity.
  - reflexivity.
  - intros ext He. split; [reflexivity|].
    repeat (apply elem_of_cons in He as [-> | He]);
      [ | | | now apply elem_of_nil in He]; vm_compute; discriminate.
Defined.

(** ** Memory and disk after the preparation *)

Section Prepared.

Context {float : Type} (E : env float).

Lemma build_keeps_files (doc_path : list N) (r : db_ref) (w : world float) :
  ∃ w', _build_enhanced_database E doc_path r w = (Ok tt, w')
        ∧ fs w' = fs w.
Proof.
  destruct (total_elim _ w (total_build E doc_path r)) as ([] & w' & H).
  exists w'. split; [exact H|].
  pose proof (keeps_build E r (fun w0 => fs w0 = fs w)) as Hk.
  assert (Hw : fs (snd (_build_enhanced_database E doc_path r w)) = fs w).
  { apply (keeps_snd (fun w0 => fs w0 = fs w)); [|reflexivity].
    apply Hk; [now intros w0 o | intros w0 d Hw0; now destruct r]. }
  now rewrite H in Hw.
Qed.

End Prepared.

(** X27.  After the preparation of a store, memory and disk agree.
    When the store file is absent and can be written, the store is
    built from the documentation and the file then holds the document
    of the store in memory; when the file holds the document of a store
    with well-formed vector tables, the store in memory becomes that
    store, every sample as it is loaded, and no file is written. *)
Theorem preparation_agrees_with_disk {float : Type} (E : env float)
    (r : db_ref) (path : list N) (w : world float) :
  (fs w !! path = None → can_write E path = true →
   fs (snd (prepare_one E r path w)) !! path
   = Some (File (Json (ctx_doc (db_of r (snd (prepare_one E r path w)))))))
  ∧ (∀ d, fs w !! path = Some (File (Json (ctx_doc d))) →
          table_ok (embeddings d) → table_ok (text_embeddings d) →
          db_of r (snd (prepare_one E r path w)) = loaded_store d
          ∧ fs (snd (prepare_one E r path w)) = fs w).
Proof.
  split.
  - intros Hf Hc.
    assert (Hrun : ∃ w', prepare_one E r path w = (Ok tt, w')
                         ∧ fs w' !! path
                           = Some (File (Json (ctx_doc (db_of r w'))))).
    { unfold prepare_one.
      unfold bind at 1. unfold get at 1. unfold exists_. rewrite Hf.
      unfold bind at 1. unfold print at 1. unfold modify at 1.
      unfold bind at 1.
      match goal with
      | |- context [_build_enhanced_database E ?docs r ?w0] =>
          destruct (build_keeps_files E docs r w0) as (wb & Hb & Hfs)
      end.
      rewrite Hb.
      unfold bind at 1. unfold get at 1.
      assert (Hn : fs wb !! path ≠ Some Dir).
      { rewrite Hfs. cbn [fs set_stdout]. now rewrite Hf. }
      unfold bind at 1. rewrite (save_db_run E _ _ _ Hc Hn).
      unfold print, modify. eexists. split; [reflexivity|].
      cbn [fs set_fs set_stdout]. rewrite lookup_insert_eq.
      now destruct r. }
    destruct Hrun as (w' & -> & Hw'). exact Hw'.
  - intros d Hf He Ht.
    assert (Hrun : ∃ w', prepare_one E r path w = (Ok tt, w')
                         ∧ db_of r w' = loaded_store d ∧ fs w' = fs w).
    { unfold prepare_one.
      unfold bind at 1. unfold get at 1. unfold exists_. rewrite Hf.
      unfold bind at 1. rewrite (load_db_run E d path w He Ht Hf).
      unfold bind, update_db, modify, print. eexists.
      split; [reflexivity|]. split; now destruct r. }
    destruct Hrun as (w' & -> & Hw'). exact Hw'.
Qed.

Lemma preparation_agrees_with_disk_witness :
  fs (snd (prepare_one Demo.working Src (py "src_db.json") documented))
    !! py "src_db.json"
  = Some
      (File
         (Json
            (ctx_doc
               (db_of Src
                  (snd (prepare_one Demo.working Src (py "src_db.json")
                          documented)))))).
Proof.
  apply (preparation_agrees_with_disk Demo.working Src (py "src_db.json")
           documented).
  - vm_compute. reflexivity.
  - reflexivity.
Defined.

(** ** The history in the next prompt *)

Section Feedback.

Context {float : Type} (E : env float).

Lemma last3_snoc {A} (l : list A) (x : A) :
  ∃ l', last3 (l ++ [x]) = l' ++ [x].
Proof.
  unfold last3. rewrite length_app. cbn [length].
  exists (skipn (length l + 1 - 3) l).
  rewrite skipn_app.
  replace (length l + 1 - 3 - length l)%nat with O by lia. reflexivity.
Qed.

Lemma join_snoc (sep : list N) (l : list (list N)) (x : list N) :
  ∃ before, join sep (l ++ [x]) = before ++ x.
Proof.
  induction l as [|y l [before IH]]; [now exists []|].
  cbn [app join]. destruct (l ++ [x]) as [|z l'] eqn:Hl.
  - now destruct l.
  - exists (y ++ sep ++ before). rewrite IH. now rewrite <- !app_assoc.
Qed.

Lemma example_block_snoc (l : list (list N)) (x : list N) :
  ∃ before, example_block (l ++ [x]) = before ++ x.
Proof.
  unfold example_block. destruct (l ++ [x]) as [|z l'] eqn:Hl.
  - now destruct l.
  - rewrite <- Hl. apply join_snoc.
Qed.

End Feedback.

(** X28.  The history feeds the next prompt with sources.  Once an
    update of the history has recorded a file, the prompt that is built
    next, for whatever code, shows under its previous translations a
    block that ends with the normalised source of that file: what the
    prompt calls previous translations are the normalised sources of
    the files translated before, not their translations. *)
Theorem history_feeds_the_prompt {float : Type} (E : env float)
    (filepath source_code code : list N) (w w' : world float)
    (v : list float) (t : list (list float)) (prompt : list N) :
  encode E (_preprocess_code source_code) = Ok v →
  add_row (h_embeddings (done_db w)) v = Ok t →
  _update_done_db E filepath source_code w = (Ok tt, w') →
  _generate_contextual_prompt_with_langchain E code w' = (Ok prompt, w') →
  ∃ sources targets before,
    prompt
    = overall_tmpl sources targets
        (before ++ _preprocess_code source_code) code.
Proof.
  intros Henc Hrow Hup Hprompt.
  assert (Hd : h_samples (done_db w')
               = h_samples (done_db w) ++ [IStr (_preprocess_code source_code)]).
  { revert Hup. unfold _update_done_db, try_except.
    unfold bind at 1. unfold lift at 1. rewrite Henc.
    unfold bind at 1. unfold get at 1. unfold bind at 1. unfold lift at 1.
    rewrite Hrow.
    unfold bind at 1 2 3. unfold update_done at 1 2 3. unfold modify.
    unfold _save_done_db, try_except, bind, get, write_file.
    destruct (can_write E done_db_json && negb (isdir done_db_json _));
      now intros [= <-]. }
  revert Hprompt.
  unfold _generate_contextual_prompt_with_langchain, bind, get, lift, ret.
  destruct (render_examples (firstn 3 (samples (src_db w')))) as [ls|e];
    [|easy].
  destruct (render_examples (firstn 3 (samples (trg_db w')))) as [lt|e];
    [|easy].
  intros [= <-]. rewrite Hd.
  destruct (last3_snoc (h_samples (done_db w))
              (IStr (_preprocess_code source_code))) as [l' ->].
  rewrite map_app. cbn [List.map prev_tmpl].
  destruct (example_block_snoc (List.map (prev_tmpl E) l')
              (_preprocess_code source_code)) as [before ->].
  now exists (example_block ls), (example_block lt), before.
Qed.

Lemma history_feeds_the_prompt_witness :
  ∃ sources targets before,
    overall_tmpl (py "None") (py "None") (py "(car x)") (py "(cdr x)")
    = overall_tmpl sources targets
        (before ++ _preprocess_code (py "(car  x) ; first")) (py "(cdr x)").
Proof.
  apply (history_feeds_the_prompt Demo.working (py "in/a.lisp")
           (py "(car  x) ; first") (py "(cdr x)") Demo.start
           (snd (_update_done_db Demo.working (py "in/a.lisp")
                   (py "(car  x) ; first") Demo.start))
           [1%Z; 2%Z; 3%Z] [[1%Z; 2%Z; 3%Z]]).
  - reflexivity.
  - reflexivity.
  - vm_compute. reflexivity.
  - vm_compute. reflexivity.
Defined.

(** ** What one run saves, the next run loads *)

(** X29.  The stores survive a restart.  A context store with
    well-formed vector tables that one run has saved is loaded by any
    later run that finds the file as it was written, whatever that run
    holds in memory: the load gives the saved store, every sample as it
    is loaded, and not the no-store result.  In the same way the
    loading of a saved history gives back its vectors, its file paths
    and its items as they are loaded; the text tables of the history,
    which are not saved, stay those of the loading run. *)
Theorem stores_survive_a_restart {float : Type} (E : env float) :
  (∀ (db : ctx_db float) path (w later : world float),
     can_write E path = true → fs w !! path ≠ Some Dir →
     table_ok (embeddings db) → table_ok (text_embeddings db) →
     fs later !! path = fs (snd (_save_db E db path w)) !! path →
     _load_db E path later = (Ok (Some (loaded_store db)), later))
  ∧ (∀ w later : world float,
       can_write E done_db_json = true → fs w !! done_db_json ≠ Some Dir →
       table_ok (h_embeddings (done_db w)) →
       fs later !! done_db_json
       = fs (snd (_save_done_db E w)) !! done_db_json →
       ∃ w',
         _load_done_db E later = (Ok tt, w')
         ∧ h_embeddings (done_db w') = h_embeddings (done_db w)
         ∧ h_filepaths (done_db w') = h_filepaths (done_db w)
         ∧ h_samples (done_db w')
           = List.map as_loaded (h_samples (done_db w))
         ∧ h_text_embeddings (done_db w')
           = h_text_embeddings (done_db later)
         ∧ h_text_chunks (done_db w') = h_text_chunks (done_db later)).
Proof.
  split.
  - intros db path w later Hc Hd He Ht Hf.
    rewrite (save_db_run E db path w Hc Hd) in Hf. cbn [snd fs set_fs] in Hf.
    rewrite lookup_insert_eq in Hf.
    apply (load_db_run E db path later He Ht Hf).
  - intros w later Hc Hd He Hf.
    rewrite (save_done_run E w Hc Hd) in Hf. cbn [snd fs set_fs] in Hf.
    rewrite lookup_insert_eq in Hf.
    eexists. split; [apply (load_done_run E (done_db w) later He Hf)|].
    now repeat split.
Qed.

Lemma stores_survive_a_restart_witness :
  _load_db Demo.working (py "src_db.json")
    (snd (_save_db Demo.working Demo.store (py "src_db.json") Demo.start))
  = (Ok (Some (loaded_store Demo.store)),
     snd (_save_db Demo.working Demo.store (py "src_db.json") Demo.start)).
Proof.
  destruct (stores_survive_a_restart Demo.working) as [H _].
  apply (H Demo.store (py "src_db.json") Demo.start);
    [reflexivity | vm_compute; discriminate | apply table_ok_one
    | apply table_ok_one | reflexivity].
Defined.

(** ** A streamed request that goes through *)

(** X30.  A streamed request that goes through returns what the parser
    makes of the whole stream.  When the input can be read, its content
    is not cached, the prompt can be built, the stream of the backend
    ends normally and the three artifact paths can be written, a
    request with streaming returns the code and the comments that the
    parser extracts from the concatenation of the fragments; it has
    logged exactly one call, with that prompt and the streaming flag;
    the cache then holds, under the hash of the content, the code, the
    comments and the reasoning; and the artifacts stand next to the
    input with these contents. *)
Theorem streamed_request_returns_the_parsed_stream {float : Type}
    (E : env float) (input_path source_code prompt : list N)
    (chunks : list (option (list N))) (w : world float) :
  read_text E input_path w = (Ok source_code, w) →
  translation_cache w !! md5 E source_code = None →
  _generate_contextual_prompt_with_langchain E source_code w
  = (Ok prompt, w) →
  generate_stream E (length (calls w)) prompt = (chunks, None) →
  artifacts_writable (can_write E) input_path (fs w) →
  ∃ w' code comments think,
    parsed (List.concat (List.map (default []) chunks))
    = (code, comments, think)
    ∧ translate_file E input_path true w = (Ok (Some code, comments), w')
    ∧ calls w' = calls w ++ [(prompt, true)]
    ∧ translation_cache w'
      = <[md5 E source_code := (code, comments, think)]>
          (translation_cache w)
    ∧ has_artifacts input_path code comments think (fs w').
Proof.
  intros Hread Hmiss Hprompt Hgen Hart.
  rewrite <- concat_echoed.
  set (out := List.concat (echoed chunks)).
  set (w1 := printed (echoed chunks ++ [[NL]])
               (set_calls (calls w ++ [(prompt, true)]) w)).
  set (w2 := set_fs
               (put_artifacts input_path (_extract_code_block out)
                  (_extract_comments_block out) (_extract_think_block out)
                  (fs w1)) w1).
  destruct (update_done_frame E input_path source_code w2)
    as (w3 & Hup & (_ & _ & Hcache & Hcalls) & Hfs).
  eexists. exists (_extract_code_block out), (_extract_comments_block out),
    (_extract_think_block out).
  split; [reflexivity|]. split.
  - unfold translate_file, try_except.
    unfold bind at 1. rewrite Hread.
    unfold bind at 1. unfold get at 1. rewrite Hmiss.
    unfold bind at 1. rewrite Hprompt.
    unfold bind at 1. rewrite (generate_streaming_run E _ _ _ Hgen).
    fold out. fold w1.
    unfold bind at 1.
    rewrite (write_artifacts_ok E input_path _ _ _ w1 Hart). fold w2.
    unfold bind at 1. rewrite Hup.
    unfold bind, modify, ret. reflexivity.
  - cbn [calls translation_cache fs set_cache].
    split; [exact Hcalls|]. split; [now rewrite Hcache|].
    intros ext content Hin. rewrite Hfs.
    + now apply (put_artifacts_has input_path _ _ _ (fs w1)).
    + apply ext_not_done. eapply in_artifact_list, Hin.
Qed.

Lemma streamed_request_returns_the_parsed_stream_witness :
  ∃ w' code comments think,
    parsed
      (List.concat
         (List.map (default [])
            [Some (py "```lisp"); None; Some [NL];
             Some (py "(first x)"); Some [NL]; Some (py "```")]))
    = (code, comments, think)
    ∧ translate_file Demo.working (py "in/a.lisp") true Demo.start
      = (Ok (Some code, comments), w')
    ∧ calls w' = calls Demo.start ++ [(Demo.prompt, true)]
    ∧ translation_cache w'
      = <[md5 Demo.working (py "(car x)") := (code, comments, think)]>
          (translation_cache Demo.start)
    ∧ has_artifacts (py "in/a.lisp") code comments think (fs w').
Proof.
  apply (streamed_request_returns_the_parsed_stream Demo.working
           (py "in/a.lisp") (py "(car x)") Demo.prompt _ Demo.start).
  - vm_compute. reflexivity.
  - vm_compute. reflexivity.
  - vm_compute. reflexivity.
  - reflexivity.
  - intros ext He. split; [reflexivity|].
    repeat (apply elem_of_cons in He as [-> | He]);
      [ | | | now apply elem_of_nil in He]; vm_compute; discriminate.
Defined.
